(** * The claim store of cnab-go: installations, claims, results, outputs

    A shallow embedding of [claim/claimstore.go], [claim/installation.go] and
    [claim/output.go].  Go values are Rocq values, a Go [error] is observed
    through its message, and every method that talks to the backing store is
    a state transformer over the state of that store. *)

From Stdlib Require Import String Ascii ZArith.
From Stdlib.Strings Require Import Byte.
From stdpp Require Import base option list gmap strings sorting.

(** A Go [error] is the text returned by its [Error()] method; [None] is
    the [nil] error.  A [[]byte] is a list of bytes. *)
Abbreviation error := string (only parsing).
Abbreviation bytes := (list byte) (only parsing).

(** ** Package [strings] *)
Module strings.

(** [strip prefix s] is what is left of [s] after [prefix], when [s] starts
    with it. *)
Fixpoint strip (prefix s : string) : option string :=
  match prefix, s with
  | EmptyString, _ => Some s
  | String a prefix', String b s' =>
      if Ascii.eqb a b then strip prefix' s' else None
  | String _ _, EmptyString => None
  end.

Definition HasPrefix (s prefix : string) : bool :=
  match strip prefix s with Some _ => true | None => false end.

Definition TrimPrefix (s prefix : string) : string :=
  match strip prefix s with Some rest => rest | None => s end.

Fixpoint Contains (s substr : string) : bool :=
  if HasPrefix s substr then true
  else match s with
       | EmptyString => false
       | String _ s' => Contains s' substr
       end.

End strings.

(** ** Package [sort]

    [sort.Strings] orders a slice by the byte-wise order of Go strings, which
    is [String.le].  The result of sorting strings does not depend on the
    algorithm, so a merge sort stands for Go's pattern-defeating quicksort. *)
Module sort.

Definition Strings (l : list string) : list string := merge_sort String.le l.

(** [sort.Sort] over a slice of records ordered by a string key. The sort is
    not stable in Go; records with equal keys may come out in any order, and
    this model picks the order of the merge sort. *)
Definition By {A} (key : A → string) (l : list A) : list A :=
  merge_sort (λ a b, String.le (key a) (key b)) l.

End sort.

(** ** Packages [bundle] and [definition]: what the claim store reads of a bundle *)
Module definition.

Record Schema := {
  Type_ : string;
  WriteOnly : option bool;
}.

End definition.

Module bundle.

Record Output := {
  Output_Definition : string;
  Output_ApplyTo : list string;
  Output_Path : string;
}.

Record Bundle := {
  Name : string;
  Version : string;
  Labels : gmap string string;
  Outputs : gmap string Output;
  Definitions : gmap string definition.Schema;
}.

(** Modelled from the spec: [Bundle.IsOutputSensitive] is not part of the
    sources at hand.  The spec (sections 1, 3 and glossary) describes it as
    the per-output boolean derived from the bundle's definition schema: an
    output is sensitive when its definition is marked write-only, and the
    lookup fails for a name the bundle does not define. *)
Definition IsOutputSensitive (b : Bundle) (outputName : string)
  : bool * option error :=
  match Outputs b !! outputName with
  | Some output =>
      match Definitions b !! Output_Definition output with
      | Some def =>
          (match definition.WriteOnly def with
           | Some w => w
           | None => false
           end, None)
      | None => (false, Some ("output " +:+ outputName +:+ " not defined"))
      end
  | None => (false, Some ("output " +:+ outputName +:+ " not defined"))
  end.

End bundle.

(** The bundle marks an output as sensitive. *)
Definition marked (b : bundle.Bundle) (outputName : string) : Prop :=
  bundle.IsOutputSensitive b outputName = (true, None).

#[global] Instance marked_dec b outputName : Decision (marked b outputName).
Proof. unfold marked. apply _. Defined.

(** ** Package [claim]: the data model *)

Record InstallationStatus := {
  Status_ClaimID : string;
  Status_Action : string;
  Status_Revision : string;
  Status_ResultID : string;
  Status_ResultStatus : string;
}.

(** Modelled from the spec: the structs [Claim] and [Result] are declared in
    files that are not part of the sources at hand.  Their persisted
    attributes are the ones of the spec's data model (section 3); the
    unexported fields [results] and [claim] are the ones the claim store
    assigns ([c.results = &Results{r}], [claim: &scopedClaim]).  A Go pointer
    that may be [nil] is an [option]. *)
Inductive Claim : Type := Build_Claim {
  Claim_ID : string;
  Claim_Installation : string;
  Claim_Revision : string;
  Claim_Action : string;
  Claim_Bundle : bundle.Bundle;
  Claim_BundleReference : string;
  Claim_BundleDigest : string;
  Claim_Parameters : gmap string string;
  Claim_Created : Z;
  Claim_results : option (list Result);
}
with Result : Type := Build_Result {
  Result_ID : string;
  Result_ClaimID : string;
  Result_Namespace : string;
  Result_Created : Z;
  Result_Message : string;
  Result_Status : string;
  Result_OutputMetadata : gmap string string;
  Result_claim : option Claim;
}.

(** [Installation] of [installation.go].  Timestamps are instants on the
    integer line, [Custom] is an opaque encoded value, and a [nil] map is the
    empty map. *)
Record Installation := {
  Installation_SchemaVersion : string;
  Installation_Name : string;
  Installation_Namespace : string;
  Installation_BundleRepository : string;
  Installation_BundleVersion : string;
  Installation_BundleDigest : string;
  Installation_Created : Z;
  Installation_Modified : Z;
  Installation_Custom : option string;
  Installation_Labels : gmap string string;
  Installation_Status : InstallationStatus;
  Installation_claims : list Claim;
}.

(** [Output] of [output.go]. *)
Record Output := {
  Output_claim : Claim;
  Output_result : Result;
  Output_Name : string;
  Output_Value : bytes;
}.

(** The zero values [Claim{}], [Result{}], [Installation{}], [Output{}]. *)
Definition zero_Bundle : bundle.Bundle :=
  {| bundle.Name := ""; bundle.Version := ""; bundle.Labels := ∅;
     bundle.Outputs := ∅; bundle.Definitions := ∅ |}.

Definition zero_Claim : Claim :=
  {| Claim_ID := ""; Claim_Installation := ""; Claim_Revision := "";
     Claim_Action := ""; Claim_Bundle := zero_Bundle;
     Claim_BundleReference := ""; Claim_BundleDigest := "";
     Claim_Parameters := ∅; Claim_Created := 0%Z; Claim_results := None |}.

Definition zero_Result : Result :=
  {| Result_ID := ""; Result_ClaimID := ""; Result_Namespace := "";
     Result_Created := 0%Z; Result_Message := ""; Result_Status := "";
     Result_OutputMetadata := ∅; Result_claim := None |}.

Definition zero_Status : InstallationStatus :=
  {| Status_ClaimID := ""; Status_Action := ""; Status_Revision := "";
     Status_ResultID := ""; Status_ResultStatus := "" |}.

Definition zero_Installation : Installation :=
  {| Installation_SchemaVersion := ""; Installation_Name := "";
     Installation_Namespace := ""; Installation_BundleRepository := "";
     Installation_BundleVersion := ""; Installation_BundleDigest := "";
     Installation_Created := 0%Z; Installation_Modified := 0%Z;
     Installation_Custom := None; Installation_Labels := ∅;
     Installation_Status := zero_Status; Installation_claims := [] |}.

Definition zero_Output : Output :=
  {| Output_claim := zero_Claim; Output_result := zero_Result;
     Output_Name := ""; Output_Value := [] |}.

(** ** What the claim store takes from outside

    Libraries ([encoding/json], [docker/distribution/reference]) and
    declarations of the repository that are not part of the sources at hand
    (the constants [storage.NamespaceGlobal] and
    [crud.ErrRecordDoesNotExist], the method [Claim.IsModifyingAction]) are
    parameters of the development. *)
Class Env := {
  (** [storage.NamespaceGlobal] *)
  NamespaceGlobal : string;
  (** [crud.ErrRecordDoesNotExist.Error()] *)
  ErrRecordDoesNotExist : error;
  (** [reference.ParseNormalizedNamed(ref)] followed by [Name()] *)
  ParseNormalizedNamed : string → string * option error;
  (** [Claim.IsModifyingAction] *)
  IsModifyingAction : Claim → bool * option error;
  (** [json.Marshal] and [json.Unmarshal] at the three document types *)
  Marshal_Installation : Installation → bytes;
  Unmarshal_Installation : bytes → Installation * option error;
  Marshal_Claim : Claim → bytes;
  Unmarshal_Claim : bytes → Claim * option error;
  Marshal_Result : Result → bytes;
  Unmarshal_Result : bytes → Result * option error;
}.

(** ** [installation.go]: applying a claim or a result to an installation *)
Section installation.
Context `{Env}.

Definition ApplyClaim (i : Installation) (c : Claim) : Installation :=
  {| Installation_SchemaVersion := Installation_SchemaVersion i;
     Installation_Name := Installation_Name i;
     Installation_Namespace := Installation_Namespace i;
     Installation_BundleRepository :=
       match ParseNormalizedNamed (Claim_BundleReference c) with
       | (ref, None) => ref
       | (_, Some _) => Installation_BundleRepository i
       end;
     Installation_BundleVersion := bundle.Version (Claim_Bundle c);
     Installation_BundleDigest := Claim_BundleDigest c;
     Installation_Created := Installation_Created i;
     Installation_Modified := Installation_Modified i;
     Installation_Custom := Installation_Custom i;
     Installation_Labels :=
       map_fold (λ k v labels, <[k:=v]> labels)
                (Installation_Labels i) (bundle.Labels (Claim_Bundle c));
     Installation_Status :=
       {| Status_ClaimID := Claim_ID c;
          Status_Action := Claim_Action c;
          Status_Revision := Claim_Revision c;
          Status_ResultID := "";
          Status_ResultStatus := "" |};
     Installation_claims := Installation_claims i |}.

Definition ApplyResult (i : Installation) (r : Result) : Installation :=
  {| Installation_SchemaVersion := Installation_SchemaVersion i;
     Installation_Name := Installation_Name i;
     Installation_Namespace := Installation_Namespace i;
     Installation_BundleRepository := Installation_BundleRepository i;
     Installation_BundleVersion := Installation_BundleVersion i;
     Installation_BundleDigest := Installation_BundleDigest i;
     Installation_Created := Installation_Created i;
     Installation_Modified := Installation_Modified i;
     Installation_Custom := Installation_Custom i;
     Installation_Labels := Installation_Labels i;
     Installation_Status :=
       {| Status_ClaimID := Status_ClaimID (Installation_Status i);
          Status_Action := Status_Action (Installation_Status i);
          Status_Revision := Status_Revision (Installation_Status i);
          Status_ResultID := Result_ID r;
          Status_ResultStatus := Result_Status r |};
     Installation_claims := Installation_claims i |}.

(** [GetStatus] and the unknown status. *)
Definition StatusUnknown : string := "unknown".

Definition GetStatus (i : Installation) : string :=
  if decide (Status_ResultStatus (Installation_Status i) = "")
  then StatusUnknown
  else Status_ResultStatus (Installation_Status i).

End installation.

(** ** State passing

    A method of the store runs against the state [S] of the backing store
    and leaves a new state behind, whatever it returns. *)
Definition M (S A : Type) : Type := S → A * S.

Definition ret {S A} (a : A) : M S A := λ st, (a, st).

Definition bind {S A B} (m : M S A) (k : A → M S B) : M S B :=
  λ st, let (a, st') := m st in k a st'.

Notation "'let*' x ':=' m 'in' k" := (bind m (λ x, k))
  (at level 10, x pattern, m at level 100, k at level 200,
   format "'[v' 'let*'  x  ':='  m  'in' '/' k ']'").

(** A loop [for _, x := range l] whose body returns an error: the first
    error leaves the loop and the function. *)
Fixpoint for_each {S A} (body : A → M S (option error)) (l : list A)
  : M S (option error) :=
  match l with
  | [] => ret None
  | x :: l' =>
      let* err := body x in
      match err with
      | Some e => ret (Some e)
      | None => for_each body l'
      end
  end.

(** ** Package [storage] *)
Module storage.

(** [EncryptionHandler]: a function that encrypts or decrypts data. *)
Definition EncryptionHandler : Type := bytes → bytes * option error.

Definition NoOpEncryptionHandler : EncryptionHandler := λ data, (data, None).

(** Modelled from the spec: a document as [crud.SaveDocument] sees it, the
    uniform view [(kind, group, key, bytes, encrypt?)] of section 4.2 (the
    [Document] interface at hand has no method for the group). *)
Record Document := {
  GetType : string;
  GetGroup : string;
  GetName : string;
  GetData : bytes * option error;
  ShouldEncrypt : bool;
}.

End storage.

(** ** Package [crud]: the contract of the backing store *)
Module crud.

(** The interface [crud.ManagedStore] over a store with state [S].
    [HandleConnect] returns the function that releases the connection. *)
Class ManagedStore (S : Type) := {
  HandleConnect : M S ((S → S) * option error);
  List : string → string → M S (list string * option error);
  Read : string → string → M S (bytes * option error);
  ReadAll : string → string → M S (list bytes * option error);
  Save : string → string → string → bytes → M S (option error);
  Delete : string → string → M S (option error);
}.

(** Modelled from the spec: [crud.SaveDocument] is not part of the sources
    at hand.  Section 4.2: it serializes the entity, applies the encryption
    function iff [shouldEncrypt()], and writes [(kind, group, key, bytes)]. *)
Definition SaveDocument {S} `{ManagedStore S} (doc : storage.Document)
    (encrypt : storage.EncryptionHandler) : M S (option error) :=
  match storage.GetData doc with
  | (_, Some e) => ret (Some e)
  | (data, None) =>
      if storage.ShouldEncrypt doc then
        match encrypt data with
        | (_, Some e) => ret (Some e)
        | (data', None) =>
            Save (storage.GetType doc) (storage.GetGroup doc)
                 (storage.GetName doc) data'
        end
      else
        Save (storage.GetType doc) (storage.GetGroup doc)
             (storage.GetName doc) data
  end.

End crud.

(** ** Package [errors] *)
Module errors.

(** [errors.Wrap(err, msg)]: the message of the wrapper. *)
Definition Wrap (err : error) (msg : string) : error := msg +:+ ": " +:+ err.

End errors.

(** ** [output.go]: the container of outputs *)

Definition NewOutput (c : Claim) (r : Result) (name : string) (value : bytes)
  : Output :=
  let r' :=
    {| Result_ID := Result_ID r; Result_ClaimID := Result_ClaimID r;
       Result_Namespace := Result_Namespace r;
       Result_Created := Result_Created r;
       Result_Message := Result_Message r; Result_Status := Result_Status r;
       Result_OutputMetadata := Result_OutputMetadata r;
       Result_claim := Some c |} in
  {| Output_claim := c; Output_result := r'; Output_Name := name;
     Output_Value := value |}.

Definition Output_GetGroup (o : Output) : string :=
  Result_ID (Output_result o).

Definition Output_GetNamespace (o : Output) : string :=
  Result_Namespace (Output_result o).

Definition Output_GetName (o : Output) : string :=
  Result_ID (Output_result o) +:+ "-" +:+ Output_Name o.

Definition Output_ShouldEncrypt (o : Output) : bool :=
  fst (bundle.IsOutputSensitive (Claim_Bundle (Output_claim o)) (Output_Name o)).

Definition Output_GetData (o : Output) : bytes * option error :=
  (Output_Value o, None).

Definition Output_GetDefinition (o : Output) : option bundle.Output :=
  bundle.Outputs (Claim_Bundle (Output_claim o)) !! Output_Name o.

Definition Output_GetSchema (o : Output) : option definition.Schema :=
  match Output_GetDefinition o with
  | Some def =>
      bundle.Definitions (Claim_Bundle (Output_claim o))
        !! bundle.Output_Definition def
  | None => None
  end.

(** [Outputs]: the sorted list of outputs, and for every output name the
    index of the output in the list. *)
Record Outputs := {
  Outputs_vals : list Output;
  Outputs_keys : gmap string nat;
}.

Definition zero_Outputs : Outputs :=
  {| Outputs_vals := []; Outputs_keys := ∅ |}.

Definition Outputs_Len (o : Outputs) : nat := length (Outputs_vals o).

(** [o.vals[i].Name < o.vals[j].Name]; an index out of range panics in Go
    and is never asked for by the sort. *)
Definition Outputs_Less (o : Outputs) (i j : nat) : bool :=
  match Outputs_vals o !! i, Outputs_vals o !! j with
  | Some a, Some b => String.ltb (Output_Name a) (Output_Name b)
  | _, _ => false
  end.

Definition Outputs_Swap (o : Outputs) (i j : nat) : Outputs :=
  match Outputs_vals o !! i, Outputs_vals o !! j with
  | Some a, Some b =>
      {| Outputs_vals := <[j:=a]> (<[i:=b]> (Outputs_vals o));
         Outputs_keys :=
           <[Output_Name b := i]> (<[Output_Name a := j]> (Outputs_keys o)) |}
  | _, _ => o
  end.

(** [sort.Sort(o)] sees the container through [Len], [Less] and [Swap]
    only.  On a slice of at most twelve elements it runs the insertion sort
    below; on a longer one it swaps in another order and, the names being
    distinct, ends in the same container. *)
Fixpoint Outputs_sink (o : Outputs) (j : nat) : Outputs :=
  match j with
  | 0 => o
  | S j' =>
      if Outputs_Less o j j' then Outputs_sink (Outputs_Swap o j j') j'
      else o
  end.

Definition Outputs_Sort (o : Outputs) : Outputs :=
  foldl Outputs_sink o (seq 1 (Outputs_Len o - 1)).

(** The loop [for i, output := range outputs { o.keys[output.Name] = i }]. *)
Fixpoint index_keys (outputs : list Output) (i : nat) (keys : gmap string nat)
  : gmap string nat :=
  match outputs with
  | [] => keys
  | output :: rest => index_keys rest (S i) (<[Output_Name output := i]> keys)
  end.

Definition NewOutputs (outputs : list Output) : Outputs :=
  Outputs_Sort {| Outputs_vals := outputs;
                  Outputs_keys := index_keys outputs 0 ∅ |}.

Definition GetByName (o : Outputs) (name : string) : Output * bool :=
  match Outputs_keys o !! name with
  | Some i =>
      match Outputs_vals o !! i with
      | Some out => (out, true)
      | None => (zero_Output, false)
      end
  | None => (zero_Output, false)
  end.

Definition GetByIndex (o : Outputs) (i : Z) : Output * bool :=
  if decide (i < 0)%Z then (zero_Output, false)
  else match Outputs_vals o !! Z.to_nat i with
       | Some out => (out, true)
       | None => (zero_Output, false)
       end.

(** ** [claimstore.go] *)

Definition ItemTypeInstallations : string := "installations".
Definition ItemTypeClaims : string := "claims".
Definition ItemTypeResults : string := "results".
Definition ItemTypeOutputs : string := "outputs".

Definition ErrInstallationNotFound : error := "Installation does not exist".
Definition ErrClaimNotFound : error := "Claim does not exist".
Definition ErrResultNotFound : error := "Result does not exist".
Definition ErrOutputNotFound : error := "Output does not exist".

(** [Store]: the encryption handlers; the backing store is the state the
    methods run against.  The mutex of the store orders concurrent callers
    and has no effect on one caller, which is what is modelled here. *)
Record Store := {
  encrypt : storage.EncryptionHandler;
  decrypt : storage.EncryptionHandler;
}.

Definition NewClaimStore (encrypt decrypt : option storage.EncryptionHandler)
  : Store :=
  {| encrypt := default storage.NoOpEncryptionHandler encrypt;
     decrypt := default storage.NoOpEncryptionHandler decrypt |}.

(** Modelled from the spec: [InstallationKey] is not part of the sources at
    hand.  Section 6: installation keys include the namespace,
    ["<namespace>/<name>"], or just [<name>] when the namespace is empty. *)
Definition InstallationKey (namespace name : string) : string :=
  if decide (namespace = "") then name else namespace +:+ "/" +:+ name.

(** [s[len(s)-1]] of a slice of strings known not to be empty. *)
Definition last_string (l : list string) : string := default "" (last l).

Section claimstore.
Context `{Env} {S : Type} `{!crud.ManagedStore S}.

(** Modelled from the spec: the [storage.Document] methods of
    [Installation], [Claim] and [Result] are not part of the sources at hand.
    Section 4.1 gives kind, group and key of each; section 4.3 says that
    claims are always encrypted and installations and results are not. *)
Definition Installation_Document (i : Installation) : storage.Document :=
  {| storage.GetType := ItemTypeInstallations;
     storage.GetGroup := Installation_Namespace i;
     storage.GetName :=
       InstallationKey (Installation_Namespace i) (Installation_Name i);
     storage.GetData := (Marshal_Installation i, None);
     storage.ShouldEncrypt := false |}.

Definition Claim_Document (c : Claim) : storage.Document :=
  {| storage.GetType := ItemTypeClaims;
     storage.GetGroup := Claim_Installation c;
     storage.GetName := Claim_ID c;
     storage.GetData := (Marshal_Claim c, None);
     storage.ShouldEncrypt := true |}.

Definition Result_Document (r : Result) : storage.Document :=
  {| storage.GetType := ItemTypeResults;
     storage.GetGroup := Result_ClaimID r;
     storage.GetName := Result_ID r;
     storage.GetData := (Marshal_Result r, None);
     storage.ShouldEncrypt := false |}.

(** The prologue of the methods that hold a connection:
    [handleClose, err := s.backingStore.HandleConnect(); defer handleClose();
     if err != nil { return ..., err }]. *)
Definition with_connect {R} (failed : error → R) (body : M S R) : M S R :=
  λ st,
    let '((handleClose, err), st1) := crud.HandleConnect st in
    let '(r, st2) :=
      match err with
      | Some e => (failed e, st1)
      | None => body st1
      end in
    (r, handleClose st2).

Definition handleNotExistsError (crudError : option error) (typedError : error)
  : option error :=
  match crudError with
  | Some e =>
      if strings.Contains e ErrRecordDoesNotExist then Some typedError
      else Some e
  | None => None
  end.

Definition outputKey (resultID output : string) : string :=
  resultID +:+ "-" +:+ output.

Variable s : Store.

Definition ListInstallations (namespace : string)
  : M S (list string * option error) :=
  let namespace :=
    if decide (namespace = "") then NamespaceGlobal else namespace in
  let* (names, err) := crud.List ItemTypeInstallations namespace in
  ret (sort.Strings names, err).

Definition ListClaims (installation : string)
  : M S (list string * option error) :=
  let* (claims, err) := crud.List ItemTypeClaims installation in
  if decide (length claims = 0) then ret ([], Some ErrInstallationNotFound)
  else ret (sort.Strings claims,
            handleNotExistsError err ErrInstallationNotFound).

Definition ListResults (claimID : string) : M S (list string * option error) :=
  let* (results, err) := crud.List ItemTypeResults claimID in
  match err with
  | Some e =>
      if strings.Contains e ErrRecordDoesNotExist then ret ([], None)
      else ret ([], Some e)
  | None => ret (sort.Strings results, None)
  end.

Definition ListOutputs (resultID : string) : M S (list string * option error) :=
  let* (outputNames, err) := crud.List ItemTypeOutputs resultID in
  match err with
  | Some e =>
      if strings.Contains e ErrRecordDoesNotExist then ret ([], None)
      else ret ([], Some e)
  | None =>
      ret (sort.Strings
             ((λ fullName, strings.TrimPrefix fullName (resultID +:+ "-"))
                <$> outputNames), None)
  end.

Definition ReadInstallation (namespace name : string)
  : M S (Installation * option error) :=
  let* (data, err) :=
    crud.Read ItemTypeInstallations (InstallationKey namespace name) in
  match err with
  | Some _ =>
      ret (zero_Installation, handleNotExistsError err ErrInstallationNotFound)
  | None => ret (Unmarshal_Installation data)
  end.

(** The loop of [ReadAllInstallations]. *)
Fixpoint unmarshal_installations (items : list bytes)
  : list Installation * option error :=
  match items with
  | [] => ([], None)
  | data :: rest =>
      match Unmarshal_Installation data with
      | (_, Some e) =>
          ([], Some (errors.Wrap e "error unmarshaling installation"))
      | (installation, None) =>
          match unmarshal_installations rest with
          | (_, Some e) => ([], Some e)
          | (installations, None) => (installation :: installations, None)
          end
      end
  end.

Definition ReadAllInstallations : M S (list Installation * option error) :=
  let* (items, err) := crud.ReadAll ItemTypeInstallations "" in
  match err with
  | Some e => ret ([], Some e)
  | None =>
      match unmarshal_installations items with
      | (_, Some e) => ret ([], Some e)
      | (installations, None) =>
          ret (sort.By Installation_Name installations, None)
      end
  end.

Definition ReadClaim (claimID : string) : M S (Claim * option error) :=
  let* (data, err) := crud.Read ItemTypeClaims claimID in
  match err with
  | Some _ => ret (zero_Claim, handleNotExistsError err ErrClaimNotFound)
  | None =>
      match decrypt s data with
      | (_, Some e) =>
          ret (zero_Claim,
               Some (errors.Wrap e ("error decrypting claim " +:+ claimID)))
      | (data', None) => ret (Unmarshal_Claim data')
      end
  end.

(** The loop of [ReadAllClaims]. *)
Fixpoint decode_claims (items : list bytes) : list Claim * option error :=
  match items with
  | [] => ([], None)
  | data :: rest =>
      match decrypt s data with
      | (_, Some e) => ([], Some (errors.Wrap e "error decrypting claim"))
      | (data', None) =>
          match Unmarshal_Claim data' with
          | (_, Some e) => ([], Some (errors.Wrap e "error unmarshaling claim"))
          | (claim, None) =>
              match decode_claims rest with
              | (_, Some e) => ([], Some e)
              | (claims, None) => (claim :: claims, None)
              end
          end
      end
  end.

Definition ReadAllClaims (installation : string)
  : M S (list Claim * option error) :=
  let* (items, err) := crud.ReadAll ItemTypeClaims installation in
  match err with
  | Some _ => ret ([], handleNotExistsError err ErrInstallationNotFound)
  | None =>
      if decide (length items = 0) then ret ([], Some ErrInstallationNotFound)
      else
        match decode_claims items with
        | (_, Some e) => ret ([], Some e)
        | (claims, None) => ret (sort.By Claim_ID claims, None)
        end
  end.

Definition ReadLastClaim (installation : string) : M S (Claim * option error) :=
  with_connect (λ e, (zero_Claim, Some e))
    (let* (claimIds, err) := crud.List ItemTypeClaims installation in
     match err with
     | Some _ =>
         ret (zero_Claim, handleNotExistsError err ErrInstallationNotFound)
     | None =>
         if decide (length claimIds = 0)
         then ret (zero_Claim, Some ErrInstallationNotFound)
         else ReadClaim (last_string (sort.Strings claimIds))
     end).

Definition ReadResult (resultID : string) : M S (Result * option error) :=
  let* (data, err) := crud.Read ItemTypeResults resultID in
  match err with
  | Some _ => ret (zero_Result, handleNotExistsError err ErrResultNotFound)
  | None => ret (Unmarshal_Result data)
  end.

(** The loop of [ReadAllResults]. *)
Fixpoint unmarshal_results (items : list bytes) : list Result * option error :=
  match items with
  | [] => ([], None)
  | data :: rest =>
      match Unmarshal_Result data with
      | (_, Some e) => ([], Some ("error unmarshaling result: " +:+ e))
      | (result, None) =>
          match unmarshal_results rest with
          | (_, Some e) => ([], Some e)
          | (results, None) => (result :: results, None)
          end
      end
  end.

Definition ReadAllResults (claimID : string) : M S (list Result * option error) :=
  let* (items, err) := crud.ReadAll ItemTypeResults claimID in
  match err with
  | Some e =>
      if strings.Contains e ErrRecordDoesNotExist then ret ([], None)
      else ret ([], Some e)
  | None =>
      match unmarshal_results items with
      | (_, Some e) => ret ([], Some e)
      | (results, None) => ret (sort.By Result_ID results, None)
      end
  end.

Definition ReadLastResult (claimID : string) : M S (Result * option error) :=
  with_connect (λ e, (zero_Result, Some e))
    (let* (resultIDs, err) := crud.List ItemTypeResults claimID in
     match err with
     | Some _ => ret (zero_Result, handleNotExistsError err ErrClaimNotFound)
     | None =>
         if decide (length resultIDs = 0)
         then ret (zero_Result,
                   Some ("claim " +:+ claimID +:+ " has no results"))
         else ReadResult (last_string (sort.Strings resultIDs))
     end).

Definition ReadOutput (c : Claim) (r : Result) (outputName : string)
  : M S (Output * option error) :=
  let* (data, err) :=
    crud.Read ItemTypeOutputs (outputKey (Result_ID r) outputName) in
  match err with
  | Some _ => ret (zero_Output, handleNotExistsError err ErrOutputNotFound)
  | None =>
      let sensitive :=
        match bundle.IsOutputSensitive (Claim_Bundle c) outputName with
        | (_, Some _) => false
        | (sensitive, None) => sensitive
        end in
      if sensitive then
        match decrypt s data with
        | (_, Some e) =>
            ret (zero_Output,
                 Some (errors.Wrap e ("error decrypting output " +:+ outputName)))
        | (data', None) => ret (NewOutput c r outputName data', None)
        end
      else ret (NewOutput c r outputName data, None)
  end.

(** The first loop of [readLastOutputs]: the results of every claim, each
    with a pointer to its claim. *)
Definition result_of (c : Claim) (resultID : string) : Result :=
  {| Result_ID := resultID; Result_ClaimID := Claim_ID c;
     Result_Namespace := ""; Result_Created := 0%Z; Result_Message := "";
     Result_Status := ""; Result_OutputMetadata := ∅;
     Result_claim := Some c |}.

Fixpoint collect_results (claims : list Claim) (results : list Result)
  : M S (list Result * option error) :=
  match claims with
  | [] => ret (results, None)
  | c :: rest =>
      let* (resultIds, err) := ListResults (Claim_ID c) in
      match err with
      | Some e => ret ([], Some e)
      | None => collect_results rest (results ++ (result_of c <$> resultIds))
      end
  end.

(** The second loop: [lastOutputs[outputName] = result] for every output
    name of every result, in the order of the results. *)
Definition note_outputs (filterOutput : string) (result : Result)
    (outputNames : list string) (lastOutputs : gmap string Result)
  : gmap string Result :=
  foldl (λ m outputName,
           if decide (filterOutput = "" ∨ filterOutput = outputName)
           then <[outputName := result]> m else m)
        lastOutputs outputNames.

Fixpoint scan_outputs (filterOutput : string) (results : list Result)
    (lastOutputs : gmap string Result)
  : M S (gmap string Result * option error) :=
  match results with
  | [] => ret (lastOutputs, None)
  | result :: rest =>
      let* (outputNames, err) := ListOutputs (Result_ID result) in
      match err with
      | Some e => ret (∅, Some e)
      | None =>
          scan_outputs filterOutput rest
            (note_outputs filterOutput result outputNames lastOutputs)
      end
  end.

(** The third loop reads the value of every output found.  Go walks the map
    in an order of its own; the list of the map stands for it.  The claim of
    a result is never [nil] here, a [nil] one would stop the program. *)
Fixpoint read_outputs (entries : list (string * Result)) (outputs : list Output)
  : M S (list Output * option error) :=
  match entries with
  | [] => ret (outputs, None)
  | (outputName, result) :: rest =>
      match Result_claim result with
      | None => ret ([], Some "invalid memory address or nil pointer dereference")
      | Some c =>
          let* (output, err) := ReadOutput c result outputName in
          match err with
          | Some e => ret ([], Some e)
          | None => read_outputs rest (outputs ++ [output])
          end
      end
  end.

Definition readLastOutputs (installation filterOutput : string)
  : M S (Outputs * option error) :=
  let* (claims, err) := ReadAllClaims installation in
  match err with
  | Some e => ret (zero_Outputs, Some e)
  | None =>
      let* (results, err) := collect_results claims [] in
      match err with
      | Some e => ret (zero_Outputs, Some e)
      | None =>
          let* (lastOutputs, err) :=
            scan_outputs filterOutput (sort.By Result_ID results) ∅ in
          match err with
          | Some e => ret (zero_Outputs, Some e)
          | None =>
              let* (outputs, err) :=
                read_outputs (map_to_list lastOutputs) [] in
              match err with
              | Some e => ret (zero_Outputs, Some e)
              | None => ret (NewOutputs outputs, None)
              end
          end
      end
  end.

Definition ReadLastOutputs (installation : string)
  : M S (Outputs * option error) :=
  with_connect (λ e, (zero_Outputs, Some e)) (readLastOutputs installation "").

Definition ReadLastOutput (installation name : string)
  : M S (Output * option error) :=
  with_connect (λ e, (zero_Output, Some e))
    (let* (outputs, err) := readLastOutputs installation name in
     match err with
     | Some e => ret (zero_Output, Some e)
     | None =>
         match GetByName outputs name with
         | (o, true) => ret (o, None)
         | (_, false) => ret (zero_Output, Some ErrOutputNotFound)
         end
     end).

(** [LoadClaims] of [installation.go]: the claims sorted, and the results of
    every claim that has some sorted. *)
Definition with_results (c : Claim) (results : option (list Result)) : Claim :=
  {| Claim_ID := Claim_ID c; Claim_Installation := Claim_Installation c;
     Claim_Revision := Claim_Revision c; Claim_Action := Claim_Action c;
     Claim_Bundle := Claim_Bundle c;
     Claim_BundleReference := Claim_BundleReference c;
     Claim_BundleDigest := Claim_BundleDigest c;
     Claim_Parameters := Claim_Parameters c;
     Claim_Created := Claim_Created c; Claim_results := results |}.

Definition with_claims (i : Installation) (claims : list Claim) : Installation :=
  {| Installation_SchemaVersion := Installation_SchemaVersion i;
     Installation_Name := Installation_Name i;
     Installation_Namespace := Installation_Namespace i;
     Installation_BundleRepository := Installation_BundleRepository i;
     Installation_BundleVersion := Installation_BundleVersion i;
     Installation_BundleDigest := Installation_BundleDigest i;
     Installation_Created := Installation_Created i;
     Installation_Modified := Installation_Modified i;
     Installation_Custom := Installation_Custom i;
     Installation_Labels := Installation_Labels i;
     Installation_Status := Installation_Status i;
     Installation_claims := claims |}.

Definition LoadClaims (i : Installation) (claims : list Claim) : Installation :=
  with_claims i
    ((λ c, with_results c (sort.By Result_ID <$> Claim_results c))
       <$> sort.By Claim_ID claims).

Definition named_Installation (name : string) : Installation :=
  {| Installation_SchemaVersion := ""; Installation_Name := name;
     Installation_Namespace := ""; Installation_BundleRepository := "";
     Installation_BundleVersion := ""; Installation_BundleDigest := "";
     Installation_Created := 0%Z; Installation_Modified := 0%Z;
     Installation_Custom := None; Installation_Labels := ∅;
     Installation_Status := zero_Status; Installation_claims := [] |}.

Definition ReadInstallationStatus (installation : string)
  : M S (Installation * option error) :=
  with_connect (λ e, (zero_Installation, Some e))
    (let* (claimIds, err) := ListClaims installation in
     match err with
     | Some e => ret (zero_Installation, Some e)
     | None =>
         if decide (0 < length claimIds) then
           let lastClaimID := last_string (sort.Strings claimIds) in
           let* (c, err) := ReadClaim lastClaimID in
           match err with
           | Some e => ret (zero_Installation, Some e)
           | None =>
               let* (resultIDs, err) := ListResults lastClaimID in
               match err with
               | Some e => ret (zero_Installation, Some e)
               | None =>
                   if decide (0 < length resultIDs) then
                     let lastResultID :=
                       last_string (sort.Strings resultIDs) in
                     let* (r, err) := ReadResult lastResultID in
                     match err with
                     | Some e => ret (zero_Installation, Some e)
                     | None =>
                         ret (LoadClaims (named_Installation installation)
                                [with_results c (Some [r])], None)
                     end
                   else
                     ret (LoadClaims (named_Installation installation) [c],
                          None)
               end
           end
         else ret (zero_Installation, Some ErrInstallationNotFound)
     end).

(** The loop of [ReadAllInstallationStatus]. *)
Fixpoint read_statuses (names : list string) (installations : list Installation)
  : M S (list Installation * option error) :=
  match names with
  | [] => ret (installations, None)
  | name :: rest =>
      let* (installation, err) := ReadInstallationStatus name in
      match err with
      | Some e => ret ([], Some e)
      | None => read_statuses rest (installations ++ [installation])
      end
  end.

Definition ReadAllInstallationStatus : M S (list Installation * option error) :=
  with_connect (λ e, ([], Some e))
    (let* (names, err) := ListInstallations "" in
     match err with
     | Some e => ret ([], Some e)
     | None => read_statuses names []
     end).

(** *** The write path *)

Definition SaveInstallation (i : Installation) : M S (option error) :=
  crud.SaveDocument (Installation_Document i) (encrypt s).

Definition SaveClaim (c : Claim) : M S (option error) :=
  with_connect Some
    (let* err := crud.SaveDocument (Claim_Document c) (encrypt s) in
     match err with
     | Some e => ret (Some e)
     | None =>
         if fst (IsModifyingAction c) then
           let* (i, err) := ReadInstallation "" (Claim_Installation c) in
           match err with
           | Some e => ret (Some e)
           | None => SaveInstallation (ApplyClaim i c)
           end
         else ret None
     end).

Definition SaveResult (r : Result) : M S (option error) :=
  with_connect Some
    (let* err := crud.SaveDocument (Result_Document r) (encrypt s) in
     match err with
     | Some e => ret (Some e)
     | None =>
         match Result_claim r with
         | Some c =>
             if fst (IsModifyingAction c) then
               let* (i, err) := ReadInstallation "" (Claim_Installation c) in
               match err with
               | Some e => ret (Some e)
               | None => SaveInstallation (ApplyResult i r)
               end
             else ret None
         | None => ret None
         end
     end).

Definition SaveOutput (o : Output) : M S (option error) :=
  if decide (Claim_ID (Output_claim o) = "")
  then ret (Some "output.Claim is not set")
  else
    let sensitive :=
      match bundle.IsOutputSensitive (Claim_Bundle (Output_claim o))
                                     (Output_Name o) with
      | (_, Some _) => false
      | (sensitive, None) => sensitive
      end in
    if sensitive then
      match encrypt s (Output_Value o) with
      | (_, Some e) =>
          ret (Some (errors.Wrap e
                 ("error encrypting output " +:+ Output_Name o
                  +:+ " for result " +:+ Result_ID (Output_result o)
                  +:+ " of installation "
                  +:+ Claim_Installation (Output_claim o))))
      | (data, None) =>
          crud.Save ItemTypeOutputs (Output_GetGroup o)
            (outputKey (Result_ID (Output_result o)) (Output_Name o)) data
      end
    else
      crud.Save ItemTypeOutputs (Output_GetGroup o)
        (outputKey (Result_ID (Output_result o)) (Output_Name o))
        (Output_Value o).

(** *** The delete path *)

Definition DeleteOutput (resultID outputName : string) : M S (option error) :=
  let* err := crud.Delete ItemTypeOutputs (outputKey resultID outputName) in
  ret (handleNotExistsError err ErrOutputNotFound).

Definition DeleteResult (resultID : string) : M S (option error) :=
  with_connect Some
    (let* (outputNames, err) := ListOutputs resultID in
     match err with
     | Some e => ret (Some e)
     | None =>
         let* err := for_each (DeleteOutput resultID) outputNames in
         match err with
         | Some e => ret (Some e)
         | None =>
             let* err := crud.Delete ItemTypeResults resultID in
             ret (handleNotExistsError err ErrResultNotFound)
         end
     end).

Definition DeleteClaim (claimID : string) : M S (option error) :=
  with_connect Some
    (let* (resultIds, err) := ListResults claimID in
     match err with
     | Some e => ret (Some e)
     | None =>
         let* err := for_each DeleteResult resultIds in
         match err with
         | Some e => ret (Some e)
         | None =>
             let* err := crud.Delete ItemTypeClaims claimID in
             ret (handleNotExistsError err ErrClaimNotFound)
         end
     end).

Definition DeleteInstallation (installation : string) : M S (option error) :=
  with_connect Some
    (let* (claimIds, err) := ListClaims installation in
     match err with
     | Some e => ret (Some e)
     | None =>
         let* err := for_each DeleteClaim claimIds in
         match err with
         | Some e => ret (Some e)
         | None =>
             let* err := crud.Delete ItemTypeInstallations installation in
             ret (handleNotExistsError err ErrInstallationNotFound)
         end
     end).

End claimstore.

Definition with_claim (r : Result) (claim : option Claim) : Result :=
  {| Result_ID := Result_ID r; Result_ClaimID := Result_ClaimID r;
     Result_Namespace := Result_Namespace r;
     Result_Created := Result_Created r; Result_Message := Result_Message r;
     Result_Status := Result_Status r;
     Result_OutputMetadata := Result_OutputMetadata r;
     Result_claim := claim |}.

(** What is assumed of [encoding/json]: a document that has been written
    is read back with its exported fields as they were.  The fields that
    [json] does not see, [claims] of an installation (tagged [json:"-"]),
    [results] of a claim and [claim] of a result (unexported), are not
    written and keep their zero value when a document is read. *)
Class JSONLaws `{Env} : Prop := {
  Unmarshal_Marshal_Installation i :
    Unmarshal_Installation (Marshal_Installation i) = (with_claims i [], None);
  Unmarshal_Marshal_Claim c :
    Unmarshal_Claim (Marshal_Claim c) = (with_results c None, None);
  Unmarshal_Marshal_Result r :
    Unmarshal_Result (Marshal_Result r) = (with_claim r None, None);
}.

(** The handlers of a store are a pair [(E, D)] with [D ∘ E = id]. *)
Definition inverse_handlers (s : Store) : Prop :=
  ∀ data, ∃ sealed,
    encrypt s data = (sealed, None) ∧ decrypt s sealed = (data, None).

(** ** [installation.go]: a new installation, and the queries on loaded claims *)

(** [labels/labels.go] *)
Module labels.

Definition App : string := "cnab.io/app".
Definition AppVersion : string := "cnab.io/appVersion".

End labels.

(** Modelled from the spec: the constant [ActionInstall] is declared in a
    file that is not part of the sources at hand; it names the action
    [install] (section 1). *)
Definition ActionInstall : string := "install".

Section new_installation.
Context `{Env}.

(** [ValidName.MatchString] and [GetDefaultSchemaVersion()], declared in
    files that are not part of the sources at hand, and the instant that
    [time.Now()] returns. *)
Variable ValidName : string → bool.
Variable GetDefaultSchemaVersion : string * option error.
Variable now : Z.

Definition NewInstallation (namespace name : string) (b : bundle.Bundle)
    (bundleRef bundleDigest : string) : Installation * option error :=
  if negb (ValidName name) then
    (zero_Installation,
     Some ("invalid installation name '" +:+ name
           +:+ "'. Names must be [a-zA-Z0-9-_]+"))
  else
    match GetDefaultSchemaVersion with
    | (_, Some e) => (zero_Installation, Some e)
    | (schemaVersion, None) =>
        let parsed :=
          if decide (bundleRef = "") then ("", None)
          else
            match ParseNormalizedNamed bundleRef with
            | (_, Some e) =>
                ("", Some (errors.Wrap e
                             ("invalid bundle reference '" +:+ bundleRef
                              +:+ "'")))
            | (ref, None) => (ref, None)
            end in
        match parsed with
        | (_, Some e) => (zero_Installation, Some e)
        | (repo, None) =>
            (* the copy of the labels of the bundle, which the literal
               below does not take *)
            let labels : gmap string string :=
              map_fold (λ k v labels, <[k:=v]> labels) ∅ (bundle.Labels b) in
            ({| Installation_SchemaVersion := schemaVersion;
                Installation_Name := name;
                Installation_Namespace := namespace;
                Installation_BundleRepository := repo;
                Installation_BundleVersion := bundle.Version b;
                Installation_BundleDigest := bundleDigest;
                Installation_Created := now;
                Installation_Modified := now;
                Installation_Custom := None;
                Installation_Labels := ∅;
                Installation_Status := zero_Status;
                Installation_claims := [] |}, None)
        end
    end.

End new_installation.

(** [i.Labels[labels.App]]: a key that the map does not have reads as the
    empty string. *)
Definition GetApp (i : Installation) : string :=
  default "" (Installation_Labels i !! labels.App).

Definition GetAppVersion (i : Installation) : string :=
  default "" (Installation_Labels i !! labels.AppVersion).

(** The loop of [GetInstallationTimestamp]: the first claim for install. *)
Fixpoint first_install (claims : list Claim) : option Z :=
  match claims with
  | [] => None
  | c :: rest =>
      if decide (Claim_Action c = ActionInstall) then Some (Claim_Created c)
      else first_install rest
  end.

Definition GetInstallationTimestamp (i : Installation) : Z * option error :=
  if decide (length (Installation_claims i) = 0) then
    (0%Z, Some ("the installation " +:+ Installation_Name i
                +:+ " has no claims"))
  else
    match first_install (Installation_claims i) with
    | Some created => (created, None)
    | None =>
        (0%Z, Some ("the installation " +:+ Installation_Name i
                    +:+ " has never been installed"))
    end.

Definition GetLastClaim (i : Installation) : Claim * option error :=
  if decide (length (Installation_claims i) = 0) then
    (zero_Claim, Some ("the installation " +:+ Installation_Name i
                       +:+ " has no claims"))
  else (default zero_Claim (last (Installation_claims i)), None).

Definition GetLastResult (i : Installation) : Result * option error :=
  match GetLastClaim i with
  | (_, Some e) => (zero_Result, Some e)
  | (lastClaim, None) =>
      match Claim_results lastClaim with
      | None =>
          (zero_Result,
           Some "the last claim does not have any results loaded")
      | Some results =>
          if decide (length results = 0)
          then (zero_Result, Some "the last claim has no results")
          else (default zero_Result (last results), None)
      end
  end.

Definition GetLastStatus (i : Installation) : string :=
  match GetLastResult i with
  | (_, Some _) => StatusUnknown
  | (lastResult, None) => Result_Status lastResult
  end.

(** ** A backing store *)

(** Modelled from the spec: [crud.BackingStore] and the stores it wraps are
    not part of the sources at hand.  Section 4.1 gives the contract: records
    are found by kind and key and listed by kind and group, [Save] is an
    upsert, [Delete] removes one record, a sentinel error signals that there
    is no such record, and [HandleConnect] opens a connection unless a caller
    already holds one and returns the release that closes it.  Every call to
    the store is made in such a scope of its own.  The store counts the
    connections it opens and closes.  Whether listing a group that has no
    record is an empty answer or the sentinel depends on the store; the flag
    [missing_group_fails] selects the behaviour. *)
Module backing.

Record BackingStore := {
  items : gmap (string * string) (string * bytes);
  opened : bool;
  connects : nat;
  closes : nat;
  missing_group_fails : bool;
}.

Definition with_items (st : BackingStore)
    (m : gmap (string * string) (string * bytes)) : BackingStore :=
  {| items := m; opened := opened st; connects := connects st;
     closes := closes st; missing_group_fails := missing_group_fails st |}.

Definition Connect (st : BackingStore) : BackingStore :=
  {| items := items st; opened := true; connects := Datatypes.S (connects st);
     closes := closes st; missing_group_fails := missing_group_fails st |}.

Definition Close (st : BackingStore) : BackingStore :=
  {| items := items st; opened := false; connects := connects st;
     closes := Datatypes.S (closes st);
     missing_group_fails := missing_group_fails st |}.

Definition HandleConnect
  : M BackingStore ((BackingStore → BackingStore) * option error) :=
  λ st, if opened st then ((id, None), st) else ((Close, None), Connect st).

(** A call in a connection scope of its own. *)
Definition scoped {R} (call : M BackingStore R) : M BackingStore R :=
  λ st,
    let '((handleClose, _), st1) := HandleConnect st in
    let '(r, st2) := call st1 in
    (r, handleClose st2).

(** The records of a group: keys and data. *)
Definition group_records (kind group : string) (st : BackingStore)
  : list (string * bytes) :=
  omap (λ '((k, key), (g, data)),
          if decide (k = kind ∧ g = group) then Some (key, data) else None)
       (map_to_list (items st)).

Section ops.
Context `{Env}.

Definition List (kind group : string)
  : M BackingStore (list string * option error) :=
  scoped (λ st,
    let keys := fst <$> group_records kind group st in
    if decide (keys = [] ∧ missing_group_fails st = true)
    then (([], Some ErrRecordDoesNotExist), st)
    else ((keys, None), st)).

Definition Read (kind key : string) : M BackingStore (bytes * option error) :=
  scoped (λ st,
    match items st !! (kind, key) with
    | Some (_, data) => ((data, None), st)
    | None => (([], Some ErrRecordDoesNotExist), st)
    end).

Definition ReadAll (kind group : string)
  : M BackingStore (list bytes * option error) :=
  scoped (λ st,
    let datas := snd <$> group_records kind group st in
    if decide (datas = [] ∧ missing_group_fails st = true)
    then (([], Some ErrRecordDoesNotExist), st)
    else ((datas, None), st)).

Definition Save (kind group key : string) (data : bytes)
  : M BackingStore (option error) :=
  scoped (λ st,
    (None, with_items st (<[(kind, key) := (group, data)]> (items st)))).

Definition Delete (kind key : string) : M BackingStore (option error) :=
  scoped (λ st,
    match items st !! (kind, key) with
    | Some _ => (None, with_items st (delete (kind, key) (items st)))
    | None => (Some ErrRecordDoesNotExist, st)
    end).

#[global] Instance managed : crud.ManagedStore BackingStore :=
  {| crud.HandleConnect := HandleConnect;
     crud.List := List;
     crud.Read := Read;
     crud.ReadAll := ReadAll;
     crud.Save := Save;
     crud.Delete := Delete |}.

End ops.

(** A store with no record and no connection. *)
Definition empty (fails : bool) : BackingStore :=
  {| items := ∅; opened := false; connects := 0; closes := 0;
     missing_group_fails := fails |}.

End backing.

(** ** The public operations of the claim store

    Every exported method of [Store] that talks to the backing store, with
    its arguments, and the state that it leaves. *)
Inductive PublicOp :=
  | OpListInstallations (namespace : string)
  | OpListClaims (installation : string)
  | OpListResults (claimID : string)
  | OpListOutputs (resultID : string)
  | OpReadInstallation (namespace name : string)
  | OpReadAllInstallations
  | OpReadInstallationStatus (installation : string)
  | OpReadAllInstallationStatus
  | OpReadClaim (claimID : string)
  | OpReadAllClaims (installation : string)
  | OpReadLastClaim (installation : string)
  | OpReadResult (resultID : string)
  | OpReadAllResults (claimID : string)
  | OpReadLastOutputs (installation : string)
  | OpReadLastOutput (installation name : string)
  | OpReadLastResult (claimID : string)
  | OpReadOutput (c : Claim) (r : Result) (outputName : string)
  | OpSaveInstallation (i : Installation)
  | OpSaveClaim (c : Claim)
  | OpSaveResult (r : Result)
  | OpSaveOutput (o : Output)
  | OpDeleteInstallation (installation : string)
  | OpDeleteClaim (claimID : string)
  | OpDeleteResult (resultID : string)
  | OpDeleteOutput (resultID outputName : string).

Definition after `{Env} (s : Store) (op : PublicOp)
    (st : backing.BackingStore) : backing.BackingStore :=
  match op with
  | OpListInstallations namespace => snd (ListInstallations namespace st)
  | OpListClaims installation => snd (ListClaims installation st)
  | OpListResults claimID => snd (ListResults claimID st)
  | OpListOutputs resultID => snd (ListOutputs resultID st)
  | OpReadInstallation namespace name => snd (ReadInstallation namespace name st)
  | OpReadAllInstallations => snd (ReadAllInstallations st)
  | OpReadInstallationStatus installation =>
      snd (ReadInstallationStatus s installation st)
  | OpReadAllInstallationStatus => snd (ReadAllInstallationStatus s st)
  | OpReadClaim claimID => snd (ReadClaim s claimID st)
  | OpReadAllClaims installation => snd (ReadAllClaims s installation st)
  | OpReadLastClaim installation => snd (ReadLastClaim s installation st)
  | OpReadResult resultID => snd (ReadResult resultID st)
  | OpReadAllResults claimID => snd (ReadAllResults claimID st)
  | OpReadLastOutputs installation => snd (ReadLastOutputs s installation st)
  | OpReadLastOutput installation name =>
      snd (ReadLastOutput s installation name st)
  | OpReadLastResult claimID => snd (ReadLastResult claimID st)
  | OpReadOutput c r outputName => snd (ReadOutput s c r outputName st)
  | OpSaveInstallation i => snd (SaveInstallation s i st)
  | OpSaveClaim c => snd (SaveClaim s c st)
  | OpSaveResult r => snd (SaveResult s r st)
  | OpSaveOutput o => snd (SaveOutput s o st)
  | OpDeleteInstallation installation => snd (DeleteInstallation installation st)
  | OpDeleteClaim claimID => snd (DeleteClaim claimID st)
  | OpDeleteResult resultID => snd (DeleteResult resultID st)
  | OpDeleteOutput resultID outputName =>
      snd (DeleteOutput resultID outputName st)
  end.


(** ** Test data

    The handlers and documents of the store's tests, and an instance of what
    the store takes from outside: documents are written as the binary digits
    of an injective numbering of their exported fields. *)
Module testdata.

Fixpoint pos_to_bytes (p : positive) : bytes :=
  match p with
  | xH => []
  | xO p => x30 :: pos_to_bytes p
  | xI p => x31 :: pos_to_bytes p
  end.

Fixpoint bytes_to_pos (b : bytes) : positive :=
  match b with
  | [] => xH
  | x30 :: b => xO (bytes_to_pos b)
  | _ :: b => xI (bytes_to_pos b)
  end.

(** A document is the list of its exported fields, every field a number. *)
Definition write (fields : list positive) : bytes :=
  pos_to_bytes (positives_flatten fields).

Definition read {B} (zero : B) (of_fields : list positive → option B)
    (data : bytes) : B * option error :=
  match positives_unflatten (bytes_to_pos data) ≫= of_fields with
  | Some x => (x, None)
  | None => (zero, Some "invalid character looking for beginning of value")
  end.

Definition Installation_fields (i : Installation) : list positive :=
  [ encode (Installation_SchemaVersion i); encode (Installation_Name i);
    encode (Installation_Namespace i);
    encode (Installation_BundleRepository i);
    encode (Installation_BundleVersion i);
    encode (Installation_BundleDigest i);
    encode (Installation_Created i); encode (Installation_Modified i);
    encode (Installation_Custom i); encode (Installation_Labels i);
    encode (Status_ClaimID (Installation_Status i));
    encode (Status_Action (Installation_Status i));
    encode (Status_Revision (Installation_Status i));
    encode (Status_ResultID (Installation_Status i));
    encode (Status_ResultStatus (Installation_Status i)) ].

Definition Installation_of_fields (fields : list positive)
  : option Installation :=
  match fields with
  | [f1; f2; f3; f4; f5; f6; f7; f8; f9; f10; f11; f12; f13; f14; f15] =>
      schemaVersion ← decode f1; name ← decode f2; namespace ← decode f3;
      repository ← decode f4; version ← decode f5; digest ← decode f6;
      created ← decode f7; modified ← decode f8; custom ← decode f9;
      labels ← decode f10; claimID ← decode f11; action ← decode f12;
      revision ← decode f13; resultID ← decode f14;
      resultStatus ← decode f15;
      Some
        {| Installation_SchemaVersion := schemaVersion;
           Installation_Name := name; Installation_Namespace := namespace;
           Installation_BundleRepository := repository;
           Installation_BundleVersion := version;
           Installation_BundleDigest := digest;
           Installation_Created := created;
           Installation_Modified := modified;
           Installation_Custom := custom; Installation_Labels := labels;
           Installation_Status :=
             {| Status_ClaimID := claimID; Status_Action := action;
                Status_Revision := revision; Status_ResultID := resultID;
                Status_ResultStatus := resultStatus |};
           Installation_claims := [] |}
  | _ => None
  end.

Definition Output_number (o : bundle.Output) : positive :=
  positives_flatten
    [ encode (bundle.Output_Definition o); encode (bundle.Output_ApplyTo o);
      encode (bundle.Output_Path o) ].

Definition zero_BundleOutput : bundle.Output :=
  {| bundle.Output_Definition := ""; bundle.Output_ApplyTo := [];
     bundle.Output_Path := "" |}.

Definition Output_of_number (p : positive) : bundle.Output :=
  default zero_BundleOutput
    (fields ← positives_unflatten p;
     match fields with
     | [f1; f2; f3] =>
         def ← decode f1; applyTo ← decode f2; path ← decode f3;
         Some {| bundle.Output_Definition := def;
                 bundle.Output_ApplyTo := applyTo;
                 bundle.Output_Path := path |}
     | _ => None
     end).

Definition Schema_fields (d : definition.Schema) : string * option bool :=
  (definition.Type_ d, definition.WriteOnly d).

Definition Schema_of_fields (f : string * option bool) : definition.Schema :=
  {| definition.Type_ := fst f; definition.WriteOnly := snd f |}.

Definition Bundle_number (b : bundle.Bundle) : positive :=
  positives_flatten
    [ encode (bundle.Name b); encode (bundle.Version b);
      encode (bundle.Labels b);
      encode (Output_number <$> bundle.Outputs b);
      encode (Schema_fields <$> bundle.Definitions b) ].

Definition Bundle_of_number (p : positive) : bundle.Bundle :=
  default zero_Bundle
    (fields ← positives_unflatten p;
     match fields with
     | [f1; f2; f3; f4; f5] =>
         name ← decode f1; version ← decode f2; labels ← decode f3;
         outputs ← decode f4; definitions ← decode f5;
         Some {| bundle.Name := name; bundle.Version := version;
                 bundle.Labels := labels;
                 bundle.Outputs :=
                   Output_of_number <$> (outputs : gmap string positive);
                 bundle.Definitions :=
                   Schema_of_fields
                     <$> (definitions : gmap string (string * option bool)) |}
     | _ => None
     end).

Definition Claim_fields (c : Claim) : list positive :=
  [ encode (Claim_ID c); encode (Claim_Installation c);
    encode (Claim_Revision c); encode (Claim_Action c);
    Bundle_number (Claim_Bundle c); encode (Claim_BundleReference c);
    encode (Claim_BundleDigest c); encode (Claim_Parameters c);
    encode (Claim_Created c) ].

Definition Claim_of_fields (fields : list positive) : option Claim :=
  match fields with
  | [f1; f2; f3; f4; f5; f6; f7; f8; f9] =>
      id ← decode f1; installation ← decode f2; revision ← decode f3;
      action ← decode f4; reference ← decode f6; digest ← decode f7;
      parameters ← decode f8; created ← decode f9;
      Some
        {| Claim_ID := id; Claim_Installation := installation;
           Claim_Revision := revision; Claim_Action := action;
           Claim_Bundle := Bundle_of_number f5;
           Claim_BundleReference := reference;
           Claim_BundleDigest := digest; Claim_Parameters := parameters;
           Claim_Created := created; Claim_results := None |}
  | _ => None
  end.

Definition Result_fields (r : Result) : list positive :=
  [ encode (Result_ID r); encode (Result_ClaimID r);
    encode (Result_Namespace r); encode (Result_Created r);
    encode (Result_Message r); encode (Result_Status r);
    encode (Result_OutputMetadata r) ].

Definition Result_of_fields (fields : list positive) : option Result :=
  match fields with
  | [f1; f2; f3; f4; f5; f6; f7] =>
      id ← decode f1; claimID ← decode f2; namespace ← decode f3;
      created ← decode f4; message ← decode f5; status ← decode f6;
      metadata ← decode f7;
      Some
        {| Result_ID := id; Result_ClaimID := claimID;
           Result_Namespace := namespace; Result_Created := created;
           Result_Message := message; Result_Status := status;
           Result_OutputMetadata := metadata; Result_claim := None |}
  | _ => None
  end.

(** The part of a reference before its tag; no reference has a space. *)
Fixpoint repository (ref : string) : string :=
  match ref with
  | EmptyString => ""
  | String ":" _ => ""
  | String a ref' => String a (repository ref')
  end.

Definition parse (ref : string) : string * option error :=
  if decide (ref = "") then ("", Some "repository name must have at least one component")
  else if strings.Contains ref " " then ("", Some "invalid reference format")
  else (repository ref, None).

Definition ActionInstall : string := "install".
Definition ActionUpgrade : string := "upgrade".
Definition ActionUninstall : string := "uninstall".

Definition modifies (c : Claim) : bool * option error :=
  if decide (Claim_Action c = ActionInstall ∨ Claim_Action c = ActionUpgrade
             ∨ Claim_Action c = ActionUninstall)
  then (true, None)
  else (false, Some ("custom action not defined " +:+ Claim_Action c)).

#[export] Instance env : Env :=
  {| NamespaceGlobal := "";
     ErrRecordDoesNotExist := "File does not exist";
     ParseNormalizedNamed := parse;
     IsModifyingAction := modifies;
     Marshal_Installation := λ i, write (Installation_fields i);
     Unmarshal_Installation := read zero_Installation Installation_of_fields;
     Marshal_Claim := λ c, write (Claim_fields c);
     Unmarshal_Claim := read zero_Claim Claim_of_fields;
     Marshal_Result := λ r, write (Result_fields r);
     Unmarshal_Result := read zero_Result Result_of_fields |}.

(** A pair of handlers in the place of the tests' base64 pair: encryption
    puts a mark in front of the data, decryption takes it off and fails on
    data that does not carry it. *)
Definition seal : storage.EncryptionHandler := λ data, (x23 :: data, None).

Definition unseal : storage.EncryptionHandler := λ data,
  match data with
  | x23 :: data' => (data', None)
  | _ => ([], Some "illegal data at input byte 0")
  end.

Definition sealed : Store := NewClaimStore (Some seal) (Some unseal).
Definition plain : Store := NewClaimStore None None.

(** The bundle of [TestStore_EncryptOutputs]. *)
Definition exampleBundle : bundle.Bundle :=
  {| bundle.Name := "mybun"; bundle.Version := "0.1.0"; bundle.Labels := ∅;
     bundle.Outputs :=
       <["password" :=
           {| bundle.Output_Definition := "password";
              bundle.Output_ApplyTo := []; bundle.Output_Path := "" |}]>
       (<["port" :=
           {| bundle.Output_Definition := "port";
              bundle.Output_ApplyTo := []; bundle.Output_Path := "" |}]> ∅);
     bundle.Definitions :=
       <["password" :=
           {| definition.Type_ := "string";
              definition.WriteOnly := Some true |}]>
       (<["port" :=
           {| definition.Type_ := "integer";
              definition.WriteOnly := Some false |}]> ∅) |}.

Definition exampleInstallation : Installation :=
  {| Installation_SchemaVersion := "1.0.0"; Installation_Name := "wordpress";
     Installation_Namespace := "";
     Installation_BundleRepository := "example.com/wordpress";
     Installation_BundleVersion := "0.1.0";
     Installation_BundleDigest := "sha256:abc123";
     Installation_Created := 1000%Z; Installation_Modified := 1000%Z;
     Installation_Custom := None; Installation_Labels := ∅;
     Installation_Status := zero_Status; Installation_claims := [] |}.

Definition newClaim (id action : string) : Claim :=
  {| Claim_ID := id; Claim_Installation := "wordpress";
     Claim_Revision := "rev-" +:+ id; Claim_Action := action;
     Claim_Bundle := exampleBundle;
     Claim_BundleReference := "example.com/wordpress:v0.1.0";
     Claim_BundleDigest := "sha256:abc123"; Claim_Parameters := ∅;
     Claim_Created := 1001%Z; Claim_results := None |}.

Definition newResult (c : Claim) (id status : string) : Result :=
  {| Result_ID := id; Result_ClaimID := Claim_ID c; Result_Namespace := "";
     Result_Created := 1002%Z; Result_Message := ""; Result_Status := status;
     Result_OutputMetadata := ∅; Result_claim := Some c |}.

Definition StatusSucceeded : string := "succeeded".

Definition claim1 : Claim := newClaim "01C1" ActionInstall.
Definition claim2 : Claim := newClaim "01C2" ActionUpgrade.
Definition result1 : Result := newResult claim1 "01R1" StatusSucceeded.
Definition result2 : Result := newResult claim2 "01R2" StatusSucceeded.

Definition text (s : string) : bytes := list_byte_of_string s.

(** Run a list of writes, stopping at the first error. *)
Definition run (steps : list (M backing.BackingStore (option error)))
  : M backing.BackingStore (option error) :=
  for_each (λ step, step) steps.

(** The store after an installation, two claims, their results and outputs
    have been saved, as in the tests of the store. *)
Definition populate (s : Store) : M backing.BackingStore (option error) :=
  run [ SaveInstallation s exampleInstallation;
        SaveClaim s claim1;
        SaveResult s result1;
        SaveOutput s (NewOutput claim1 result1 "port" (text "8080"));
        SaveOutput s (NewOutput claim1 result1 "password" (text "first"));
        SaveClaim s claim2;
        SaveResult s result2;
        SaveOutput s (NewOutput claim2 result2 "password" (text "mypassword")) ].

Definition populated (s : Store) (fails : bool) : backing.BackingStore :=
  snd (populate s (backing.empty fails)).

(** The store after the installation alone has been saved. *)
Definition installed : backing.BackingStore :=
  snd (SaveInstallation sealed exampleInstallation (backing.empty false)).

(** A sensitive output, an installation with its claims loaded, and an
    output whose claim has no id. *)
Definition password1 : Output :=
  NewOutput claim1 result1 "password" (text "first").



End testdata.

(** ** The vocabulary of the properties *)

Import backing.

(** *** States of the backing store *)

(** Two states of the store hold the same data. *)
Definition same_data (st st' : BackingStore) : Prop :=
  items st = items st' ∧ missing_group_fails st = missing_group_fails st'.

(** Records are only taken away. *)
Definition shrinks (st st' : BackingStore) : Prop :=
  items st' ⊆ items st ∧ missing_group_fails st = missing_group_fails st'.

(** Under a connection held by the caller nothing is opened or closed. *)
Definition nested (st st' : BackingStore) : Prop :=
  opened st = true →
  opened st' = true ∧ connects st' = connects st ∧ closes st' = closes st.

(** A relation between the state before and after that connection scopes
    preserve. *)
Class Scoping (R : relation BackingStore) : Prop := {
  scoping_preorder :: PreOrder R;
  scoping_connect st st' :
    opened st = false → R (Connect st) st' → R st (Close st');
}.

(** [keeps R m]: running [m] relates the state before to the state after. *)
Definition keeps {A} (R : relation BackingStore) (m : M BackingStore A) : Prop :=
  ∀ st, R st (snd (m st)).

(** [stable m]: the answer of [m] and the data it leaves depend on the data
    only, not on connections. *)
Definition stable {A} (m : M BackingStore A) : Prop :=
  ∀ st1 st2, same_data st1 st2 →
    fst (m st1) = fst (m st2) ∧ same_data (snd (m st1)) (snd (m st2)).


(** [removes P st st']: from [st] to [st'] records are only taken away, and
    every record taken away satisfies [P]. *)
Definition removes (P : string * string → string * bytes → Prop)
    (st st' : BackingStore) : Prop :=
  shrinks st st'
  ∧ ∀ k v, items st !! k = Some v → items st' !! k = None → P k v.

(** No record of the kind is left in the group. *)
Definition gone (kind group : string) (st : BackingStore) : Prop :=
  ∀ key data, items st !! (kind, key) ≠ Some (group, data).

(** A results record that a delete takes belongs to the claim. *)
Definition of_claim (claimID : string) (k : string * string)
    (v : string * bytes) : Prop :=
  k.1 = ItemTypeResults → v.1 = claimID.

(** *** Records of the claim store *)

Section records.
Context `{Env}.


(** The results of a claim are records that [SaveResult] has written. *)
Definition saved_results (claimID : string) (st : BackingStore) : Prop :=
  ∀ id data,
    items st !! (ItemTypeResults, id) = Some (claimID, data) →
    ∃ r, Result_ID r = id ∧ data = Marshal_Result r.

(** Every output record is keyed by its result, as [SaveOutput] writes it. *)
Definition outputs_keyed (st : BackingStore) : Prop :=
  ∀ key group data,
    items st !! (ItemTypeOutputs, key) = Some (group, data) →
    ∃ outputName, key = outputKey group outputName.

(** A result of a claim of the installation has an output of that name. *)
Definition wrote (installation : string) (st : BackingStore)
    (outputName resultID : string) : Prop :=
  ∃ claimID data data' raw,
    items st !! (ItemTypeClaims, claimID) = Some (installation, data)
    ∧ items st !! (ItemTypeResults, resultID) = Some (claimID, data')
    ∧ items st !! (ItemTypeOutputs, outputKey resultID outputName)
      = Some (resultID, raw).

(** The output names that [ListOutputs] finds for a result. *)
Definition output_names (resultID : string) (st : BackingStore) : list string :=
  sort.Strings
    ((λ fullName, strings.TrimPrefix fullName (resultID +:+ "-"))
       <$> (group_records ItemTypeOutputs resultID st).*1).

Variable s : Store.

(** The claims of an installation are records that [SaveClaim] has written:
    the encrypted document of a claim, under the id of the claim. *)
Definition saved_claims (installation : string) (st : BackingStore) : Prop :=
  ∀ id data,
    items st !! (ItemTypeClaims, id) = Some (installation, data) →
    ∃ c, Claim_ID c = id ∧ encrypt s (Marshal_Claim c) = (data, None).

(** The record of a claim decrypts and parses to the claim. *)
Definition decodes (data : bytes) (c : Claim) : Prop :=
  ∃ data', decrypt s data = (data', None) ∧ Unmarshal_Claim data' = (c, None).

(** The document of every claim of the installation carries the id under
    which it is stored, as [SaveClaim] writes it. *)
Definition claims_keyed (installation : string) (st : BackingStore) : Prop :=
  ∀ claimID data c,
    items st !! (ItemTypeClaims, claimID) = Some (installation, data) →
    decodes data c → Claim_ID c = claimID.

End records.

(** *** The container of outputs, sorted *)

(** Insertion of an output into the part of the slice that is sorted
    already, seen from its end. *)
Fixpoint sink_in (x : Output) (before : list Output) : list Output :=
  match before with
  | [] => [x]
  | y :: before' =>
      if String.ltb (Output_Name x) (Output_Name y)
      then y :: sink_in x before'
      else x :: y :: before'
  end.

(** The keys of a container give the place of every output, and no two
    outputs have the same name. *)
Definition indexed (o : Outputs) : Prop :=
  NoDup (Output_Name <$> Outputs_vals o)
  ∧ ∀ i out, Outputs_vals o !! i = Some out →
             Outputs_keys o !! Output_Name out = Some i.

(** The sorted slice: insertion sort by name. *)
Definition sorted_by_name (outputs : list Output) : list Output :=
  reverse (foldl (λ acc x, sink_in x acc) [] outputs).

(** Names go down along the part that is sorted, seen from its end. *)
Definition name_ge (a b : Output) : Prop :=
  String.le (Output_Name b) (Output_Name a).

(** *** Deciding the shape of a store *)

#[global] Instance byte_eq_decision : EqDecision byte := byte_eq_dec.

(** [check_records P st]: every record of the store passes the test. *)
Definition check_records (P : string → string → string → bytes → bool)
    (st : BackingStore) : bool :=
  forallb (λ '((kind, key), (group, data)), P kind key group data)
          (map_to_list (items st)).

Definition outputs_keyed_b (st : BackingStore) : bool :=
  check_records
    (λ kind key group _,
       if decide (kind = ItemTypeOutputs)
       then strings.HasPrefix key (group +:+ "-") else true) st.

Definition claims_keyed_b `{Env} (s : Store) (installation : string)
    (st : BackingStore) : bool :=
  check_records
    (λ kind key group data,
       if decide (kind = ItemTypeClaims ∧ group = installation) then
         match decrypt s data with
         | (_, Some _) => true
         | (data', None) =>
             match Unmarshal_Claim data' with
             | (_, Some _) => true
             | (c, None) => bool_decide (Claim_ID c = key)
             end
         end
       else true) st.

Definition saved_claims_b `{Env} (s : Store) (installation : string)
    (st : BackingStore) : bool :=
  check_records
    (λ kind key group data,
       if decide (kind = ItemTypeClaims ∧ group = installation) then
         match decrypt s data with
         | (_, Some _) => false
         | (data', None) =>
             match Unmarshal_Claim data' with
             | (_, Some _) => false
             | (c, None) =>
                 bool_decide (Claim_ID c = key
                              ∧ encrypt s (Marshal_Claim c) = (data, None))
             end
         end
       else true) st.

Definition saved_results_b `{Env} (claimID : string) (st : BackingStore) : bool :=
  check_records
    (λ kind key group data,
       if decide (kind = ItemTypeResults ∧ group = claimID) then
         match Unmarshal_Result data with
         | (_, Some _) => false
         | (r, None) =>
             bool_decide (Result_ID r = key ∧ data = Marshal_Result r)
         end
       else true) st.

(** *** The vocabulary of the further properties *)

(** Every key of a container is the name of one of its outputs. *)
Definition known (o : Outputs) : Prop :=
  ∀ name i, Outputs_keys o !! name = Some i →
            name ∈ Output_Name <$> Outputs_vals o.

(** The public operations that only read, and the ones that delete. *)
Definition reads (op : PublicOp) : bool :=
  match op with
  | OpSaveInstallation _ | OpSaveClaim _ | OpSaveResult _ | OpSaveOutput _
  | OpDeleteInstallation _ | OpDeleteClaim _ | OpDeleteResult _
  | OpDeleteOutput _ _ => false
  | _ => true
  end.

Definition deletes (op : PublicOp) : bool :=
  match op with
  | OpDeleteInstallation _ | OpDeleteClaim _ | OpDeleteResult _
  | OpDeleteOutput _ _ => true
  | _ => false
  end.

(** No record is taken away. *)
Definition grows (st st' : BackingStore) : Prop :=
  dom (items st) ⊆ dom (items st')
  ∧ missing_group_fails st = missing_group_fails st'.

(** [takes P st st']: the records of [st'] are the records of [st] that do
    not satisfy [P]. *)
Definition takes (P : string * string → string * bytes → Prop)
    (st st' : BackingStore) : Prop :=
  missing_group_fails st = missing_group_fails st'
  ∧ ∀ k v, items st' !! k = Some v ↔ items st !! k = Some v ∧ ¬ P k v.

(** The record of a result and the outputs stored in its group. *)
Definition below_result (resultID : string) (k : string * string)
    (v : string * bytes) : Prop :=
  k = (ItemTypeResults, resultID) ∨ (k.1 = ItemTypeOutputs ∧ v.1 = resultID).

(** The record of a claim, the results stored in its group, and the outputs
    stored in the group of such a result of [st]. *)
Definition below_claim (st : BackingStore) (claimID : string)
    (k : string * string) (v : string * bytes) : Prop :=
  k = (ItemTypeClaims, claimID)
  ∨ (k.1 = ItemTypeResults ∧ v.1 = claimID)
  ∨ (k.1 = ItemTypeOutputs
     ∧ ∃ data, items st !! (ItemTypeResults, v.1) = Some (claimID, data)).

(** The record stored under the name of an installation, the claims stored
    in its group, and what is below such a claim of [st]. *)
Definition below_installation (st : BackingStore) (installation : string)
    (k : string * string) (v : string * bytes) : Prop :=
  k = (ItemTypeInstallations, installation)
  ∨ ∃ claimID data,
      items st !! (ItemTypeClaims, claimID) = Some (installation, data)
      ∧ below_claim st claimID k v.

(** The records of one kind are as they were. *)
Definition untouched (kind : string) (st st' : BackingStore) : Prop :=
  (∀ key, items st' !! (kind, key) = items st !! (kind, key))
  ∧ missing_group_fails st = missing_group_fails st'.


(** The map that the second loop of [readLastOutputs] builds from the
    claims read: for every output name that passes the filter, the last
    result, in the order of the result ids, that lists an output of that
    name. *)
Definition last_results (filterOutput : string) (claims : list Claim)
    (st : BackingStore) : gmap string Result :=
  foldl (λ m r,
           note_outputs filterOutput r (output_names (Result_ID r) st) m)
        ∅
        (sort.By Result_ID
           (concat ((λ c, result_of c
                            <$> sort.Strings
                                  (group_records ItemTypeResults
                                     (Claim_ID c) st).*1)
                      <$> claims))).

(** * Properties *)

(** ** Strings and sorting *)

Lemma strip_app (prefix s : string) : strings.strip prefix (prefix +:+ s) = Some s.
Proof.
  induction prefix as [|a prefix IH]; simpl; [done|].
  by rewrite Ascii.eqb_refl.
Qed.

Lemma append_assoc (a b c : string) : a +:+ b +:+ c = (a +:+ b) +:+ c.
Proof.
  induction a as [|x a IH]; [reflexivity|].
  change (String x (a +:+ b +:+ c) = String x ((a +:+ b) +:+ c)).
  by rewrite IH.
Qed.

Lemma TrimPrefix_app (prefix s : string) :
  strings.TrimPrefix (prefix +:+ s) prefix = s.
Proof. unfold strings.TrimPrefix. by rewrite strip_app. Qed.

Lemma strip_refl (s : string) : strings.strip s s = Some "".
Proof. induction s as [|a s IH]; simpl; [done|]. by rewrite Ascii.eqb_refl. Qed.

Lemma Contains_refl (s : string) : strings.Contains s s = true.
Proof.
  assert (strings.HasPrefix s s = true) as Hp.
  { unfold strings.HasPrefix. by rewrite strip_refl. }
  destruct s; cbn [strings.Contains]; by rewrite Hp.
Qed.

Lemma Strings_Permutation (l : list string) : sort.Strings l ≡ₚ l.
Proof. apply merge_sort_Permutation. Qed.

Lemma Strings_elem_of (l : list string) (x : string) : x ∈ sort.Strings l ↔ x ∈ l.
Proof. by rewrite Strings_Permutation. Qed.

Lemma Strings_length (l : list string) : length (sort.Strings l) = length l.
Proof. by rewrite Strings_Permutation. Qed.

Lemma Strings_sorted (l : list string) : StronglySorted String.le (sort.Strings l).
Proof. apply (StronglySorted_merge_sort _). Qed.

(** The last element of a sorted list is above every element. *)
Lemma StronglySorted_last {A} (R : relation A) `{!Reflexive R} (l : list A) (x y : A) :
  StronglySorted R l → last l = Some y → x ∈ l → R x y.
Proof.
  intros Hsorted Hlast Hx.
  destruct l as [|z l _] using rev_ind; [done|].
  rewrite last_snoc in Hlast. injection Hlast as ->.
  apply elem_of_app in Hx as [Hx|Hx].
  - eapply StronglySorted_app_1_elem_of; [done..|].
    by apply list_elem_of_singleton.
  - apply list_elem_of_singleton in Hx as ->. done.
Qed.

(** [last_string] of a sorted list of ids is the greatest id. *)
Lemma last_string_max (ids : list string) :
  ids ≠ [] →
  last_string (sort.Strings ids) ∈ ids
  ∧ ∀ id, id ∈ ids → String.le id (last_string (sort.Strings ids)).
Proof.
  intros Hne. unfold last_string.
  destruct (last (sort.Strings ids)) as [y|] eqn:Hlast.
  - simpl. split.
    + apply Strings_elem_of. by eapply last_Some_elem_of.
    + intros id Hid. eapply (StronglySorted_last String.le).
      * apply Strings_sorted.
      * done.
      * by apply Strings_elem_of.
  - apply last_None in Hlast.
    apply (f_equal length) in Hlast. rewrite Strings_length in Hlast.
    by destruct ids.
Qed.

(** ** Labels *)

Lemma merge_labels_lookup (labels extra : gmap string string) (k : string) :
  map_fold (λ k v m, <[k:=v]> m) labels extra !! k
  = match extra !! k with Some v => Some v | None => labels !! k end.
Proof.
  revert k.
  apply (map_fold_weak_ind
           (λ r m, ∀ k, r !! k = match m !! k with
                                 | Some v => Some v
                                 | None => labels !! k
                                 end)).
  - intros k. by rewrite lookup_empty.
  - intros i x m r Hi IH k.
    destruct (decide (i = k)) as [->|Hne].
    + by rewrite !lookup_insert_eq.
    + rewrite !lookup_insert_ne by done. apply IH.
Qed.

(** ** C10: what [ApplyClaim] and [ApplyResult] leave alone *)

(** C10. [ApplyResult] changes the result id and the result status of the
    status and nothing else; [ApplyClaim] leaves schema version, name,
    namespace, the two timestamps and the custom data as they are, and
    touches a label only if the bundle of the claim has a label of that
    key, which it then takes.  Neither updates [Modified]. *)
Theorem C10_apply_frame `{Env} (i : Installation) (c : Claim) (r : Result) :
  (Status_ClaimID (Installation_Status (ApplyResult i r))
     = Status_ClaimID (Installation_Status i)
   ∧ Status_Action (Installation_Status (ApplyResult i r))
     = Status_Action (Installation_Status i)
   ∧ Status_Revision (Installation_Status (ApplyResult i r))
     = Status_Revision (Installation_Status i)
   ∧ Status_ResultID (Installation_Status (ApplyResult i r)) = Result_ID r
   ∧ Status_ResultStatus (Installation_Status (ApplyResult i r))
     = Result_Status r
   ∧ Installation_SchemaVersion (ApplyResult i r)
     = Installation_SchemaVersion i
   ∧ Installation_Name (ApplyResult i r) = Installation_Name i
   ∧ Installation_Namespace (ApplyResult i r) = Installation_Namespace i
   ∧ Installation_BundleRepository (ApplyResult i r)
     = Installation_BundleRepository i
   ∧ Installation_BundleVersion (ApplyResult i r)
     = Installation_BundleVersion i
   ∧ Installation_BundleDigest (ApplyResult i r) = Installation_BundleDigest i
   ∧ Installation_Created (ApplyResult i r) = Installation_Created i
   ∧ Installation_Modified (ApplyResult i r) = Installation_Modified i
   ∧ Installation_Custom (ApplyResult i r) = Installation_Custom i
   ∧ Installation_Labels (ApplyResult i r) = Installation_Labels i
   ∧ Installation_claims (ApplyResult i r) = Installation_claims i)
  ∧ (Installation_SchemaVersion (ApplyClaim i c)
       = Installation_SchemaVersion i
     ∧ Installation_Name (ApplyClaim i c) = Installation_Name i
     ∧ Installation_Namespace (ApplyClaim i c) = Installation_Namespace i
     ∧ Installation_Created (ApplyClaim i c) = Installation_Created i
     ∧ Installation_Modified (ApplyClaim i c) = Installation_Modified i
     ∧ Installation_Custom (ApplyClaim i c) = Installation_Custom i
     ∧ ∀ k : string,
         Installation_Labels (ApplyClaim i c) !! k
         = match bundle.Labels (Claim_Bundle c) !! k with
           | Some v => Some v
           | None => Installation_Labels i !! k
           end).
Proof.
  split; [by repeat split|].
  repeat split. intros k. simpl. apply merge_labels_lookup.
Qed.

(** ** The backing store: what a call depends on and what it changes *)

#[global] Instance same_data_equiv : Equivalence same_data.
Proof.
  split.
  - by intros st.
  - intros st st' [Hi Hf]. split; congruence.
  - intros st1 st2 st3 [Hi1 Hf1] [Hi2 Hf2]. split; congruence.
Qed.

#[global] Instance same_data_scoping : Scoping same_data.
Proof. split; [apply _|]. by intros st st' _ [Hi Hf]. Qed.

#[global] Instance shrinks_scoping : Scoping shrinks.
Proof.
  split; [split|].
  - by intros st.
  - intros st1 st2 st3 [Hi1 Hf1] [Hi2 Hf2]. split; [by etrans|congruence].
  - by intros st st' _ [Hi Hf].
Qed.

#[global] Instance nested_scoping : Scoping nested.
Proof.
  split; [split|].
  - by intros st.
  - intros st1 st2 st3 H12 H23 Ho.
    destruct (H12 Ho) as (Ho2 & Hc & Hl).
    destruct (H23 Ho2) as (Ho3 & Hc' & Hl'). repeat split; congruence.
  - intros st st' Ho _ Ho'. congruence.
Qed.

Create HintDb store discriminated.

Section combinators.
Context `{Env}.
Context (R : relation BackingStore) `{!Scoping R}.

Lemma keeps_ret {A} (a : A) : keeps R (ret a).
Proof. intros st. simpl. reflexivity. Qed.

Lemma keeps_bind {A B} (m : M BackingStore A) (k : A → M BackingStore B) :
  keeps R m → (∀ a, keeps R (k a)) → keeps R (bind m k).
Proof.
  intros Hm Hk st. unfold bind. specialize (Hm st).
  destruct (m st) as [a st1]. simpl in Hm. etrans; [exact Hm|apply Hk].
Qed.

Lemma keeps_scoped {A} (call : M BackingStore A) :
  keeps R call → keeps R (scoped call).
Proof.
  intros Hcall st. unfold scoped, HandleConnect.
  destruct (opened st) eqn:Ho.
  - specialize (Hcall st). by destruct (call st).
  - specialize (Hcall (Connect st)). destruct (call (Connect st)). simpl in *.
    by apply scoping_connect.
Qed.

Lemma keeps_with_connect {A} (failed : error → A) (body : M BackingStore A) :
  keeps R body → keeps R (with_connect failed body).
Proof.
  intros Hbody st. unfold with_connect. simpl. unfold HandleConnect.
  destruct (opened st) eqn:Ho.
  - specialize (Hbody st). by destruct (body st).
  - specialize (Hbody (Connect st)). destruct (body (Connect st)). simpl in *.
    by apply scoping_connect.
Qed.

Lemma keeps_for_each {A} (body : A → M BackingStore (option error)) (l : list A) :
  (∀ x, keeps R (body x)) → keeps R (for_each body l).
Proof.
  intros Hbody. induction l as [|x l IH]; simpl.
  - apply keeps_ret.
  - apply keeps_bind; [done|]. intros [e|]; [apply keeps_ret|done].
Qed.

End combinators.

Section stability.
Context `{Env}.

Lemma stable_ret {A} (a : A) : stable (ret a).
Proof. by intros st1 st2 Hd. Qed.

Lemma stable_bind {A B} (m : M BackingStore A) (k : A → M BackingStore B) :
  stable m → (∀ a, stable (k a)) → stable (bind m k).
Proof.
  intros Hm Hk st1 st2 Hd. unfold bind. specialize (Hm st1 st2 Hd).
  destruct (m st1) as [a1 st1'], (m st2) as [a2 st2']. simpl in Hm.
  destruct Hm as [-> Hd']. by apply Hk.
Qed.

Lemma same_data_Connect st1 st2 :
  same_data st1 st2 → same_data (Connect st1) (Connect st2).
Proof. by intros [Hi Hf]. Qed.

Lemma same_data_Close st1 st2 :
  same_data st1 st2 → same_data (Close st1) (Close st2).
Proof. by intros [Hi Hf]. Qed.

Lemma same_data_Connect_l st : same_data (Connect st) st.
Proof. done. Qed.

Lemma same_data_Close_l st : same_data (Close st) st.
Proof. done. Qed.

(** A connection scope changes neither the answer nor the data left. *)
Lemma with_connect_data {A} (failed : error → A) (body : M BackingStore A) st :
  stable body →
  fst (with_connect failed body st) = fst (body st)
  ∧ same_data (snd (with_connect failed body st)) (snd (body st)).
Proof.
  intros Hbody. unfold with_connect. simpl. unfold HandleConnect.
  destruct (opened st) eqn:Ho.
  - by destruct (body st).
  - destruct (Hbody (Connect st) st (same_data_Connect_l st)) as [Hr Hd].
    destruct (body (Connect st)) as [r st2]. simpl in *. split; [done|].
    etrans; [apply same_data_Close_l|done].
Qed.

Lemma scoped_data {A} (call : M BackingStore A) st :
  stable call →
  fst (scoped call st) = fst (call st)
  ∧ same_data (snd (scoped call st)) (snd (call st)).
Proof.
  intros Hcall. unfold scoped, HandleConnect.
  destruct (opened st) eqn:Ho.
  - by destruct (call st).
  - destruct (Hcall (Connect st) st (same_data_Connect_l st)) as [Hr Hd].
    destruct (call (Connect st)) as [r st2]. simpl in *. split; [done|].
    etrans; [apply same_data_Close_l|done].
Qed.

Lemma stable_of_data {A} (m m' : M BackingStore A) :
  stable m' →
  (∀ st, fst (m st) = fst (m' st) ∧ same_data (snd (m st)) (snd (m' st))) →
  stable m.
Proof.
  intros Hm' Hm st1 st2 Hd.
  destruct (Hm st1) as [-> Hd1], (Hm st2) as [-> Hd2].
  destruct (Hm' st1 st2 Hd) as [-> Hd']. split; [done|].
  etrans; [exact Hd1|]. etrans; [exact Hd'|]. by symmetry.
Qed.

Lemma stable_with_connect {A} (failed : error → A) (body : M BackingStore A) :
  stable body → stable (with_connect failed body).
Proof.
  intros Hbody. apply (stable_of_data _ body Hbody).
  intros st. by apply with_connect_data.
Qed.

Lemma stable_scoped {A} (call : M BackingStore A) :
  stable call → stable (scoped call).
Proof.
  intros Hcall. apply (stable_of_data _ call Hcall).
  intros st. by apply scoped_data.
Qed.

Lemma stable_for_each {A} (body : A → M BackingStore (option error)) (l : list A) :
  (∀ x, stable (body x)) → stable (for_each body l).
Proof.
  intros Hbody. induction l as [|x l IH]; simpl.
  - apply stable_ret.
  - apply stable_bind; [done|]. intros [e|]; [apply stable_ret|done].
Qed.

End stability.

(** *** The calls of the backing store *)
Section primitives.
Context `{Env}.

Lemma group_records_same_data kind group st1 st2 :
  same_data st1 st2 → group_records kind group st1 = group_records kind group st2.
Proof. intros [Hi _]. unfold group_records. by rewrite Hi. Qed.

Lemma keeps_List R `{!Scoping R} kind group :
  keeps R (crud.List kind group).
Proof.
  apply keeps_scoped; [done|]. intros st. simpl.
  case_decide; simpl; reflexivity.
Qed.

Lemma keeps_Read R `{!Scoping R} kind key : keeps R (crud.Read kind key).
Proof.
  apply keeps_scoped; [done|]. intros st. simpl.
  destruct (items st !! (kind, key)) as [[g data]|]; simpl; reflexivity.
Qed.

Lemma keeps_ReadAll R `{!Scoping R} kind group : keeps R (crud.ReadAll kind group).
Proof.
  apply keeps_scoped; [done|]. intros st. simpl.
  case_decide; simpl; reflexivity.
Qed.

Lemma nested_Save kind group key data :
  keeps nested (crud.Save kind group key data).
Proof. apply keeps_scoped; [apply _|]. by intros st. Qed.

Lemma nested_Delete kind key : keeps nested (crud.Delete kind key).
Proof.
  apply keeps_scoped; [apply _|]. intros st. simpl.
  by destruct (items st !! (kind, key)).
Qed.

Lemma shrinks_Delete kind key : keeps shrinks (crud.Delete kind key).
Proof.
  apply keeps_scoped; [apply _|]. intros st. simpl.
  destruct (items st !! (kind, key)); simpl; [|reflexivity].
  split; [apply delete_subseteq|done].
Qed.

Lemma stable_List kind group : stable (crud.List kind group).
Proof.
  apply stable_scoped. intros st1 st2 Hd. simpl.
  rewrite (group_records_same_data _ _ _ _ Hd). destruct Hd as [Hi Hf].
  rewrite Hf. by case_decide.
Qed.

Lemma stable_Read kind key : stable (crud.Read kind key).
Proof.
  apply stable_scoped. intros st1 st2 Hd. simpl. pose proof Hd as [Hi Hf].
  rewrite Hi. by destruct (items st2 !! (kind, key)) as [[g data]|].
Qed.

Lemma stable_ReadAll kind group : stable (crud.ReadAll kind group).
Proof.
  apply stable_scoped. intros st1 st2 Hd. simpl.
  rewrite (group_records_same_data _ _ _ _ Hd). destruct Hd as [Hi Hf].
  rewrite Hf. by case_decide.
Qed.

Lemma stable_Save kind group key data : stable (crud.Save kind group key data).
Proof.
  apply stable_scoped. intros st1 st2 [Hi Hf]. simpl. split; [done|].
  split; simpl; congruence.
Qed.

Lemma stable_Delete kind key : stable (crud.Delete kind key).
Proof.
  apply stable_scoped. intros st1 st2 Hd. simpl. pose proof Hd as [Hi Hf].
  rewrite Hi. destruct (items st2 !! (kind, key)); simpl; [|done].
  split; [done|]. split; simpl; congruence.
Qed.

(** The answers of the calls, read off the data. *)
Lemma List_fst kind group st :
  fst (crud.List kind group st)
  = if decide ((group_records kind group st).*1 = []
               ∧ missing_group_fails st = true)
    then ([], Some ErrRecordDoesNotExist)
    else ((group_records kind group st).*1, None).
Proof.
  simpl. unfold List.
  match goal with |- fst (scoped ?c st) = _ =>
    destruct (scoped_data c st) as [-> _] end.
  - intros st1 st2 Hd. simpl.
    rewrite (group_records_same_data _ _ _ _ Hd). destruct Hd as [Hi Hf].
    rewrite Hf. by case_decide.
  - simpl. by case_decide.
Qed.

Lemma ReadAll_fst kind group st :
  fst (crud.ReadAll kind group st)
  = if decide ((group_records kind group st).*2 = []
               ∧ missing_group_fails st = true)
    then ([], Some ErrRecordDoesNotExist)
    else ((group_records kind group st).*2, None).
Proof.
  simpl. unfold ReadAll.
  match goal with |- fst (scoped ?c st) = _ =>
    destruct (scoped_data c st) as [-> _] end.
  - intros st1 st2 Hd. simpl.
    rewrite (group_records_same_data _ _ _ _ Hd). destruct Hd as [Hi Hf].
    rewrite Hf. by case_decide.
  - simpl. by case_decide.
Qed.

Lemma Read_fst kind key st :
  fst (crud.Read kind key st)
  = match items st !! (kind, key) with
    | Some (_, data) => (data, None)
    | None => ([], Some ErrRecordDoesNotExist)
    end.
Proof.
  simpl. unfold Read.
  match goal with |- fst (scoped ?c st) = _ =>
    destruct (scoped_data c st) as [-> _] end.
  - intros st1 st2 Hd. simpl. pose proof Hd as [Hi Hf].
    rewrite Hi. by destruct (items st2 !! (kind, key)) as [[g data]|].
  - simpl. by destruct (items st !! (kind, key)) as [[g data]|].
Qed.

Lemma Save_run kind group key data st :
  fst (crud.Save kind group key data st) = None
  ∧ items (snd (crud.Save kind group key data st))
    = <[(kind, key) := (group, data)]> (items st)
  ∧ missing_group_fails (snd (crud.Save kind group key data st))
    = missing_group_fails st.
Proof.
  simpl. unfold Save, scoped, HandleConnect. by destruct (opened st).
Qed.

Lemma Delete_run kind key st :
  match items st !! (kind, key) with
  | Some _ =>
      fst (crud.Delete kind key st) = None
      ∧ items (snd (crud.Delete kind key st)) = delete (kind, key) (items st)
  | None =>
      fst (crud.Delete kind key st) = Some ErrRecordDoesNotExist
      ∧ items (snd (crud.Delete kind key st)) = items st
  end
  ∧ missing_group_fails (snd (crud.Delete kind key st))
    = missing_group_fails st.
Proof.
  simpl. unfold Delete, scoped, HandleConnect.
  destruct (opened st); simpl;
    by destruct (items st !! (kind, key)) as [[g data]|].
Qed.

(** The records of a group, by key. *)
Lemma elem_of_group_records kind group st key data :
  (key, data) ∈ group_records kind group st
  ↔ items st !! (kind, key) = Some (group, data).
Proof.
  unfold group_records. rewrite list_elem_of_omap. split.
  - intros ([[k key'] [g data']] & Hin & Hsome).
    apply elem_of_map_to_list in Hin. case_decide as Hkg; [|done].
    destruct Hkg as [-> ->]. by injection Hsome as -> ->.
  - intros Hlookup. exists ((kind, key), (group, data)). split.
    + by apply elem_of_map_to_list.
    + by rewrite decide_True.
Qed.

Lemma elem_of_group_keys kind group st key :
  key ∈ (group_records kind group st).*1
  ↔ ∃ data, items st !! (kind, key) = Some (group, data).
Proof.
  rewrite list_elem_of_fmap. split.
  - intros ([key' data] & -> & Hin). exists data.
    by apply elem_of_group_records.
  - intros [data Hlookup]. exists (key, data). split; [done|].
    by apply elem_of_group_records.
Qed.

Lemma group_keys_NoDup kind group st : NoDup (group_records kind group st).*1.
Proof.
  unfold group_records.
  pose proof (NoDup_fst_map_to_list (items st)) as Hnd.
  induction (map_to_list (items st)) as [|[[k key] [g data]] l IH]; simpl.
  - constructor.
  - apply NoDup_cons in Hnd as [Hnotin Hnd]. case_decide as Hkg; [|by apply IH].
    destruct Hkg as [-> ->]. simpl. apply NoDup_cons. split; [|by apply IH].
    intros Hin. apply Hnotin.
    apply list_elem_of_fmap in Hin as ([key' data'] & Heq & Hin).
    simpl in Heq. subst key'.
    apply list_elem_of_omap in Hin as ([[k' key'] [g' data'']] & Hin & Hsome).
    case_decide as Hkg'; [|done]. destruct Hkg' as [-> ->].
    injection Hsome as -> ->.
    apply list_elem_of_fmap. by exists ((kind, key), (group, data')).
Qed.

End primitives.

#[global] Hint Resolve keeps_List keeps_Read keeps_ReadAll nested_Save
  nested_Delete shrinks_Delete stable_List stable_Read stable_ReadAll
  stable_Save stable_Delete : store.

(** Take a method apart along its binds, scopes, loops and branches. *)
Ltac keeps_tac :=
  repeat match goal with
    | |- keeps _ (ret _) => apply keeps_ret; solve [apply _]
    | |- keeps _ (bind _ _) => apply keeps_bind; [solve [apply _]| |intros ?]
    | |- keeps _ (with_connect _ _) =>
        apply keeps_with_connect; [solve [apply _]|]
    | |- keeps _ (for_each _ _) =>
        apply keeps_for_each; [solve [apply _]|intros ?]
    | |- keeps _ (match ?x with _ => _ end) => destruct x
    | |- keeps _ _ => progress cbv beta zeta
    | |- keeps _ _ => solve [eauto with store typeclass_instances]
    end.

Ltac stable_tac :=
  repeat match goal with
    | |- stable (ret _) => apply stable_ret
    | |- stable (bind _ _) => apply stable_bind; [|intros ?]
    | |- stable (with_connect _ _) => apply stable_with_connect
    | |- stable (for_each _ _) => apply stable_for_each; intros ?
    | |- stable (match ?x with _ => _ end) => destruct x
    | |- stable _ => progress cbv beta zeta
    | |- stable _ => solve [eauto with store]
    end.

(** *** The methods of the claim store *)
Section methods.
Context `{Env}.
Variable s : Store.

(** Reads keep every relation that scopes preserve. *)
Section reads.
Context (R : relation BackingStore) `{!Scoping R}.

Lemma keeps_ListInstallations namespace : keeps R (ListInstallations namespace).
Proof. unfold ListInstallations. keeps_tac. Qed.

Lemma keeps_ListClaims installation : keeps R (ListClaims installation).
Proof. unfold ListClaims. keeps_tac. Qed.

Lemma keeps_ListResults claimID : keeps R (ListResults claimID).
Proof. unfold ListResults. keeps_tac. Qed.

Lemma keeps_ListOutputs resultID : keeps R (ListOutputs resultID).
Proof. unfold ListOutputs. keeps_tac. Qed.

Lemma keeps_ReadInstallation namespace name :
  keeps R (ReadInstallation namespace name).
Proof. unfold ReadInstallation. keeps_tac. Qed.

Lemma keeps_ReadAllInstallations : keeps R ReadAllInstallations.
Proof. unfold ReadAllInstallations. keeps_tac. Qed.

Lemma keeps_ReadClaim claimID : keeps R (ReadClaim s claimID).
Proof. unfold ReadClaim. keeps_tac. Qed.

Lemma keeps_ReadAllClaims installation : keeps R (ReadAllClaims s installation).
Proof. unfold ReadAllClaims. keeps_tac. Qed.

Lemma keeps_ReadResult resultID : keeps R (ReadResult resultID).
Proof. unfold ReadResult. keeps_tac. Qed.

Lemma keeps_ReadAllResults claimID : keeps R (ReadAllResults claimID).
Proof. unfold ReadAllResults. keeps_tac. Qed.

Lemma keeps_ReadOutput c r outputName : keeps R (ReadOutput s c r outputName).
Proof. unfold ReadOutput. keeps_tac. Qed.

Hint Resolve keeps_ListInstallations keeps_ListClaims keeps_ListResults
  keeps_ListOutputs keeps_ReadInstallation keeps_ReadAllInstallations
  keeps_ReadClaim keeps_ReadAllClaims keeps_ReadResult keeps_ReadAllResults
  keeps_ReadOutput : store.

Lemma keeps_ReadLastClaim installation : keeps R (ReadLastClaim s installation).
Proof. unfold ReadLastClaim. keeps_tac. Qed.

Lemma keeps_ReadLastResult claimID : keeps R (ReadLastResult claimID).
Proof. unfold ReadLastResult. keeps_tac. Qed.

Lemma keeps_collect_results claims results :
  keeps R (collect_results claims results).
Proof.
  revert results. induction claims as [|c claims IH]; intros results; simpl;
    keeps_tac.
Qed.

Lemma keeps_scan_outputs filterOutput results lastOutputs :
  keeps R (scan_outputs filterOutput results lastOutputs).
Proof.
  revert lastOutputs.
  induction results as [|r results IH]; intros lastOutputs; simpl; keeps_tac.
Qed.

Lemma keeps_read_outputs entries outputs :
  keeps R (read_outputs s entries outputs).
Proof.
  revert outputs.
  induction entries as [|[name r] entries IH]; intros outputs; simpl;
    keeps_tac.
Qed.

Hint Resolve keeps_collect_results keeps_scan_outputs keeps_read_outputs
  : store.

Lemma keeps_readLastOutputs installation filterOutput :
  keeps R (readLastOutputs s installation filterOutput).
Proof. unfold readLastOutputs. keeps_tac. Qed.

Hint Resolve keeps_readLastOutputs : store.

Lemma keeps_ReadLastOutputs installation :
  keeps R (ReadLastOutputs s installation).
Proof. unfold ReadLastOutputs. keeps_tac. Qed.

Lemma keeps_ReadLastOutput installation name :
  keeps R (ReadLastOutput s installation name).
Proof. unfold ReadLastOutput. keeps_tac. Qed.

Lemma keeps_ReadInstallationStatus installation :
  keeps R (ReadInstallationStatus s installation).
Proof. unfold ReadInstallationStatus. keeps_tac. Qed.

Hint Resolve keeps_ReadInstallationStatus : store.

Lemma keeps_read_statuses names installations :
  keeps R (read_statuses s names installations).
Proof.
  revert installations.
  induction names as [|name names IH]; intros installations; simpl; keeps_tac.
Qed.

Hint Resolve keeps_read_statuses : store.

Lemma keeps_ReadAllInstallationStatus : keeps R (ReadAllInstallationStatus s).
Proof. unfold ReadAllInstallationStatus. keeps_tac. Qed.

End reads.

Hint Resolve keeps_ListInstallations keeps_ListClaims keeps_ListResults
  keeps_ListOutputs keeps_ReadInstallation : store.

(** Writes and deletes open no connection under a connection held. *)
Lemma nested_SaveDocument doc encrypt :
  keeps nested (crud.SaveDocument doc encrypt).
Proof. unfold crud.SaveDocument. keeps_tac. Qed.

Hint Resolve nested_SaveDocument : store.

Lemma nested_SaveInstallation i : keeps nested (SaveInstallation s i).
Proof. unfold SaveInstallation. keeps_tac. Qed.

Hint Resolve nested_SaveInstallation : store.

Lemma nested_SaveClaim c : keeps nested (SaveClaim s c).
Proof. unfold SaveClaim. keeps_tac. Qed.

Lemma nested_SaveResult r : keeps nested (SaveResult s r).
Proof. unfold SaveResult. keeps_tac. Qed.

Lemma nested_SaveOutput o : keeps nested (SaveOutput s o).
Proof. unfold SaveOutput. keeps_tac. Qed.

(** Deletes take records away and add none. *)
Section deletes.
Context (R : relation BackingStore) `{!Scoping R}.
Hypothesis keeps_Delete : ∀ kind key, keeps R (crud.Delete kind key).

Lemma keeps_DeleteOutput resultID outputName :
  keeps R (DeleteOutput resultID outputName).
Proof. unfold DeleteOutput. keeps_tac. Qed.

Hint Resolve keeps_DeleteOutput : store.

Lemma keeps_DeleteResult resultID : keeps R (DeleteResult resultID).
Proof. unfold DeleteResult. keeps_tac. Qed.

Hint Resolve keeps_DeleteResult : store.

Lemma keeps_DeleteClaim claimID : keeps R (DeleteClaim claimID).
Proof. unfold DeleteClaim. keeps_tac. Qed.

Hint Resolve keeps_DeleteClaim : store.

Lemma keeps_DeleteInstallation installation :
  keeps R (DeleteInstallation installation).
Proof. unfold DeleteInstallation. keeps_tac. Qed.

End deletes.

End methods.

(** Every method answers from the data alone. *)
Section stable_methods.
Context `{Env}.
Variable s : Store.

Lemma stable_ListInstallations namespace : stable (ListInstallations namespace).
Proof. unfold ListInstallations. stable_tac. Qed.

Lemma stable_ListClaims installation : stable (ListClaims installation).
Proof. unfold ListClaims. stable_tac. Qed.

Lemma stable_ListResults claimID : stable (ListResults claimID).
Proof. unfold ListResults. stable_tac. Qed.

Lemma stable_ListOutputs resultID : stable (ListOutputs resultID).
Proof. unfold ListOutputs. stable_tac. Qed.

Lemma stable_ReadInstallation namespace name :
  stable (ReadInstallation namespace name).
Proof. unfold ReadInstallation. stable_tac. Qed.

Lemma stable_ReadClaim claimID : stable (ReadClaim s claimID).
Proof. unfold ReadClaim. stable_tac. Qed.

Lemma stable_ReadAllClaims installation : stable (ReadAllClaims s installation).
Proof. unfold ReadAllClaims. stable_tac. Qed.

Lemma stable_ReadResult resultID : stable (ReadResult resultID).
Proof. unfold ReadResult. stable_tac. Qed.

Lemma stable_ReadOutput c r outputName : stable (ReadOutput s c r outputName).
Proof. unfold ReadOutput. stable_tac. Qed.

Hint Resolve stable_ListInstallations stable_ListClaims stable_ListResults
  stable_ListOutputs stable_ReadInstallation stable_ReadClaim
  stable_ReadAllClaims stable_ReadResult stable_ReadOutput : store.

Lemma stable_collect_results claims results :
  stable (collect_results claims results).
Proof.
  revert results. induction claims as [|c claims IH]; intros results; simpl;
    stable_tac.
Qed.

Lemma stable_scan_outputs filterOutput results lastOutputs :
  stable (scan_outputs filterOutput results lastOutputs).
Proof.
  revert lastOutputs.
  induction results as [|r results IH]; intros lastOutputs; simpl; stable_tac.
Qed.

Lemma stable_read_outputs entries outputs :
  stable (read_outputs s entries outputs).
Proof.
  revert outputs.
  induction entries as [|[name r] entries IH]; intros outputs; simpl;
    stable_tac.
Qed.

Hint Resolve stable_collect_results stable_scan_outputs stable_read_outputs
  : store.

Lemma stable_readLastOutputs installation filterOutput :
  stable (readLastOutputs s installation filterOutput).
Proof. unfold readLastOutputs. stable_tac. Qed.

Lemma stable_SaveDocument doc encrypt : stable (crud.SaveDocument doc encrypt).
Proof. unfold crud.SaveDocument. stable_tac. Qed.

Hint Resolve stable_SaveDocument : store.

Lemma stable_SaveInstallation i : stable (SaveInstallation s i).
Proof. unfold SaveInstallation. stable_tac. Qed.

Hint Resolve stable_SaveInstallation : store.

Lemma stable_DeleteOutput resultID outputName :
  stable (DeleteOutput resultID outputName).
Proof. unfold DeleteOutput. stable_tac. Qed.

Hint Resolve stable_DeleteOutput : store.

Lemma stable_DeleteResult resultID : stable (DeleteResult resultID).
Proof. unfold DeleteResult. stable_tac. Qed.

Hint Resolve stable_DeleteResult : store.

Lemma stable_DeleteClaim claimID : stable (DeleteClaim claimID).
Proof. unfold DeleteClaim. stable_tac. Qed.

End stable_methods.

#[global] Hint Resolve stable_ListInstallations stable_ListClaims
  stable_ListResults stable_ListOutputs stable_ReadInstallation
  stable_ReadClaim stable_ReadAllClaims stable_ReadResult stable_ReadOutput
  stable_collect_results stable_scan_outputs stable_read_outputs
  stable_readLastOutputs stable_SaveDocument stable_SaveInstallation
  stable_DeleteOutput stable_DeleteResult stable_DeleteClaim : store.

#[global] Hint Resolve keeps_ListInstallations keeps_ListClaims
  keeps_ListResults keeps_ListOutputs keeps_ReadInstallation
  keeps_ReadAllInstallations keeps_ReadClaim keeps_ReadAllClaims
  keeps_ReadResult keeps_ReadAllResults keeps_ReadOutput keeps_ReadLastClaim
  keeps_ReadLastResult keeps_collect_results keeps_scan_outputs
  keeps_read_outputs keeps_readLastOutputs keeps_ReadLastOutputs
  keeps_ReadLastOutput keeps_ReadInstallationStatus
  keeps_ReadAllInstallationStatus keeps_read_statuses nested_SaveDocument
  nested_SaveInstallation nested_SaveClaim
  nested_SaveResult nested_SaveOutput keeps_DeleteOutput keeps_DeleteResult
  keeps_DeleteClaim keeps_DeleteInstallation : store.

(** The answer of a method after a read is its answer before. *)
Lemma fst_after {A B} (m : M BackingStore A) (m' : M BackingStore B) st :
  keeps same_data m → stable m' → fst (m' (snd (m st))) = fst (m' st).
Proof.
  intros Hm Hm'. symmetry. by apply Hm'.
Qed.

(** ** C6: which reads swallow "does not exist" and which name it *)

Section not_found.
Context `{Env} {S : Type} `{!crud.ManagedStore S}.

Lemma handleNotExistsError_signal (e typedError : error) :
  strings.Contains e ErrRecordDoesNotExist = true →
  handleNotExistsError (Some e) typedError = Some typedError.
Proof. intros He. unfold handleNotExistsError. by rewrite He. Qed.

(** C6. When the backing store answers with an error whose message carries
    the text of [crud.ErrRecordDoesNotExist], [ListResults] and
    [ListOutputs] return the empty list and no error, while
    [ReadInstallation], [ReadClaim], [ReadResult] and [ReadOutput] return
    their typed errors, whose messages are fixed. *)
Theorem C6_not_found_policy (s : Store) (st : S) (e : error) :
  strings.Contains e ErrRecordDoesNotExist = true →
  (∀ claimID names st',
     crud.List ItemTypeResults claimID st = ((names, Some e), st') →
     ListResults claimID st = (([], None), st'))
  ∧ (∀ resultID names st',
       crud.List ItemTypeOutputs resultID st = ((names, Some e), st') →
       ListOutputs resultID st = (([], None), st'))
  ∧ (∀ namespace name data st',
       crud.Read ItemTypeInstallations (InstallationKey namespace name) st
         = ((data, Some e), st') →
       ReadInstallation namespace name st
         = ((zero_Installation, Some "Installation does not exist"), st'))
  ∧ (∀ claimID data st',
       crud.Read ItemTypeClaims claimID st = ((data, Some e), st') →
       ReadClaim s claimID st
         = ((zero_Claim, Some "Claim does not exist"), st'))
  ∧ (∀ resultID data st',
       crud.Read ItemTypeResults resultID st = ((data, Some e), st') →
       ReadResult resultID st
         = ((zero_Result, Some "Result does not exist"), st'))
  ∧ (∀ c r outputName data st',
       crud.Read ItemTypeOutputs (outputKey (Result_ID r) outputName) st
         = ((data, Some e), st') →
       ReadOutput s c r outputName st
         = ((zero_Output, Some "Output does not exist"), st')).
Proof.
  intros He. repeat split.
  - intros claimID names st' Hlist.
    unfold ListResults, bind. rewrite Hlist. by rewrite He.
  - intros resultID names st' Hlist.
    unfold ListOutputs, bind. rewrite Hlist. by rewrite He.
  - intros namespace name data st' Hread.
    unfold ReadInstallation, bind. rewrite Hread.
    by rewrite handleNotExistsError_signal.
  - intros claimID data st' Hread.
    unfold ReadClaim, bind. rewrite Hread.
    by rewrite handleNotExistsError_signal.
  - intros resultID data st' Hread.
    unfold ReadResult, bind. rewrite Hread.
    by rewrite handleNotExistsError_signal.
  - intros c r outputName data st' Hread.
    unfold ReadOutput, bind. rewrite Hread.
    by rewrite handleNotExistsError_signal.
Qed.

End not_found.

(** ** C9: an installation without claims *)

Section no_claims.
Context `{Env}.

Lemma ListClaims_fst installation st :
  fst (ListClaims installation st)
  = if decide ((group_records ItemTypeClaims installation st).*1 = [])
    then ([], Some ErrInstallationNotFound)
    else (sort.Strings (group_records ItemTypeClaims installation st).*1, None).
Proof.
  unfold ListClaims, bind.
  pose proof (List_fst ItemTypeClaims installation st) as Hlist.
  destruct (crud.List ItemTypeClaims installation st) as [[claims err] st'].
  simpl in Hlist.
  destruct (decide ((group_records ItemTypeClaims installation st).*1 = []))
    as [Hnil|Hne].
  - rewrite Hnil in Hlist.
    assert (claims = []) as -> by (case_decide; congruence). done.
  - rewrite decide_False in Hlist by tauto. injection Hlist as -> ->.
    rewrite decide_False; [done|]. by destruct (_.*1).
Qed.

(** C9. [ListClaims] answers [ErrInstallationNotFound] whenever the store
    has no claim record for the installation, whether or not it has a record
    for the installation itself; [DeleteInstallation] then returns that error
    and leaves every record of the store as it is. *)
Theorem C9_no_claims_is_not_found (installation : string) (st : BackingStore) :
  group_records ItemTypeClaims installation st = [] →
  fst (ListClaims installation st) = ([], Some "Installation does not exist")
  ∧ fst (DeleteInstallation installation st)
    = Some "Installation does not exist"
  ∧ items (snd (DeleteInstallation installation st)) = items st.
Proof.
  intros Hnone.
  assert (fst (ListClaims installation st)
          = ([], Some ErrInstallationNotFound)) as Hlist.
  { rewrite ListClaims_fst, Hnone. done. }
  split; [done|].
  assert (stable (let* (claimIds, err) := ListClaims installation in
                  match err with
                  | Some e => ret (Some e)
                  | None =>
                      let* err := for_each DeleteClaim claimIds in
                      match err with
                      | Some e => ret (Some e)
                      | None =>
                          let* err :=
                            crud.Delete ItemTypeInstallations installation in
                          ret (handleNotExistsError err ErrInstallationNotFound)
                      end
                  end)) as Hstable by stable_tac.
  destruct (with_connect_data Some _ st Hstable) as [Hfst [Hitems _]].
  unfold DeleteInstallation. rewrite Hfst, Hitems. clear Hfst Hitems Hstable.
  unfold bind. pose proof (keeps_ListClaims same_data installation st) as Hkeep.
  destruct (ListClaims installation st) as [[claimIds err] st'].
  simpl in Hlist, Hkeep. injection Hlist as -> ->. simpl.
  split; [done|]. symmetry. apply Hkeep.
Qed.

End no_claims.

(** ** Writes: what they leave in the store *)

Section writes.
Context `{Env}.
Variable s : Store.

Lemma SaveInstallation_run i st :
  fst (SaveInstallation s i st) = None
  ∧ items (snd (SaveInstallation s i st))
    = <[(ItemTypeInstallations,
         InstallationKey (Installation_Namespace i) (Installation_Name i))
        := (Installation_Namespace i, Marshal_Installation i)]> (items st)
  ∧ missing_group_fails (snd (SaveInstallation s i st))
    = missing_group_fails st.
Proof. unfold SaveInstallation, crud.SaveDocument. simpl. apply Save_run. Qed.

Lemma ReadInstallation_fst namespace name st :
  fst (ReadInstallation namespace name st)
  = match items st !! (ItemTypeInstallations, InstallationKey namespace name) with
    | Some (_, data) => Unmarshal_Installation data
    | None => (zero_Installation, Some ErrInstallationNotFound)
    end.
Proof.
  unfold ReadInstallation, bind.
  pose proof (Read_fst ItemTypeInstallations (InstallationKey namespace name) st)
    as Hread.
  destruct (crud.Read _ _ st) as [[data err] st']. simpl in Hread.
  destruct (items st !! _) as [[g data']|]; injection Hread as -> ->; simpl.
  - done.
  - by rewrite Contains_refl.
Qed.

Lemma ReadClaim_fst claimID st :
  fst (ReadClaim s claimID st)
  = match items st !! (ItemTypeClaims, claimID) with
    | Some (_, data) =>
        match decrypt s data with
        | (_, Some e) =>
            (zero_Claim,
             Some (errors.Wrap e ("error decrypting claim " +:+ claimID)))
        | (data', None) => Unmarshal_Claim data'
        end
    | None => (zero_Claim, Some ErrClaimNotFound)
    end.
Proof.
  unfold ReadClaim, bind.
  pose proof (Read_fst ItemTypeClaims claimID st) as Hread.
  destruct (crud.Read _ _ st) as [[data err] st']. simpl in Hread.
  destruct (items st !! _) as [[g data']|]; injection Hread as -> ->; simpl.
  - by destruct (decrypt s data') as [data'' [e|]].
  - by rewrite Contains_refl.
Qed.

Lemma ReadResult_fst resultID st :
  fst (ReadResult resultID st)
  = match items st !! (ItemTypeResults, resultID) with
    | Some (_, data) => Unmarshal_Result data
    | None => (zero_Result, Some ErrResultNotFound)
    end.
Proof.
  unfold ReadResult, bind.
  pose proof (Read_fst ItemTypeResults resultID st) as Hread.
  destruct (crud.Read _ _ st) as [[data err] st']. simpl in Hread.
  destruct (items st !! _) as [[g data']|]; injection Hread as -> ->; simpl.
  - done.
  - by rewrite Contains_refl.
Qed.

Lemma sensitive_marked b outputName :
  marked b outputName →
  match bundle.IsOutputSensitive b outputName with
  | (_, Some _) => false
  | (sensitive, None) => sensitive
  end = true.
Proof. unfold marked. by intros ->. Qed.

Lemma sensitive_not_marked b outputName :
  ¬ marked b outputName →
  match bundle.IsOutputSensitive b outputName with
  | (_, Some _) => false
  | (sensitive, None) => sensitive
  end = false.
Proof.
  unfold marked. destruct (bundle.IsOutputSensitive b outputName) as [[] [e|]];
    try done.
Qed.

Lemma ReadOutput_fst c r outputName st :
  fst (ReadOutput s c r outputName st)
  = match items st !! (ItemTypeOutputs, outputKey (Result_ID r) outputName) with
    | Some (_, raw) =>
        if match bundle.IsOutputSensitive (Claim_Bundle c) outputName with
           | (_, Some _) => false
           | (sensitive, None) => sensitive
           end
        then match decrypt s raw with
             | (_, Some e) =>
                 (zero_Output,
                  Some (errors.Wrap e
                          ("error decrypting output " +:+ outputName)))
             | (data, None) => (NewOutput c r outputName data, None)
             end
        else (NewOutput c r outputName raw, None)
    | None => (zero_Output, Some ErrOutputNotFound)
    end.
Proof.
  unfold ReadOutput, bind.
  pose proof (Read_fst ItemTypeOutputs (outputKey (Result_ID r) outputName) st)
    as Hread.
  destruct (crud.Read _ _ st) as [[data err] st']. simpl in Hread.
  destruct (items st !! _) as [[g data']|]; injection Hread as -> ->; simpl.
  - destruct (match bundle.IsOutputSensitive _ _ with
              | (_, Some _) => false
              | (sensitive, None) => sensitive
              end); [|done].
    by destruct (decrypt s data') as [data'' [e|]].
  - by rewrite Contains_refl.
Qed.

Lemma SaveOutput_record (o : Output) (st st' : BackingStore) :
  SaveOutput s o st = (None, st') →
  ∃ raw,
    items st' !! (ItemTypeOutputs,
                  outputKey (Result_ID (Output_result o)) (Output_Name o))
      = Some (Result_ID (Output_result o), raw)
    ∧ (marked (Claim_Bundle (Output_claim o)) (Output_Name o) →
       encrypt s (Output_Value o) = (raw, None))
    ∧ (¬ marked (Claim_Bundle (Output_claim o)) (Output_Name o) →
       raw = Output_Value o).
Proof.
  intros Hsave.
  unfold SaveOutput in Hsave. case_decide as Hid; [done|].
  destruct (decide (marked (Claim_Bundle (Output_claim o)) (Output_Name o)))
    as [Hm|Hm].
  - rewrite (sensitive_marked _ _ Hm) in Hsave.
    destruct (encrypt s (Output_Value o)) as [data [e|]] eqn:Henc; [done|].
    exists data.
    pose proof (Save_run ItemTypeOutputs (Output_GetGroup o)
                  (outputKey (Result_ID (Output_result o)) (Output_Name o))
                  data st) as (_ & Hitems & _).
    rewrite Hsave in Hitems. simpl in Hitems. rewrite Hitems.
    rewrite lookup_insert_eq. done.
  - rewrite (sensitive_not_marked _ _ Hm) in Hsave.
    exists (Output_Value o).
    pose proof (Save_run ItemTypeOutputs (Output_GetGroup o)
                  (outputKey (Result_ID (Output_result o)) (Output_Name o))
                  (Output_Value o) st) as (_ & Hitems & _).
    rewrite Hsave in Hitems. simpl in Hitems. rewrite Hitems.
    rewrite lookup_insert_eq. done.
Qed.

(** ** C2: sensitive outputs are encrypted, the others are not *)


End writes.

(** ** C1: the status of the installation follows claims and results *)

Lemma bind_eq {S A B} (m : M S A) (k : A → M S B) (st : S) :
  bind m k st = k (fst (m st)) (snd (m st)).
Proof. unfold bind. by destruct (m st). Qed.

Section status.
Context `{Env}.
Variable s : Store.

Lemma SaveDocument_Claim_run c st :
  match encrypt s (Marshal_Claim c) with
  | (_, Some e) =>
      fst (crud.SaveDocument (Claim_Document c) (encrypt s) st) = Some e
  | (data, None) =>
      fst (crud.SaveDocument (Claim_Document c) (encrypt s) st) = None
      ∧ items (snd (crud.SaveDocument (Claim_Document c) (encrypt s) st))
        = <[(ItemTypeClaims, Claim_ID c) := (Claim_Installation c, data)]>
            (items st)
  end.
Proof.
  unfold crud.SaveDocument. simpl.
  destruct (encrypt s (Marshal_Claim c)) as [data [e|]]; [done|].
  pose proof (Save_run ItemTypeClaims (Claim_Installation c) (Claim_ID c)
                data st) as (? & ? & _). done.
Qed.

Lemma SaveDocument_Result_run r st :
  fst (crud.SaveDocument (Result_Document r) (encrypt s) st) = None
  ∧ items (snd (crud.SaveDocument (Result_Document r) (encrypt s) st))
    = <[(ItemTypeResults, Result_ID r)
        := (Result_ClaimID r, Marshal_Result r)]> (items st).
Proof.
  unfold crud.SaveDocument. simpl.
  pose proof (Save_run ItemTypeResults (Result_ClaimID r) (Result_ID r)
                (Marshal_Result r) st) as (? & ? & _). done.
Qed.

(** The body of [SaveClaim] and of [SaveResult], after the document has been
    written: the installation is read, changed and written back. *)
Lemma update_installation_run (installation : string)
    (apply : Installation → Installation) st st' :
  (let* (i, err) := ReadInstallation "" installation in
   match err with
   | Some e => ret (Some e)
   | None => SaveInstallation s (apply i)
   end) st = (None, st') →
  ∃ i, fst (ReadInstallation "" installation st) = (i, None)
       ∧ items st'
         = <[(ItemTypeInstallations,
              InstallationKey (Installation_Namespace (apply i))
                              (Installation_Name (apply i)))
             := (Installation_Namespace (apply i),
                 Marshal_Installation (apply i))]> (items st).
Proof.
  rewrite bind_eq.
  pose proof (keeps_ReadInstallation same_data "" installation st) as [Hi _].
  destruct (ReadInstallation "" installation st) as [[i [e|]] st1];
    simpl in *; [done|].
  intros Hsave. exists i. split; [done|].
  pose proof (SaveInstallation_run s (apply i) st1) as (_ & Hitems & _).
  rewrite Hsave in Hitems. simpl in Hitems. by rewrite Hitems, Hi.
Qed.



End status.

(** ** C4: the last claim and the last result *)

Section last.
Context `{Env}.
Variable s : Store.

Lemma ReadLastClaim_fst installation st :
  fst (ReadLastClaim s installation st)
  = if decide ((group_records ItemTypeClaims installation st).*1 = [])
    then (zero_Claim, Some ErrInstallationNotFound)
    else fst (ReadClaim s
                (last_string
                   (sort.Strings
                      (group_records ItemTypeClaims installation st).*1)) st).
Proof.
  unfold ReadLastClaim.
  match goal with |- fst (with_connect _ ?body _) = _ =>
    assert (stable body) as Hstable by stable_tac;
    destruct (with_connect_data (λ e, (zero_Claim, Some e)) body st Hstable)
      as [-> _]
  end.
  clear Hstable. rewrite bind_eq.
  pose proof (List_fst ItemTypeClaims installation st) as Hlist.
  pose proof (keeps_List same_data ItemTypeClaims installation st) as Hkeep.
  destruct (crud.List ItemTypeClaims installation st) as [[ids err] st1].
  simpl in Hlist, Hkeep. simpl.
  destruct (decide ((group_records ItemTypeClaims installation st).*1 = []))
    as [Hnil|Hne].
  - rewrite Hnil in Hlist. case_decide; injection Hlist as -> ->; simpl.
    + by rewrite Contains_refl.
    + done.
  - rewrite decide_False in Hlist by tauto. injection Hlist as -> ->.
    rewrite decide_False by (by destruct (_.*1)).
    symmetry. apply stable_ReadClaim. done.
Qed.

Lemma ReadLastResult_fst claimID st :
  fst (ReadLastResult claimID st)
  = if decide ((group_records ItemTypeResults claimID st).*1 = [])
    then (zero_Result,
          Some (if missing_group_fails st then ErrClaimNotFound
                else "claim " +:+ claimID +:+ " has no results"))
    else fst (ReadResult
                (last_string
                   (sort.Strings
                      (group_records ItemTypeResults claimID st).*1)) st).
Proof.
  unfold ReadLastResult.
  match goal with |- fst (with_connect _ ?body _) = _ =>
    assert (stable body) as Hstable by stable_tac;
    destruct (with_connect_data (λ e, (zero_Result, Some e)) body st Hstable)
      as [-> _]
  end.
  clear Hstable. rewrite bind_eq.
  pose proof (List_fst ItemTypeResults claimID st) as Hlist.
  pose proof (keeps_List same_data ItemTypeResults claimID st) as Hkeep.
  destruct (crud.List ItemTypeResults claimID st) as [[ids err] st1].
  simpl in Hlist, Hkeep. simpl.
  destruct (decide ((group_records ItemTypeResults claimID st).*1 = []))
    as [Hnil|Hne].
  - rewrite Hnil in Hlist.
    destruct (missing_group_fails st); case_decide as Hcase;
      injection Hlist as -> ->; simpl.
    + by rewrite Contains_refl.
    + destruct Hcase; done.
    + by destruct Hcase.
    + done.
  - rewrite decide_False in Hlist by tauto. injection Hlist as -> ->.
    rewrite decide_False by (by destruct (_.*1)).
    symmetry. apply stable_ReadResult. done.
Qed.

(** C4. [ReadLastClaim] answers [ErrInstallationNotFound] when the
    installation has no claim, and otherwise returns the claim saved under
    the greatest claim id of the installation; [ReadLastResult] returns an
    error when the claim has no result, and otherwise the result saved under
    the greatest result id of the claim. *)
Theorem C4_last_claim_and_result `{!JSONLaws} (st : BackingStore) :
  inverse_handlers s →
  (∀ installation,
     ((group_records ItemTypeClaims installation st).*1 = [] →
      fst (ReadLastClaim s installation st)
      = (zero_Claim, Some "Installation does not exist"))
     ∧ ((group_records ItemTypeClaims installation st).*1 ≠ [] →
        saved_claims s installation st →
        ∃ c data,
          items st !! (ItemTypeClaims, Claim_ID c) = Some (installation, data)
          ∧ encrypt s (Marshal_Claim c) = (data, None)
          ∧ (∀ id, id ∈ (group_records ItemTypeClaims installation st).*1 →
                   String.le id (Claim_ID c))
          ∧ fst (ReadLastClaim s installation st) = (with_results c None, None)))
  ∧ (∀ claimID,
       ((group_records ItemTypeResults claimID st).*1 = [] →
        ∃ e, fst (ReadLastResult claimID st) = (zero_Result, Some e))
       ∧ ((group_records ItemTypeResults claimID st).*1 ≠ [] →
          saved_results claimID st →
          ∃ r,
            items st !! (ItemTypeResults, Result_ID r)
              = Some (claimID, Marshal_Result r)
            ∧ (∀ id, id ∈ (group_records ItemTypeResults claimID st).*1 →
                     String.le id (Result_ID r))
            ∧ fst (ReadLastResult claimID st) = (with_claim r None, None))).
Proof.
  intros Hinv. split.
  - intros installation. rewrite ReadLastClaim_fst. split.
    + intros ->. done.
    + intros Hne Hsaved. rewrite decide_False by done.
      destruct (last_string_max _ Hne) as [Hin Hmax].
      apply elem_of_group_keys in Hin as [data Hdata].
      destruct (Hsaved _ _ Hdata) as (c & Hid & Henc).
      exists c, data. rewrite Hid. split; [done|]. split; [done|].
      split; [done|].
      rewrite ReadClaim_fst, Hdata.
      destruct (Hinv (Marshal_Claim c)) as (sealed & Henc' & Hdec).
      rewrite Henc in Henc'. injection Henc' as <-. rewrite Hdec.
      apply Unmarshal_Marshal_Claim.
  - intros claimID. rewrite ReadLastResult_fst. split.
    + intros ->. simpl. eauto.
    + intros Hne Hsaved. rewrite decide_False by done.
      destruct (last_string_max _ Hne) as [Hin Hmax].
      apply elem_of_group_keys in Hin as [data Hdata].
      destruct (Hsaved _ _ Hdata) as (r & Hid & ->).
      exists r. rewrite Hid. split; [done|]. split; [done|].
      rewrite ReadResult_fst, Hdata. apply Unmarshal_Marshal_Result.
Qed.

End last.

(** ** C7: what is read back after a save *)

Section round_trip.
Context `{Env}.
Variable s : Store.

Lemma SaveClaim_record c st st' :
  SaveClaim s c st = (None, st') →
  ∃ data, encrypt s (Marshal_Claim c) = (data, None)
          ∧ items st' !! (ItemTypeClaims, Claim_ID c)
            = Some (Claim_Installation c, data).
Proof.
  intros Hsave. unfold SaveClaim in Hsave.
  match type of Hsave with with_connect _ ?body _ = _ =>
    assert (stable body) as Hstable by stable_tac;
    destruct (with_connect_data Some body st Hstable) as [Hfst [Hitems _]]
  end.
  rewrite Hsave in Hfst, Hitems. simpl in Hfst, Hitems. clear Hsave Hstable.
  symmetry in Hfst. rewrite bind_eq in Hfst, Hitems.
  pose proof (SaveDocument_Claim_run s c st) as Hdoc.
  destruct (encrypt s (Marshal_Claim c)) as [data [e|]].
  { rewrite Hdoc in Hfst. done. }
  destruct Hdoc as [Hdoc Hitems1]. rewrite Hdoc in Hfst, Hitems.
  exists data. split; [done|]. rewrite Hitems.
  destruct (fst (IsModifyingAction c)).
  - match type of Hfst with fst (?body ?st1) = _ =>
      destruct (body st1) as [err st2] eqn:Hbody end.
    simpl in Hfst. subst err.
    apply update_installation_run in Hbody as (i & _ & Hitems2).
    simpl. rewrite Hitems2, lookup_insert_ne by done.
    rewrite Hitems1. apply lookup_insert_eq.
  - simpl. rewrite Hitems1. apply lookup_insert_eq.
Qed.



End round_trip.

(** ** C5: deleting an installation deletes what hangs below it *)

Section cascade.
Context `{Env}.

Lemma gone_group_records kind group st :
  gone kind group st ↔ group_records kind group st = [].
Proof.
  split.
  - intros Hgone. destruct (group_records kind group st) as [|[key data] l] eqn:Hl;
      [done|].
    exfalso. apply (Hgone key data). apply elem_of_group_records.
    rewrite Hl. left.
  - intros Hnil key data Hlookup. apply elem_of_group_records in Hlookup.
    rewrite Hnil in Hlookup. by apply elem_of_nil in Hlookup.
Qed.

Lemma shrinks_lookup_None st st' k :
  shrinks st st' → items st !! k = None → items st' !! k = None.
Proof. intros [Hsub _] Hk. by eapply lookup_weaken_None. Qed.

Lemma shrinks_lookup_Some st st' k v :
  shrinks st st' → items st' !! k = Some v → items st !! k = Some v.
Proof. intros [Hsub _] Hk. by eapply lookup_weaken. Qed.

Lemma shrinks_same_data st1 st2 st3 :
  shrinks st1 st2 → same_data st2 st3 → shrinks st1 st3.
Proof. intros [Hs Hf] [Hi Hf']. split; [by rewrite <- Hi|congruence]. Qed.

Lemma outputs_keyed_shrinks st st' :
  shrinks st st' → outputs_keyed st → outputs_keyed st'.
Proof.
  intros Hshrinks Hkeyed key group data Hlookup.
  eapply Hkeyed, shrinks_lookup_Some; done.
Qed.

Lemma ListResults_fst claimID st :
  fst (ListResults claimID st)
  = (sort.Strings (group_records ItemTypeResults claimID st).*1, None).
Proof.
  unfold ListResults. rewrite bind_eq, List_fst.
  case_decide as Hcase; simpl.
  - rewrite Contains_refl. simpl. by destruct Hcase as [-> _].
  - done.
Qed.

Lemma ListOutputs_fst resultID st :
  fst (ListOutputs resultID st)
  = (sort.Strings
       ((λ fullName, strings.TrimPrefix fullName (resultID +:+ "-"))
          <$> (group_records ItemTypeOutputs resultID st).*1), None).
Proof.
  unfold ListOutputs. rewrite bind_eq, List_fst.
  case_decide as Hcase; simpl.
  - rewrite Contains_refl. simpl. by destruct Hcase as [-> _].
  - done.
Qed.

(** A loop that has run to its end has run its body on every element, in a
    state below the one it started in and above the one it ended in. *)
Lemma for_each_inv {A} (body : A → M BackingStore (option error)) l st :
  (∀ x, keeps shrinks (body x)) →
  fst (for_each body l st) = None →
  ∀ x, x ∈ l →
    ∃ st1, shrinks st st1 ∧ fst (body x st1) = None
           ∧ shrinks (snd (body x st1)) (snd (for_each body l st)).
Proof.
  intros Hbody. revert st. induction l as [|y l IH]; intros st Hrun x Hx.
  { by apply elem_of_nil in Hx. }
  simpl in Hrun |- *. rewrite bind_eq in Hrun |- *.
  destruct (fst (body y st)) as [e|] eqn:Hy; [done|].
  apply elem_of_cons in Hx as [->|Hx].
  - exists st. split; [reflexivity|]. split; [done|].
    apply (keeps_for_each shrinks).
    done.
  - destruct (IH _ Hrun x Hx) as (st1 & Hst1 & Hfst & Hafter).
    exists st1. split; [|done]. etrans; [apply Hbody|done].
Qed.

Lemma DeleteOutput_run resultID outputName st :
  fst (DeleteOutput resultID outputName st) = None →
  items (snd (DeleteOutput resultID outputName st))
    !! (ItemTypeOutputs, outputKey resultID outputName) = None.
Proof.
  unfold DeleteOutput. rewrite !bind_eq. unfold ret. cbn [fst snd].
  pose proof (Delete_run ItemTypeOutputs (outputKey resultID outputName) st)
    as [Hrun _].
  destruct (items st !! _) as [v|]; destruct Hrun as [Hfst Hitems].
  - intros _. rewrite Hitems. apply lookup_delete_eq.
  - rewrite Hfst. cbn [handleNotExistsError]. by rewrite Contains_refl.
Qed.

Lemma Delete_gone kind key st :
  fst (crud.Delete kind key st) = None →
  items (snd (crud.Delete kind key st)) !! (kind, key) = None.
Proof.
  pose proof (Delete_run kind key st) as [Hrun _].
  destruct (items st !! _) as [v|]; destruct Hrun as [Hfst Hitems].
  - intros _. rewrite Hitems. apply lookup_delete_eq.
  - by rewrite Hfst.
Qed.

Lemma handleNotExistsError_None err typedError :
  handleNotExistsError err typedError = None → err = None.
Proof.
  destruct err as [e|]; [|done]. simpl.
  by destruct (strings.Contains e ErrRecordDoesNotExist).
Qed.

(** After [DeleteResult]: no output of the result and not the result. *)
Lemma DeleteResult_post resultID st :
  outputs_keyed st →
  fst (DeleteResult resultID st) = None →
  gone ItemTypeOutputs resultID (snd (DeleteResult resultID st))
  ∧ items (snd (DeleteResult resultID st)) !! (ItemTypeResults, resultID) = None.
Proof.
  intros Hkeyed. unfold DeleteResult.
  match goal with |- fst (with_connect _ ?body _) = _ → _ =>
    assert (stable body) as Hstable by stable_tac;
    assert (keeps shrinks body) as Hshr
      by (keeps_tac; apply keeps_DeleteOutput; auto with store typeclass_instances);
    destruct (with_connect_data Some body st Hstable) as [-> Hdata];
    specialize (Hshr st);
    destruct (body st) as [err st'] eqn:Hbody
  end.
  simpl in *. intros ->. clear Hstable.
  assert (gone ItemTypeOutputs resultID st'
          ∧ items st' !! (ItemTypeResults, resultID) = None) as Hpost.
  { rewrite bind_eq, ListOutputs_fst in Hbody.
    remember (snd (ListOutputs resultID st)) as st1 eqn:Hst1.
    assert (shrinks st st1) as Hshr1.
    { subst st1. apply (keeps_ListOutputs shrinks). }
    rewrite bind_eq in Hbody.
    destruct (fst (for_each (DeleteOutput resultID) _ st1)) as [e|] eqn:Hloop;
      [done|].
    pose proof (for_each_inv (DeleteOutput resultID) _ st1
                  (keeps_DeleteOutput shrinks shrinks_Delete resultID) Hloop)
      as Hinv.
    remember (snd (for_each (DeleteOutput resultID) _ st1)) as st2 eqn:Hst2.
    rewrite bind_eq in Hbody. simpl in Hbody.
    injection Hbody as Herr Hst'.
    apply handleNotExistsError_None in Herr.
    split.
    - intros key data Hlookup.
      assert (shrinks st2 st') as Hshr2.
      { subst st'. apply shrinks_Delete. }
      assert (shrinks st st2) as Hshr02.
      { etrans; [exact Hshr1|]. subst st2.
        apply (keeps_for_each shrinks). apply keeps_DeleteOutput; [apply _|].
        apply shrinks_Delete. }
      pose proof (shrinks_lookup_Some _ _ _ _ Hshr2 Hlookup) as Hlookup2.
      pose proof (shrinks_lookup_Some _ _ _ _ Hshr02 Hlookup2) as Hlookup0.
      destruct (Hkeyed _ _ _ Hlookup0) as [outputName ->].
      destruct (Hinv outputName) as (st3 & _ & Hdel & Hafter).
      { apply Strings_elem_of. apply list_elem_of_fmap.
        exists (outputKey resultID outputName). split.
        - unfold outputKey.
          by rewrite append_assoc, TrimPrefix_app.
        - apply elem_of_group_keys. eauto. }
      apply DeleteOutput_run in Hdel.
      pose proof (shrinks_lookup_None _ _ _ Hafter Hdel) as Hnone.
      subst st2. congruence.
    - subst st'. by apply Delete_gone. }
  destruct Hdata as [Hitems _]. destruct Hpost as [Hgone Hres]. split.
  - intros key data. rewrite Hitems. apply Hgone.
  - by rewrite Hitems.
Qed.

Lemma gone_shrinks kind group st st' :
  shrinks st st' → gone kind group st → gone kind group st'.
Proof.
  intros Hshr Hgone key data Hlookup.
  eapply Hgone, shrinks_lookup_Some; done.
Qed.

Lemma shrinks_DeleteResult resultID : keeps shrinks (DeleteResult resultID).
Proof. apply keeps_DeleteResult; [apply _|apply shrinks_Delete]. Qed.

Lemma shrinks_DeleteClaim claimID : keeps shrinks (DeleteClaim claimID).
Proof. apply keeps_DeleteClaim; [apply _|apply shrinks_Delete]. Qed.

(** After [DeleteClaim]: no result of the claim, no output of a result that
    the claim had, and not the claim. *)
Lemma DeleteClaim_post claimID st :
  outputs_keyed st →
  fst (DeleteClaim claimID st) = None →
  gone ItemTypeResults claimID (snd (DeleteClaim claimID st))
  ∧ (∀ resultID,
       resultID ∈ (group_records ItemTypeResults claimID st).*1 →
       gone ItemTypeOutputs resultID (snd (DeleteClaim claimID st)))
  ∧ items (snd (DeleteClaim claimID st)) !! (ItemTypeClaims, claimID) = None.
Proof.
  intros Hkeyed. unfold DeleteClaim.
  match goal with |- fst (with_connect _ ?body _) = _ → _ =>
    assert (stable body) as Hstable by stable_tac;
    destruct (with_connect_data Some body st Hstable) as [-> Hdata];
    destruct (body st) as [err st'] eqn:Hbody
  end.
  simpl in *. intros ->. clear Hstable.
  assert (gone ItemTypeResults claimID st'
          ∧ (∀ resultID,
               resultID ∈ (group_records ItemTypeResults claimID st).*1 →
               gone ItemTypeOutputs resultID st')
          ∧ items st' !! (ItemTypeClaims, claimID) = None) as Hpost.
  { rewrite bind_eq, ListResults_fst in Hbody.
    remember (snd (ListResults claimID st)) as st1 eqn:Hst1.
    assert (shrinks st st1) as Hshr1.
    { subst st1. apply (keeps_ListResults shrinks). }
    rewrite bind_eq in Hbody.
    destruct (fst (for_each DeleteResult _ st1)) as [e|] eqn:Hloop; [done|].
    pose proof (for_each_inv DeleteResult _ st1 shrinks_DeleteResult Hloop)
      as Hinv.
    remember (snd (for_each DeleteResult _ st1)) as st2 eqn:Hst2.
    rewrite bind_eq in Hbody. simpl in Hbody.
    injection Hbody as Herr Hst'.
    apply handleNotExistsError_None in Herr.
    assert (shrinks st2 st') as Hshr2.
    { subst st'. apply shrinks_Delete. }
    assert (∀ resultID,
              resultID ∈ (group_records ItemTypeResults claimID st).*1 →
              gone ItemTypeOutputs resultID st'
              ∧ items st' !! (ItemTypeResults, resultID) = None) as Heach.
    { intros resultID Hin.
      destruct (Hinv resultID) as (st3 & Hshr3 & Hdel & Hafter).
      { by apply Strings_elem_of. }
      destruct (DeleteResult_post resultID st3) as [Hgone Hnone]; [|done|].
      { eapply outputs_keyed_shrinks; [|exact Hkeyed]. by etrans. }
      assert (shrinks (snd (DeleteResult resultID st3)) st') as Hto.
      { etrans; [|exact Hshr2]. by subst st2. }
      split.
      - by eapply gone_shrinks.
      - by eapply shrinks_lookup_None. }
    split; [|split].
    - intros key data Hlookup.
      assert (shrinks st st') as Hshr.
      { etrans; [exact Hshr1|]. etrans; [|exact Hshr2]. subst st2.
        apply (keeps_for_each shrinks), shrinks_DeleteResult. }
      pose proof (shrinks_lookup_Some _ _ _ _ Hshr Hlookup) as Hlookup0.
      destruct (Heach key) as [_ Hnone].
      { apply elem_of_group_keys. eauto. }
      congruence.
    - intros resultID Hin. by apply Heach.
    - subst st'. by apply Delete_gone. }
  destruct Hdata as [Hitems _]. destruct Hpost as (Hgone & Hout & Hclaim).
  split; [|split].
  - intros key data. rewrite Hitems. apply Hgone.
  - intros resultID Hin key data. rewrite Hitems. by apply Hout.
  - by rewrite Hitems.
Qed.

(** *** What a delete does not take *)

Lemma removes_refl P st : removes P st st.
Proof. split; [reflexivity|]. intros k v Hk Hk'. congruence. Qed.

Lemma removes_trans P st1 st2 st3 :
  removes P st1 st2 → removes P st2 st3 → removes P st1 st3.
Proof.
  intros [Hs12 H12] [Hs23 H23]. split; [by etrans|].
  intros k v Hk Hk3. destruct (items st2 !! k) as [v2|] eqn:Hk2.
  - pose proof (shrinks_lookup_Some _ _ _ _ Hs12 Hk2) as Hk1.
    rewrite Hk in Hk1. injection Hk1 as ->. by eapply H23.
  - by eapply H12.
Qed.

Lemma removes_mono (P Q : string * string → string * bytes → Prop) st st' :
  (∀ k v, P k v → Q k v) → removes P st st' → removes Q st st'.
Proof. intros HPQ [Hs HP]. split; [done|]. intros k v Hk Hk'. eauto. Qed.

Lemma removes_same_data_r P st st' st'' :
  removes P st st' → same_data st' st'' → removes P st st''.
Proof.
  intros [Hs HP] Hd. split; [by eapply shrinks_same_data|].
  destruct Hd as [Hi _]. intros k v Hk Hk'. rewrite <- Hi in Hk'. eauto.
Qed.

Lemma removes_same_data_l P st st' st'' :
  same_data st st' → removes P st' st'' → removes P st st''.
Proof.
  intros [Hi Hf] [[Hs Hf'] HP]. split; [split; [by rewrite Hi|congruence]|].
  intros k v Hk Hk'. rewrite Hi in Hk. eauto.
Qed.

Lemma removes_read {A} P (m : M BackingStore A) st :
  keeps same_data m → removes P st (snd (m st)).
Proof.
  intros Hm. eapply removes_same_data_r; [apply removes_refl|apply Hm].
Qed.

Lemma removes_Delete (P : string * string → string * bytes → Prop) kind key st :
  (∀ v, items st !! (kind, key) = Some v → P (kind, key) v) →
  removes P st (snd (crud.Delete kind key st)).
Proof.
  intros HP. split; [apply shrinks_Delete|].
  pose proof (Delete_run kind key st) as [Hrun _].
  intros k v Hk Hk'.
  destruct (items st !! (kind, key)) as [v0|] eqn:Hkey;
    destruct Hrun as [_ Hitems]; rewrite Hitems in Hk'.
  - destruct (decide (k = (kind, key))) as [->|Hne].
    + apply HP. congruence.
    + rewrite lookup_delete_ne in Hk' by done. congruence.
  - congruence.
Qed.

Lemma for_each_removes {A} (Q : A → string * string → string * bytes → Prop)
    (body : A → M BackingStore (option error)) l st :
  (∀ x, x ∈ l → ∀ st1, shrinks st st1 → removes (Q x) st1 (snd (body x st1))) →
  removes (λ k v, ∃ x, x ∈ l ∧ Q x k v) st (snd (for_each body l st)).
Proof.
  revert st. induction l as [|y l IH]; intros st Hbody.
  { apply removes_refl. }
  simpl. rewrite bind_eq.
  assert (removes (λ k v, ∃ x, x ∈ y :: l ∧ Q x k v) st (snd (body y st)))
    as Hy.
  { eapply removes_mono; [|apply Hbody; [left|reflexivity]].
    intros k v HQ. exists y. split; [left|done]. }
  destruct (fst (body y st)) as [e|]; [done|].
  eapply removes_trans; [exact Hy|].
  eapply removes_mono; [|apply IH].
  - intros k v (x & Hx & HQ). exists x. split; [by right|done].
  - intros x Hx st1 Hst1. apply Hbody; [by right|].
    etrans; [|exact Hst1]. apply Hy.
Qed.

Lemma for_each_app {A} (body : A → M BackingStore (option error)) l1 l2 st :
  for_each body (l1 ++ l2) st
  = match fst (for_each body l1 st) with
    | Some e => (Some e, snd (for_each body l1 st))
    | None => for_each body l2 (snd (for_each body l1 st))
    end.
Proof.
  revert st. induction l1 as [|x l1 IH]; intros st; [done|].
  simpl. rewrite !bind_eq.
  destruct (fst (body x st)) as [e|]; [done|]. apply IH.
Qed.

Lemma removes_DeleteOutput claimID resultID outputName st :
  removes (of_claim claimID) st (snd (DeleteOutput resultID outputName st)).
Proof.
  unfold DeleteOutput. rewrite bind_eq. simpl snd.
  apply removes_Delete. intros v _ Hkind. done.
Qed.

Lemma removes_DeleteResult claimID resultID st :
  (∀ v, items st !! (ItemTypeResults, resultID) = Some v → v.1 = claimID) →
  removes (of_claim claimID) st (snd (DeleteResult resultID st)).
Proof.
  intros Hrecord. unfold DeleteResult.
  match goal with |- removes _ _ (snd (with_connect _ ?body _)) =>
    assert (stable body) as Hstable by stable_tac;
    destruct (with_connect_data Some body st Hstable) as [_ Hdata]
  end.
  eapply removes_same_data_r; [|symmetry; exact Hdata]. clear Hdata Hstable.
  rewrite bind_eq.
  assert (removes (of_claim claimID) st (snd (ListOutputs resultID st))) as H1.
  { apply removes_read. apply keeps_ListOutputs. apply _. }
  destruct (ListOutputs resultID st) as [[names [e|]] st1]; simpl in *; [done|].
  rewrite bind_eq.
  assert (removes (of_claim claimID) st
            (snd (for_each (DeleteOutput resultID) names st1))) as H2.
  { eapply removes_trans; [exact H1|].
    eapply removes_mono; [|apply (for_each_removes (λ _, of_claim claimID))].
    - by intros k v (_ & _ & HQ).
    - intros x _ st2 _. apply removes_DeleteOutput. }
  destruct (for_each (DeleteOutput resultID) names st1) as [[e|] st2];
    simpl in *; [done|].
  rewrite bind_eq. simpl snd.
  eapply removes_trans; [exact H2|]. apply removes_Delete.
  intros v Hv _. apply Hrecord. eapply shrinks_lookup_Some; [apply H2|done].
Qed.

Lemma removes_DeleteClaim claimID st :
  removes (of_claim claimID) st (snd (DeleteClaim claimID st)).
Proof.
  unfold DeleteClaim.
  match goal with |- removes _ _ (snd (with_connect _ ?body _)) =>
    assert (stable body) as Hstable by stable_tac;
    destruct (with_connect_data Some body st Hstable) as [_ Hdata]
  end.
  eapply removes_same_data_r; [|symmetry; exact Hdata]. clear Hdata Hstable.
  rewrite bind_eq.
  assert (removes (of_claim claimID) st (snd (ListResults claimID st))) as H1.
  { apply removes_read. apply keeps_ListResults. apply _. }
  pose proof (ListResults_fst claimID st) as Hnames.
  destruct (ListResults claimID st) as [[names err] st1]; simpl in *.
  injection Hnames as -> ->.
  rewrite bind_eq.
  assert (removes (of_claim claimID) st
            (snd (for_each DeleteResult
                    (sort.Strings (group_records ItemTypeResults claimID st).*1)
                    st1))) as H2.
  { eapply removes_trans; [exact H1|].
    eapply removes_mono; [|apply (for_each_removes (λ _, of_claim claimID))].
    - by intros k v (_ & _ & HQ).
    - intros resultID Hin st2 Hst2. apply removes_DeleteResult.
      intros v Hv. apply Strings_elem_of, elem_of_group_keys in Hin as [d Hd].
      assert (shrinks st st2) as Hshr by (etrans; [apply H1|done]).
      pose proof (shrinks_lookup_Some _ _ _ _ Hshr Hv) as Hv0.
      rewrite Hd in Hv0. by injection Hv0 as <-. }
  destruct (for_each DeleteResult _ st1) as [[e|] st2]; simpl in *; [done|].
  rewrite bind_eq. simpl snd.
  eapply removes_trans; [exact H2|]. apply removes_Delete.
  intros v _ Hkind. done.
Qed.

Variable s : Store.

(** C5. After [DeleteInstallation] has succeeded on a store whose output
    records are keyed by their result, the installation had a claim, and the
    store has no claim of the installation, no result of a claim that the
    installation had, no output of a result that such a claim had, and no
    record of the installation; [ReadLastClaim] then answers
    [ErrInstallationNotFound]. *)
Theorem C5_cascading_delete (installation : string) (st st' : BackingStore) :
  outputs_keyed st →
  DeleteInstallation installation st = (None, st') →
  (group_records ItemTypeClaims installation st).*1 ≠ []
  ∧ gone ItemTypeClaims installation st'
  ∧ (∀ claimID,
       claimID ∈ (group_records ItemTypeClaims installation st).*1 →
       gone ItemTypeResults claimID st'
       ∧ ∀ resultID,
           resultID ∈ (group_records ItemTypeResults claimID st).*1 →
           gone ItemTypeOutputs resultID st')
  ∧ items st' !! (ItemTypeInstallations, installation) = None
  ∧ fst (ReadLastClaim s installation st')
    = (zero_Claim, Some "Installation does not exist").
Proof.
  intros Hkeyed Hdelete. unfold DeleteInstallation in Hdelete.
  match type of Hdelete with with_connect _ ?body _ = _ =>
    assert (stable body) as Hstable by stable_tac;
    destruct (with_connect_data Some body st Hstable) as [Hfst Hdata];
    destruct (body st) as [err st0] eqn:Hbody
  end.
  rewrite Hdelete in Hfst, Hdata. simpl in Hfst, Hdata. subst err.
  clear Hstable Hdelete.
  rewrite bind_eq, ListClaims_fst in Hbody.
  case_decide as Hne; [done|]. split; [done|].
  remember (snd (ListClaims installation st)) as st1 eqn:Hst1.
  assert (same_data st st1) as Hsame1.
  { subst st1. apply (keeps_ListClaims same_data). }
  assert (shrinks st st1) as Hshr1.
  { subst st1. apply (keeps_ListClaims shrinks). }
  rewrite bind_eq in Hbody.
  destruct (fst (for_each DeleteClaim _ st1)) as [e|] eqn:Hloop; [done|].
  remember (snd (for_each DeleteClaim _ st1)) as st2 eqn:Hst2.
  rewrite bind_eq in Hbody. simpl in Hbody.
  injection Hbody as Herr Hst0.
  apply handleNotExistsError_None in Herr.
  assert (shrinks st2 st0) as Hshr2.
  { subst st0. apply shrinks_Delete. }
  assert (shrinks st st0) as Hshr.
  { etrans; [exact Hshr1|]. etrans; [|exact Hshr2]. subst st2.
    apply (keeps_for_each shrinks), shrinks_DeleteClaim. }
  assert (∀ claimID,
            claimID ∈ (group_records ItemTypeClaims installation st).*1 →
            (gone ItemTypeResults claimID st0
             ∧ ∀ resultID,
                 resultID ∈ (group_records ItemTypeResults claimID st).*1 →
                 gone ItemTypeOutputs resultID st0)
            ∧ items st0 !! (ItemTypeClaims, claimID) = None) as Heach.
  { intros claimID Hin.
    apply Strings_elem_of, list_elem_of_split in Hin as (l1 & l2 & Hl).
    assert (claimID ∉ l1) as Hnotin.
    { pose proof (group_keys_NoDup ItemTypeClaims installation st) as Hnd.
      rewrite <- (Strings_Permutation _), Hl in Hnd.
      apply NoDup_app in Hnd as (_ & Hdisj & _).
      intros Hin1. apply (Hdisj _ Hin1). left. }
    rewrite Hl, for_each_app in Hloop, Hst2.
    pose proof (for_each_removes (λ c, of_claim c) DeleteClaim l1 st1
                  (λ c _ st3 _, removes_DeleteClaim c st3)) as Hrem.
    destruct (for_each DeleteClaim l1 st1) as [[e|] st3]; simpl in *; [done|].
    rewrite bind_eq in Hloop, Hst2.
    destruct (fst (DeleteClaim claimID st3)) as [e|] eqn:Hdel; [done|].
    assert (shrinks st st3) as Hshr3 by (etrans; [exact Hshr1|apply Hrem]).
    destruct (DeleteClaim_post claimID st3) as (Hgone & Hout & Hnone); [|done|].
    { by eapply outputs_keyed_shrinks. }
    assert (shrinks (snd (DeleteClaim claimID st3)) st0) as Hto.
    { etrans; [|exact Hshr2]. subst st2.
      apply (keeps_for_each shrinks), shrinks_DeleteClaim. }
    split; [split|].
    - by eapply gone_shrinks.
    - intros resultID Hres. eapply gone_shrinks; [exact Hto|].
      apply Hout. apply elem_of_group_keys in Hres as [d Hd].
      apply elem_of_group_keys. exists d.
      destruct (items st3 !! (ItemTypeResults, resultID)) as [v|] eqn:Hv.
      + pose proof (shrinks_lookup_Some _ _ _ _ Hshr3 Hv). congruence.
      + exfalso. destruct Hsame1 as [Hi1 _]. rewrite Hi1 in Hd.
        destruct Hrem as [_ Hrem].
        destruct (Hrem _ _ Hd Hv) as (c & Hc & Hof).
        specialize (Hof eq_refl). simpl in Hof. congruence.
    - by eapply shrinks_lookup_None. }
  assert (gone ItemTypeClaims installation st0) as Hgone.
  { intros key data Hlookup.
    pose proof (shrinks_lookup_Some _ _ _ _ Hshr Hlookup) as Hlookup0.
    destruct (Heach key) as [_ Hnone].
    { apply elem_of_group_keys. eauto. }
    congruence. }
  destruct Hdata as [Hitems _].
  split; [|split; [|split]].
  - intros key data. rewrite Hitems. apply Hgone.
  - intros claimID Hin. destruct (Heach claimID Hin) as [[Hres Hout] _]. split.
    + intros key data. rewrite Hitems. apply Hres.
    + intros resultID Hrid key data. rewrite Hitems. by apply Hout.
  - rewrite Hitems. subst st0. by apply Delete_gone.
  - rewrite ReadLastClaim_fst.
    assert (group_records ItemTypeClaims installation st' = []) as ->.
    { apply gone_group_records. intros key data. rewrite Hitems. apply Hgone. }
    done.
Qed.

End cascade.

(** ** C8: connections *)

Section connections.
Context `{Env}.
Variable s : Store.











End connections.

(** ** The container of outputs *)

Section container.

Lemma length_sink_in x before : length (sink_in x before) = S (length before).
Proof.
  induction before as [|y before IH]; simpl; [done|].
  destruct (String.ltb _ _); simpl; by rewrite ?IH.
Qed.

Lemma sink_in_Permutation x before : sink_in x before ≡ₚ x :: before.
Proof.
  induction before as [|y before IH]; simpl; [done|].
  destruct (String.ltb _ _); [|done]. rewrite IH. apply Permutation_swap.
Qed.

Lemma Swap_indexed o j x y before suf :
  Outputs_vals o = reverse before ++ y :: x :: suf →
  j = length before →
  indexed o →
  Outputs_vals (Outputs_Swap o (S j) j) = reverse before ++ x :: y :: suf
  ∧ indexed (Outputs_Swap o (S j) j).
Proof.
  intros Hvals -> [Hnd Hkeys].
  assert (Outputs_vals o !! length before = Some y) as Hy.
  { rewrite Hvals. rewrite lookup_app_r by (by rewrite length_reverse).
    by rewrite length_reverse, Nat.sub_diag. }
  assert (Outputs_vals o !! S (length before) = Some x) as Hx.
  { rewrite Hvals. rewrite lookup_app_r by (rewrite length_reverse; lia).
    rewrite length_reverse. by replace (S (length before) - length before) with 1 by lia. }
  unfold Outputs_Swap. rewrite Hx, Hy. simpl.
  assert (<[length before:=x]> (<[S (length before):=y]> (Outputs_vals o))
          = reverse before ++ x :: y :: suf) as Hvals'.
  { rewrite Hvals.
    rewrite (insert_app_r_alt _ _ (S (length before)))
      by (rewrite length_reverse; lia).
    rewrite length_reverse.
    replace (S (length before) - length before) with 1 by lia. simpl.
    rewrite (insert_app_r_alt _ _ (length before))
      by (by rewrite length_reverse).
    by rewrite length_reverse, Nat.sub_diag. }
  split; [done|]. rewrite Hvals'. split.
  - simpl. rewrite Hvals in Hnd. rewrite fmap_app, !fmap_cons in Hnd |- *.
    by rewrite (Permutation_swap (Output_Name x) (Output_Name y)) in Hnd.
  - assert (Output_Name x ≠ Output_Name y) as Hxy.
    { intros Heq. rewrite Hvals in Hnd. revert Hnd.
      rewrite !fmap_app, !fmap_cons. intros Hnd.
      apply NoDup_app in Hnd as (_ & _ & Hnd).
      apply NoDup_cons in Hnd as [Hnotin _]. apply Hnotin. rewrite Heq. left. }
    simpl. intros i out Hi.
    destruct (decide (i = length before)) as [->|Hne1].
    { rewrite lookup_app_r in Hi by (by rewrite length_reverse).
      rewrite length_reverse, Nat.sub_diag in Hi. injection Hi as <-.
      rewrite lookup_insert_ne by done. apply lookup_insert_eq. }
    destruct (decide (i = S (length before))) as [->|Hne2].
    { rewrite lookup_app_r in Hi by (rewrite length_reverse; lia).
      rewrite length_reverse in Hi.
      replace (S (length before) - length before) with 1 in Hi by lia.
      injection Hi as <-. apply lookup_insert_eq. }
    assert (Outputs_vals o !! i = Some out) as Hi0.
    { rewrite <- Hi, <- Hvals'.
      rewrite !list_lookup_insert_ne by done. done. }
    assert (Output_Name out ≠ Output_Name x) as Hox.
    { intros Heq. apply Hne2.
      eapply NoDup_lookup; [exact Hnd| |].
      - rewrite list_lookup_fmap, Hi0. simpl. done.
      - rewrite list_lookup_fmap, Hx. simpl. by rewrite Heq. }
    assert (Output_Name out ≠ Output_Name y) as Hoy.
    { intros Heq. apply Hne1.
      eapply NoDup_lookup; [exact Hnd| |].
      - rewrite list_lookup_fmap, Hi0. simpl. done.
      - rewrite list_lookup_fmap, Hy. simpl. by rewrite Heq. }
    rewrite !lookup_insert_ne by done. by apply Hkeys.
Qed.

Lemma sink_spec x before suf o :
  Outputs_vals o = reverse before ++ x :: suf →
  indexed o →
  Outputs_vals (Outputs_sink o (length before))
    = reverse (sink_in x before) ++ suf
  ∧ indexed (Outputs_sink o (length before)).
Proof.
  revert o suf. induction before as [|y before IH]; intros o suf Hvals Hidx.
  { simpl. done. }
  simpl length. simpl Outputs_sink.
  rewrite reverse_cons, <- app_assoc in Hvals. simpl in Hvals.
  assert (Outputs_Less o (S (length before)) (length before)
          = String.ltb (Output_Name x) (Output_Name y)) as ->.
  { unfold Outputs_Less. rewrite Hvals.
    rewrite lookup_app_r by (rewrite length_reverse; lia).
    rewrite length_reverse.
    replace (S (length before) - length before) with 1 by lia. simpl.
    rewrite lookup_app_r by (by rewrite length_reverse).
    by rewrite length_reverse, Nat.sub_diag. }
  simpl sink_in. destruct (String.ltb _ _).
  - destruct (Swap_indexed o _ x y before suf Hvals eq_refl Hidx)
      as [Hvals' Hidx'].
    destruct (IH _ _ Hvals' Hidx') as [Hv Hi]. split; [|done].
    rewrite Hv, reverse_cons, <- app_assoc. done.
  - split; [|done]. rewrite Hvals, !reverse_cons, <- !app_assoc. done.
Qed.

Lemma sort_loop rest before o :
  Outputs_vals o = reverse before ++ rest →
  indexed o →
  Outputs_vals (foldl Outputs_sink o (seq (length before) (length rest)))
    = reverse (foldl (λ acc x, sink_in x acc) before rest)
  ∧ indexed (foldl Outputs_sink o (seq (length before) (length rest))).
Proof.
  revert before o. induction rest as [|x rest IH]; intros before o Hvals Hidx.
  { simpl. by rewrite Hvals, app_nil_r. }
  simpl. destruct (sink_spec x before rest o Hvals Hidx) as [Hv Hi].
  specialize (IH (sink_in x before) _ Hv Hi).
  by rewrite length_sink_in in IH.
Qed.

Lemma Outputs_Sort_spec o :
  indexed o →
  Outputs_vals (Outputs_Sort o) = sorted_by_name (Outputs_vals o)
  ∧ indexed (Outputs_Sort o).
Proof.
  intros Hidx. unfold Outputs_Sort, Outputs_Len, sorted_by_name.
  destruct (Outputs_vals o) as [|x rest] eqn:Hvals; [done|].
  simpl. rewrite Nat.sub_0_r.
  apply (sort_loop rest [x] o); done.
Qed.

Lemma sorted_by_name_Permutation outputs : sorted_by_name outputs ≡ₚ outputs.
Proof.
  unfold sorted_by_name. rewrite reverse_Permutation.
  assert (∀ acc, foldl (λ acc x, sink_in x acc) acc outputs ≡ₚ outputs ++ acc)
    as Hgen.
  { induction outputs as [|x outputs IH]; intros acc; simpl; [done|].
    rewrite IH, sink_in_Permutation. by rewrite Permutation_middle. }
  by rewrite Hgen, app_nil_r.
Qed.

Lemma ltb_false_le a b : String.ltb a b = false → String.le b a.
Proof.
  unfold String.ltb, String.le, String.leb. rewrite (String.compare_antisym a b).
  destruct (String.compare b a); simpl; done.
Qed.

Lemma ltb_true_le a b : String.ltb a b = true → String.le a b.
Proof.
  unfold String.ltb, String.le, String.leb.
  destruct (String.compare a b); simpl; done.
Qed.

Lemma sink_in_Sorted x before :
  Sorted name_ge before → Sorted name_ge (sink_in x before).
Proof.
  induction before as [|y before IH]; intros Hs; simpl.
  { by repeat constructor. }
  destruct (String.ltb (Output_Name x) (Output_Name y)) eqn:Hlt.
  - apply Sorted_inv in Hs as [Hs Hhd]. constructor; [by apply IH|].
    destruct before as [|z before]; simpl.
    + constructor. by apply ltb_true_le.
    + destruct (String.ltb (Output_Name x) (Output_Name z)).
      * constructor. by apply HdRel_inv in Hhd.
      * constructor. by apply ltb_true_le.
  - constructor; [done|]. constructor. by apply ltb_false_le.
Qed.

Lemma sorted_by_name_Sorted outputs :
  Sorted (λ a b, String.le (Output_Name a) (Output_Name b))
         (sorted_by_name outputs).
Proof.
  unfold sorted_by_name.
  assert (∀ acc, Sorted name_ge acc →
                 Sorted name_ge (foldl (λ acc x, sink_in x acc) acc outputs))
    as Hgen.
  { induction outputs as [|x outputs IH]; intros acc Hacc; simpl; [done|].
    apply IH. by apply sink_in_Sorted. }
  specialize (Hgen [] (Sorted_nil _)).
  by apply (Sorted_reverse name_ge) in Hgen.
Qed.

Lemma index_keys_notin outputs i keys name :
  name ∉ Output_Name <$> outputs →
  index_keys outputs i keys !! name = keys !! name.
Proof.
  revert i keys. induction outputs as [|out outputs IH]; intros i keys Hnotin;
    simpl; [done|].
  rewrite fmap_cons in Hnotin. apply not_elem_of_cons in Hnotin as [Hne Hnotin].
  rewrite IH by done. by rewrite lookup_insert_ne.
Qed.

Lemma index_keys_lookup outputs k keys i out :
  NoDup (Output_Name <$> outputs) →
  outputs !! i = Some out →
  index_keys outputs k keys !! Output_Name out = Some (k + i).
Proof.
  revert k keys i. induction outputs as [|x outputs IH]; intros k keys i Hnd Hi;
    [done|].
  rewrite fmap_cons in Hnd. apply NoDup_cons in Hnd as [Hnotin Hnd].
  simpl. destruct i as [|i]; simpl in Hi.
  - injection Hi as ->. rewrite index_keys_notin by done.
    rewrite lookup_insert_eq. f_equal. lia.
  - rewrite (IH (S k) _ i) by done. f_equal. lia.
Qed.

(** The container that [NewOutputs] builds from outputs with distinct names:
    its slice is the outputs sorted by name, and its keys find every
    output. *)
Lemma NewOutputs_spec outputs :
  NoDup (Output_Name <$> outputs) →
  Outputs_vals (NewOutputs outputs) = sorted_by_name outputs
  ∧ indexed (NewOutputs outputs).
Proof.
  intros Hnd. unfold NewOutputs.
  apply (Outputs_Sort_spec
           {| Outputs_vals := outputs; Outputs_keys := index_keys outputs 0 ∅ |}).
  split; [done|].
  simpl. intros i out Hi. by rewrite (index_keys_lookup _ 0 ∅ i out).
Qed.

Lemma GetByName_indexed o out :
  indexed o → out ∈ Outputs_vals o → GetByName o (Output_Name out) = (out, true).
Proof.
  intros [_ Hkeys] Hin. apply list_elem_of_lookup in Hin as [i Hi].
  unfold GetByName. by rewrite (Hkeys i out Hi), Hi.
Qed.

End container.

(** ** C3: the last value of every output *)

Section last_outputs.
Context `{Env}.
Variable s : Store.

Lemma decode_claims_Forall2 datas claims :
  decode_claims s datas = (claims, None) → Forall2 (decodes s) datas claims.
Proof.
  revert claims. induction datas as [|data datas IH]; intros claims; simpl.
  { intros [= <-]. constructor. }
  destruct (decrypt s data) as [data' [e|]] eqn:Hdec; [done|].
  destruct (Unmarshal_Claim data') as [c [e|]] eqn:Hun; [done|].
  destruct (decode_claims s datas) as [cs [e|]]; [done|].
  intros [= <-]. constructor; [|by apply IH]. by exists data'.
Qed.

Lemma By_Permutation {A} (key : A → string) (l : list A) : sort.By key l ≡ₚ l.
Proof. apply merge_sort_Permutation. Qed.

Lemma le_key_total {A} (key : A → string) :
  Total (λ a b : A, String.le (key a) (key b)).
Proof. intros a b. apply (total String.le). Qed.

Lemma le_key_refl {A} (key : A → string) :
  Reflexive (λ a b : A, String.le (key a) (key b)).
Proof. intros a. apply (reflexivity (R:=String.le)). Qed.

Lemma le_key_trans {A} (key : A → string) :
  Transitive (λ a b : A, String.le (key a) (key b)).
Proof. intros a b c. apply (transitivity (R:=String.le)). Qed.

Lemma By_sorted {A} (key : A → string) (l : list A) :
  StronglySorted (λ a b, String.le (key a) (key b)) (sort.By key l).
Proof.
  apply (@StronglySorted_merge_sort _ _ _ (le_key_trans key) (le_key_total key)).
Qed.

Lemma ReadAllClaims_success installation st claims :
  fst (ReadAllClaims s installation st) = (claims, None) →
  ∃ cs, Forall2 (decodes s) (group_records ItemTypeClaims installation st).*2 cs
        ∧ claims ≡ₚ cs.
Proof.
  unfold ReadAllClaims. rewrite bind_eq, ReadAll_fst.
  case_decide as Hcase; simpl.
  { by rewrite Contains_refl. }
  case_decide; [done|].
  destruct (decode_claims s _) as [cs [e|]] eqn:Hdecode; [done|].
  simpl. intros [= <-]. exists cs. split.
  - by apply decode_claims_Forall2.
  - apply By_Permutation.
Qed.

Lemma collect_results_fst claims results st0 st :
  same_data st0 st →
  fst (collect_results claims results st)
  = (results
     ++ concat ((λ c, result_of c
                        <$> sort.Strings
                              (group_records ItemTypeResults (Claim_ID c) st0).*1)
                  <$> claims), None).
Proof.
  revert results st.
  induction claims as [|c claims IH]; intros results st Hsame; simpl.
  { by rewrite app_nil_r. }
  rewrite bind_eq, ListResults_fst.
  rewrite IH.
  - rewrite <- app_assoc.
    by rewrite (group_records_same_data _ _ st0 st).
  - etrans; [exact Hsame|]. apply (keeps_ListResults same_data).
Qed.

Lemma scan_outputs_fst results lastOutputs st0 st :
  same_data st0 st →
  fst (scan_outputs "" results lastOutputs st)
  = (foldl (λ m r, note_outputs "" r (output_names (Result_ID r) st0) m)
           lastOutputs results, None).
Proof.
  revert lastOutputs st.
  induction results as [|r results IH]; intros lastOutputs st Hsame; simpl;
    [done|].
  rewrite bind_eq, ListOutputs_fst.
  rewrite IH.
  - unfold output_names. by rewrite (group_records_same_data _ _ st0 st).
  - etrans; [exact Hsame|]. apply (keeps_ListOutputs same_data).
Qed.

Lemma read_outputs_success entries outputs st0 st outs :
  same_data st0 st →
  fst (read_outputs s entries outputs st) = (outs, None) →
  ∃ outs',
    outs = outputs ++ outs'
    ∧ Forall2 (λ entry out,
                 ∃ c, Result_claim entry.2 = Some c
                      ∧ fst (ReadOutput s c entry.2 entry.1 st0) = (out, None))
              entries outs'.
Proof.
  revert outputs st.
  induction entries as [|[name r] entries IH]; intros outputs st Hsame; simpl.
  { intros [= <-]. exists []. split; [by rewrite app_nil_r|constructor]. }
  destruct (Result_claim r) as [c|] eqn:Hc; [|done].
  rewrite bind_eq.
  assert (fst (ReadOutput s c r name st) = fst (ReadOutput s c r name st0))
    as Hread by (symmetry; by apply stable_ReadOutput).
  pose proof (keeps_ReadOutput s same_data c r name st) as Hkeep.
  destruct (ReadOutput s c r name st) as [[out [e|]] st1]; simpl in *; [done|].
  intros Hrest. apply IH in Hrest as (outs' & -> & Hall).
  - exists (out :: outs'). split; [by rewrite <- app_assoc|].
    constructor; [|done]. exists c. simpl. split; [exact Hc|]. by rewrite <- Hread.
  - by etrans.
Qed.

(** The map that the second loop builds: for every name the last result, in
    the order of the list, that has an output of that name. *)
Lemma note_outputs_lookup r names m name :
  note_outputs "" r names m !! name
  = if decide (name ∈ names) then Some r else m !! name.
Proof.
  unfold note_outputs. revert m.
  induction names as [|n names IH]; intros m; simpl; [done|].
  rewrite IH.
  destruct (decide (name ∈ names)) as [Hin|Hnotin].
  - rewrite decide_True by (by right). done.
  - destruct (decide (n = name)) as [->|Hne].
    + rewrite decide_True by left. apply lookup_insert_eq.
    + rewrite decide_False.
      * by rewrite lookup_insert_ne.
      * intros [?|?]%elem_of_cons; done.
Qed.

Lemma scan_lookup (names : Result → list string) results m name :
  foldl (λ m r, note_outputs "" r (names r) m) m results !! name
  = match last (filter (λ r, name ∈ names r) results) with
    | Some r => Some r
    | None => m !! name
    end.
Proof.
  revert m. induction results as [|r results IH]; intros m; simpl; [done|].
  rewrite IH, note_outputs_lookup. rewrite filter_cons.
  destruct (decide (name ∈ names r)) as [Hin|Hnotin]; [|done].
  destruct (filter _ results) as [|r' l] eqn:Hfilter; [done|].
  change (last (r :: r' :: l)) with (last (r' :: l)).
  destruct (last (r' :: l)) eqn:Hlast; [done|]. by apply last_None in Hlast.
Qed.

Lemma elem_of_concat {A} (x : A) (ls : list (list A)) :
  x ∈ concat ls ↔ ∃ l, l ∈ ls ∧ x ∈ l.
Proof.
  induction ls as [|l ls IH]; simpl.
  - split; [by intros ?%elem_of_nil|]. by intros (l & ?%elem_of_nil & _).
  - rewrite elem_of_app, IH. split.
    + intros [Hx|(l' & Hl' & Hx)]; [exists l|exists l'];
        (split; [|done]); [left|by right].
    + intros (l' & [->|Hl']%elem_of_cons & Hx); [by left|right; eauto].
Qed.

Lemma StronglySorted_filter {A} (R : relation A) (P : A → Prop)
    `{∀ x, Decision (P x)} (l : list A) :
  StronglySorted R l → StronglySorted R (filter P l).
Proof.
  induction 1 as [|x l Hl IH Hall]; [constructor|].
  rewrite filter_cons. destruct (decide (P x)); [|done].
  constructor; [done|]. apply Forall_forall. intros y Hy.
  apply list_elem_of_filter in Hy as [_ Hy].
  by eapply Forall_forall in Hall.
Qed.

Lemma ReadOutput_success_name c r outputName st out :
  fst (ReadOutput s c r outputName st) = (out, None) →
  Output_Name out = outputName.
Proof.
  rewrite ReadOutput_fst.
  destruct (items st !! _) as [[g raw]|]; [|done].
  destruct (match bundle.IsOutputSensitive _ _ with
            | (_, Some _) => false
            | (sensitive, None) => sensitive
            end).
  - destruct (decrypt s raw) as [d [e|]]; [done|]. by intros [= <-].
  - by intros [= <-].
Qed.

(** The names that [ListOutputs] finds are the names of the outputs that
    the result has in the store. *)
Lemma elem_of_output_names resultID st outputName :
  outputs_keyed st →
  outputName ∈ output_names resultID st
  ↔ ∃ raw, items st !! (ItemTypeOutputs, outputKey resultID outputName)
           = Some (resultID, raw).
Proof.
  intros Hkeyed. unfold output_names.
  rewrite Strings_elem_of, list_elem_of_fmap. split.
  - intros (key & -> & Hkey). apply elem_of_group_keys in Hkey as [raw Hraw].
    destruct (Hkeyed _ _ _ Hraw) as [name ->].
    exists raw. unfold outputKey in *.
    by rewrite (append_assoc resultID "-" name), TrimPrefix_app.
  - intros [raw Hraw]. exists (outputKey resultID outputName). split.
    + unfold outputKey. by rewrite append_assoc, TrimPrefix_app.
    + apply elem_of_group_keys. eauto.
Qed.

(** C3. When [ReadLastOutputs] succeeds on a store whose claim documents
    carry the id they are stored under and whose output records are keyed by
    their result, the container it returns is sorted by output name, has no
    two entries of the same name, and finds every entry by its position and
    by its name; and for every output name that a result of a claim of the
    installation has an output for, the entry of that name has the value
    stored for the result with the greatest id among the results that have
    an output of that name, decrypted when the bundle of the claim of that
    result marks the output as sensitive. *)
Theorem C3_last_outputs (installation : string) (st st' : BackingStore)
    (outs : Outputs) :
  claims_keyed s installation st →
  outputs_keyed st →
  ReadLastOutputs s installation st = ((outs, None), st') →
  Sorted (λ a b, String.le (Output_Name a) (Output_Name b)) (Outputs_vals outs)
  ∧ NoDup (Output_Name <$> Outputs_vals outs)
  ∧ (∀ i out, Outputs_vals outs !! i = Some out →
              GetByIndex outs (Z.of_nat i) = (out, true)
              ∧ GetByName outs (Output_Name out) = (out, true))
  ∧ ∀ outputName resultID,
      wrote installation st outputName resultID →
      ∃ out lastID c data data' raw,
        GetByName outs outputName = (out, true)
        ∧ Output_Name out = outputName
        ∧ wrote installation st outputName lastID
        ∧ (∀ other, wrote installation st outputName other →
                    String.le other lastID)
        ∧ items st !! (ItemTypeClaims, Claim_ID c) = Some (installation, data)
        ∧ decodes s data c
        ∧ items st !! (ItemTypeResults, lastID) = Some (Claim_ID c, data')
        ∧ items st !! (ItemTypeOutputs, outputKey lastID outputName)
          = Some (lastID, raw)
        ∧ (¬ marked (Claim_Bundle c) outputName → Output_Value out = raw)
        ∧ (marked (Claim_Bundle c) outputName →
           decrypt s raw = (Output_Value out, None)).
Proof.
  intros Hclaims Hkeyed Hread. unfold ReadLastOutputs in Hread.
  destruct (with_connect_data (λ e, (zero_Outputs, Some e))
              (readLastOutputs s installation "") st
              (stable_readLastOutputs s installation "")) as [Hfst _].
  rewrite Hread in Hfst. simpl in Hfst. symmetry in Hfst. clear Hread st'.
  unfold readLastOutputs in Hfst. rewrite bind_eq in Hfst.
  pose proof (keeps_ReadAllClaims s same_data installation st) as Hsame1.
  destruct (ReadAllClaims s installation st) as [[claims err] st1] eqn:Hall.
  simpl in Hfst, Hsame1. destruct err as [e|]; [done|].
  assert (fst (ReadAllClaims s installation st) = (claims, None)) as Hall'
    by (by rewrite Hall).
  apply ReadAllClaims_success in Hall' as (cs & Hdecoded & Hperm).
  clear Hall.
  rewrite bind_eq in Hfst.
  pose proof (collect_results_fst claims [] st st1 Hsame1) as Hcollect.
  pose proof (keeps_collect_results same_data claims [] st1) as Hsame2.
  destruct (collect_results claims [] st1) as [[results err] st2].
  simpl in Hcollect, Hsame2, Hfst. injection Hcollect as -> ->.
  rewrite bind_eq in Hfst.
  set (results := concat _) in *.
  assert (same_data st st2) as Hsame02 by (by etrans).
  pose proof (scan_outputs_fst (sort.By Result_ID results) ∅ st st2 Hsame02)
    as Hscan.
  pose proof (keeps_scan_outputs same_data ""
                (sort.By Result_ID results) ∅ st2) as Hsame3.
  destruct (scan_outputs "" (sort.By Result_ID results) ∅ st2)
    as [[lastOutputs err] st3].
  simpl in Hscan, Hsame3, Hfst. injection Hscan as -> ->.
  rewrite bind_eq in Hfst.
  set (lastOutputs := foldl _ _ _) in *.
  assert (same_data st st3) as Hsame03 by (by etrans).
  destruct (read_outputs s (map_to_list lastOutputs) [] st3)
    as [[outputs err] st4] eqn:Hreads.
  simpl in Hfst. destruct err as [e|]; [done|]. injection Hfst as <-.
  assert (fst (read_outputs s (map_to_list lastOutputs) [] st3)
          = (outputs, None)) as Hreads' by (by rewrite Hreads).
  apply (read_outputs_success _ _ st) in Hreads' as (outs' & Houts & Hentries);
    [|done].
  simpl in Houts. subst outs'. clear Hreads.
  (* the names of the outputs read are the names of the map *)
  assert (Output_Name <$> outputs = (map_to_list lastOutputs).*1) as Hnames.
  { clear -Hentries. induction Hentries as [|[name r] out entries outs Hone _ IH];
      [done|].
    rewrite !fmap_cons, IH. simpl. f_equal. destruct Hone as (c & _ & Hone).
    by apply ReadOutput_success_name in Hone. }
  assert (NoDup (Output_Name <$> outputs)) as Hnd.
  { rewrite Hnames. apply NoDup_fst_map_to_list. }
  destruct (NewOutputs_spec outputs Hnd) as [Hvals Hidx].
  split; [|split; [|split]].
  - rewrite Hvals. apply sorted_by_name_Sorted.
  - apply Hidx.
  - intros i out Hi. split.
    + unfold GetByIndex. rewrite decide_False by lia.
      by rewrite Nat2Z.id, Hi.
    + apply GetByName_indexed; [done|]. by eapply list_elem_of_lookup_2.
  - intros outputName resultID Hwrote.
    (* every result that wrote the name is in the list of results *)
    assert (∀ other, wrote installation st outputName other →
              ∃ c, c ∈ claims ∧ result_of c other ∈ results
                   ∧ outputName ∈ output_names other st) as Hlisted.
    { intros other (claimID & data & data' & raw & Hc & Hr & Ho).
      assert (data ∈ (group_records ItemTypeClaims installation st).*2) as Hin.
      { apply list_elem_of_fmap. exists (claimID, data). split; [done|].
        by apply elem_of_group_records. }
      apply list_elem_of_lookup in Hin as [i Hi].
      destruct (Forall2_lookup_l _ _ _ _ _ Hdecoded Hi) as (c & Hci & Hdec).
      pose proof (Hclaims _ _ _ Hc Hdec) as Hid.
      exists c. split; [|split].
      - rewrite Hperm. by eapply list_elem_of_lookup_2.
      - apply elem_of_concat.
        exists (result_of c
                  <$> sort.Strings
                        (group_records ItemTypeResults (Claim_ID c) st).*1).
        split.
        + apply list_elem_of_fmap. exists c. split; [done|].
          rewrite Hperm. by eapply list_elem_of_lookup_2.
        + apply list_elem_of_fmap. exists other. split; [done|].
          apply Strings_elem_of, elem_of_group_keys. rewrite Hid. eauto.
      - apply elem_of_output_names; eauto. }
    (* the map holds the last result that lists the name *)
    pose proof (scan_lookup (λ r, output_names (Result_ID r) st)
                  (sort.By Result_ID results) ∅ outputName) as Hlookup.
    fold lastOutputs in Hlookup.
    set (writers := filter (λ r, outputName ∈ output_names (Result_ID r) st)
                      (sort.By Result_ID results)) in *.
    assert (StronglySorted (λ a b, String.le (Result_ID a) (Result_ID b))
              writers) as Hsorted.
    { apply StronglySorted_filter, By_sorted. }
    assert (∀ other, wrote installation st outputName other →
              ∃ c, result_of c other ∈ writers) as Hwriters.
    { intros other Hother. destruct (Hlisted other Hother) as (c & _ & Hin & Hn).
      exists c. apply list_elem_of_filter. split; [done|].
      by rewrite By_Permutation. }
    destruct (last writers) as [rl|] eqn:Hlast; last first.
    { apply last_None in Hlast. destruct (Hwriters _ Hwrote) as [c Hc].
      rewrite Hlast in Hc. by apply elem_of_nil in Hc. }
    pose proof (last_Some_elem_of _ _ Hlast) as Hrl.
    apply list_elem_of_filter in Hrl as [Hrl_names Hrl].
    rewrite By_Permutation in Hrl.
    apply elem_of_concat in Hrl as (l & Hl & Hrl).
    apply list_elem_of_fmap in Hl as (c & -> & Hc).
    apply list_elem_of_fmap in Hrl as (lastID & -> & HlastID).
    simpl in Hrl_names.
    apply Strings_elem_of, elem_of_group_keys in HlastID as [data' Hresult].
    apply (elem_of_output_names _ _ _ Hkeyed) in Hrl_names as [raw Hraw].
    (* the claim of the last result *)
    rewrite Hperm in Hc. apply list_elem_of_lookup in Hc as [i Hci].
    destruct (Forall2_lookup_r _ _ _ _ _ Hdecoded Hci) as (data & Hdi & Hdec).
    apply list_elem_of_lookup_2, list_elem_of_fmap in Hdi
      as ([claimID data0] & Heq & Hrecord).
    simpl in Heq. subst data0. apply elem_of_group_records in Hrecord.
    pose proof (Hclaims _ _ _ Hrecord Hdec) as Hid. subst claimID.
    (* the output read for the name *)
    assert ((outputName, result_of c lastID) ∈ map_to_list lastOutputs) as Hentry.
    { apply elem_of_map_to_list. exact Hlookup. }
    apply list_elem_of_lookup in Hentry as [j Hj].
    destruct (Forall2_lookup_l _ _ _ _ _ Hentries Hj) as (out & Hout & Hone).
    destruct Hone as (c' & Hc' & Hone). simpl in Hc', Hone.
    injection Hc' as <-.
    pose proof (ReadOutput_success_name _ _ _ _ _ Hone) as Hname.
    exists out, lastID, c, data, data', raw.
    split; [|split; [done|split; [|split; [|split; [done|split; [done|
      split; [done|split; [done|]]]]]]]].
    + rewrite <- Hname. apply GetByName_indexed; [done|].
      rewrite Hvals, sorted_by_name_Permutation.
      by eapply list_elem_of_lookup_2.
    + exists (Claim_ID c), data, data', raw. done.
    + intros other Hother. destruct (Hwriters other Hother) as [c' Hin].
      apply (@StronglySorted_last _ _ (le_key_refl Result_ID) writers
               (result_of c' other) (result_of c lastID) Hsorted Hlast Hin).
    + rewrite ReadOutput_fst in Hone. simpl in Hone. rewrite Hraw in Hone.
      split; intros Hm.
      * rewrite (sensitive_not_marked _ _ Hm) in Hone. by injection Hone as <-.
      * rewrite (sensitive_marked _ _ Hm) in Hone.
        destruct (decrypt s raw) as [d [e|]]; [done|]. by injection Hone as <-.
Qed.

End last_outputs.

(** ** The checks decide the shape of a store *)

Lemma check_records_sound P st kind key group data :
  check_records P st = true →
  items st !! (kind, key) = Some (group, data) →
  P kind key group data = true.
Proof.
  unfold check_records. rewrite forallb_forall. intros Hall Hlookup.
  apply (Hall ((kind, key), (group, data))).
  apply list_elem_of_In. by apply elem_of_map_to_list.
Qed.

Lemma strip_Some prefix s rest :
  strings.strip prefix s = Some rest → s = prefix +:+ rest.
Proof.
  revert s. induction prefix as [|a prefix IH]; intros s; simpl.
  { by intros [= ->]. }
  destruct s as [|b s]; [done|].
  destruct (Ascii.eqb a b) eqn:Hab; [|done].
  apply Ascii.eqb_eq in Hab as ->. intros Hstrip.
  change (String b s = String b (prefix +:+ rest)). f_equal. by apply IH.
Qed.

Lemma outputs_keyed_b_sound st : outputs_keyed_b st = true → outputs_keyed st.
Proof.
  intros Hcheck key group data Hlookup.
  pose proof (check_records_sound _ _ _ _ _ _ Hcheck Hlookup) as Hp.
  cbv beta in Hp. rewrite decide_True in Hp by done.
  unfold strings.HasPrefix in Hp.
  destruct (strings.strip (group +:+ "-") key) as [rest|] eqn:Hstrip; [|done].
  exists rest. apply strip_Some in Hstrip. unfold outputKey.
  by rewrite append_assoc.
Qed.

Section checks.
Context `{Env}.
Variable s : Store.

Lemma claims_keyed_b_sound installation st :
  claims_keyed_b s installation st = true → claims_keyed s installation st.
Proof.
  intros Hcheck claimID data c Hlookup (data' & Hdec & Hun).
  pose proof (check_records_sound _ _ _ _ _ _ Hcheck Hlookup) as Hp.
  cbv beta in Hp. rewrite decide_True in Hp by done.
  rewrite Hdec, Hun in Hp. by apply bool_decide_eq_true in Hp.
Qed.

Lemma saved_claims_b_sound installation st :
  saved_claims_b s installation st = true → saved_claims s installation st.
Proof.
  intros Hcheck id data Hlookup.
  pose proof (check_records_sound _ _ _ _ _ _ Hcheck Hlookup) as Hp.
  cbv beta in Hp. rewrite decide_True in Hp by done.
  destruct (decrypt s data) as [data' [e|]]; [done|].
  destruct (Unmarshal_Claim data') as [c [e|]]; [done|].
  apply bool_decide_eq_true in Hp. by exists c.
Qed.

Lemma saved_results_b_sound claimID st :
  saved_results_b claimID st = true → saved_results claimID st.
Proof.
  intros Hcheck id data Hlookup.
  pose proof (check_records_sound _ _ _ _ _ _ Hcheck Hlookup) as Hp.
  cbv beta in Hp. rewrite decide_True in Hp by done.
  destruct (Unmarshal_Result data) as [r [e|]]; [done|].
  apply bool_decide_eq_true in Hp. by exists r.
Qed.

Lemma wrote_of_groups installation st outputName resultID claimID :
  fst <$> items st !! (ItemTypeClaims, claimID) = Some installation →
  fst <$> items st !! (ItemTypeResults, resultID) = Some claimID →
  fst <$> items st !! (ItemTypeOutputs, outputKey resultID outputName)
    = Some resultID →
  wrote installation st outputName resultID.
Proof.
  intros Hc Hr Ho.
  destruct (items st !! (ItemTypeClaims, claimID)) as [[g1 data]|] eqn:Hcl;
    [|done].
  destruct (items st !! (ItemTypeResults, resultID)) as [[g2 data']|] eqn:Hres;
    [|done].
  destruct (items st !! (ItemTypeOutputs, _)) as [[g3 raw]|] eqn:Hout; [|done].
  simpl in *. injection Hc as ->. injection Hr as ->. injection Ho as ->.
  exists claimID, data, data', raw. done.
Qed.

End checks.

(** ** The test data obeys the laws *)

Section testdata_laws.
Import testdata.

Lemma bytes_to_pos_to_bytes p : bytes_to_pos (pos_to_bytes p) = p.
Proof. induction p as [p IH|p IH|]; simpl; by rewrite ?IH. Qed.

Lemma read_write {B} (zero : B) of_fields fields :
  read zero of_fields (write fields)
  = match of_fields fields with
    | Some x => (x, None)
    | None => (zero, Some "invalid character looking for beginning of value")
    end.
Proof.
  unfold read, write.
  by rewrite bytes_to_pos_to_bytes, positives_unflatten_flatten.
Qed.

Lemma Output_of_number_number o : Output_of_number (Output_number o) = o.
Proof.
  unfold Output_of_number, Output_number.
  rewrite positives_unflatten_flatten. cbn -[decode encode].
  rewrite !decode_encode. cbn. by destruct o.
Qed.

Lemma Bundle_of_number_number b : Bundle_of_number (Bundle_number b) = b.
Proof.
  unfold Bundle_of_number, Bundle_number.
  rewrite positives_unflatten_flatten. cbn -[decode encode].
  rewrite !decode_encode. cbn. destruct b as [n v l o d]. cbn. f_equal.
  - rewrite <- map_fmap_compose. rewrite <- (map_fmap_id o) at 2.
    apply map_fmap_ext. intros k x _. apply Output_of_number_number.
  - rewrite <- map_fmap_compose. rewrite <- (map_fmap_id d) at 2.
    apply map_fmap_ext. intros k x _. by destruct x.
Qed.

Lemma testdata_laws : @JSONLaws env.
Proof.
  split.
  - intros i. cbn -[decode encode read write]. rewrite read_write.
    cbn -[decode encode]. rewrite !decode_encode. cbn.
    by destruct i as [? ? ? ? ? ? ? ? ? ? [] ?].
  - intros c. cbn -[decode encode read write]. rewrite read_write.
    cbn -[decode encode Bundle_of_number Bundle_number].
    rewrite !decode_encode. cbn -[Bundle_of_number Bundle_number].
    rewrite Bundle_of_number_number. by destruct c.
  - intros r. cbn -[decode encode read write]. rewrite read_write.
    cbn -[decode encode]. rewrite !decode_encode. cbn. by destruct r.
Qed.

Lemma sealed_inverse : inverse_handlers sealed.
Proof. intros data. by exists (x23 :: data). Qed.


End testdata_laws.

(** ** The theorems at the test data *)

Section examples.
Import testdata.

Lemma run_eq (m : M BackingStore (option error)) (st : BackingStore) :
  fst (m st) = None → m st = (None, snd (m st)).
Proof. intros Hfst. by apply injective_projections. Defined.

Lemma run_eq2 {A} (m : M BackingStore (A * option error)) (st : BackingStore) :
  snd (fst (m st)) = None → m st = ((fst (fst (m st)), None), snd (m st)).
Proof. destruct (m st) as [[a e] st']. simpl. by intros ->. Defined.



Lemma C3_witness :
  claims_keyed sealed "wordpress" (populated sealed false)
  ∧ outputs_keyed (populated sealed false)
  ∧ snd (fst (ReadLastOutputs sealed "wordpress" (populated sealed false)))
    = None
  ∧ ∃ out lastID,
      GetByName
        (fst (fst (ReadLastOutputs sealed "wordpress" (populated sealed false))))
        "password" = (out, true)
      ∧ wrote "wordpress" (populated sealed false) "password" lastID
      ∧ String.le "01R1" lastID.
Proof.
  assert (claims_keyed sealed "wordpress" (populated sealed false)) as Hclaims.
  { apply claims_keyed_b_sound. vm_compute. reflexivity. }
  assert (outputs_keyed (populated sealed false)) as Hkeyed.
  { apply outputs_keyed_b_sound. vm_compute. reflexivity. }
  assert (snd (fst (ReadLastOutputs sealed "wordpress" (populated sealed false)))
          = None) as Herr by (vm_compute; reflexivity).
  split; [exact Hclaims|]. split; [exact Hkeyed|]. split; [exact Herr|].
  destruct (C3_last_outputs sealed "wordpress" _ _ _ Hclaims Hkeyed
              (run_eq2 (ReadLastOutputs sealed "wordpress") _ Herr))
    as (_ & _ & _ & Hlast).
  destruct (Hlast "password" "01R1") as (out & lastID & c & d & d' & raw & H1).
  { apply (wrote_of_groups "wordpress" _ "password" "01R1" "01C1");
      vm_compute; reflexivity. }
  destruct H1 as (Hget & _ & Hwrote & Hmax & _).
  exists out, lastID. split; [exact Hget|]. split; [exact Hwrote|].
  apply Hmax.
  apply (wrote_of_groups "wordpress" _ "password" "01R1" "01C1");
    vm_compute; reflexivity.
Defined.

Lemma C4_witness :
  inverse_handlers sealed
  ∧ saved_claims sealed "wordpress" (populated sealed false)
  ∧ ∃ c,
      fst (ReadLastClaim sealed "wordpress" (populated sealed false))
        = (with_results c None, None)
      ∧ String.le "01C1" (Claim_ID c).
Proof.
  assert (saved_claims sealed "wordpress" (populated sealed false)) as Hsaved.
  { apply saved_claims_b_sound. vm_compute. reflexivity. }
  split; [exact sealed_inverse|]. split; [exact Hsaved|].
  destruct (proj1 (@C4_last_claim_and_result env sealed testdata_laws
                     (populated sealed false) sealed_inverse) "wordpress")
    as [_ Hlast].
  destruct Hlast as (c & data & _ & _ & Hmax & Hread); [|exact Hsaved|].
  { vm_compute. discriminate. }
  exists c. split; [exact Hread|]. apply Hmax.
  apply (bool_decide_eq_true_1 _). vm_compute. reflexivity.
Defined.

Lemma C5_witness :
  outputs_keyed (populated sealed false)
  ∧ fst (DeleteInstallation "wordpress" (populated sealed false)) = None
  ∧ gone ItemTypeClaims "wordpress"
      (snd (DeleteInstallation "wordpress" (populated sealed false)))
  ∧ fst (ReadLastClaim sealed "wordpress"
           (snd (DeleteInstallation "wordpress" (populated sealed false))))
    = (zero_Claim, Some "Installation does not exist").
Proof.
  assert (outputs_keyed (populated sealed false)) as Hkeyed.
  { apply outputs_keyed_b_sound. vm_compute. reflexivity. }
  assert (fst (DeleteInstallation "wordpress" (populated sealed false)) = None)
    as Hfst by (vm_compute; reflexivity).
  split; [exact Hkeyed|]. split; [exact Hfst|].
  destruct (C5_cascading_delete sealed "wordpress" _ _ Hkeyed
              (run_eq (DeleteInstallation "wordpress") _ Hfst))
    as (_ & Hgone & _ & _ & Hread).
  split; [exact Hgone|exact Hread].
Defined.

Lemma C6_witness :
  strings.Contains "File does not exist" ErrRecordDoesNotExist = true
  ∧ ListResults "01C1" (backing.empty true)
    = (([], None), Close (Connect (backing.empty true)))
  ∧ ReadClaim plain "missing" (backing.empty true)
    = ((zero_Claim, Some "Claim does not exist"),
       Close (Connect (backing.empty true))).
Proof.
  assert (strings.Contains "File does not exist" ErrRecordDoesNotExist = true)
    as Hsignal by reflexivity.
  destruct (C6_not_found_policy plain (backing.empty true)
              "File does not exist" Hsignal)
    as (Hresults & _ & _ & Hclaim & _).
  split; [exact Hsignal|]. split.
  - exact (Hresults "01C1" [] _ eq_refl).
  - exact (Hclaim "missing" [] _ eq_refl).
Defined.





Lemma C9_witness :
  group_records ItemTypeClaims "wordpress" installed = []
  ∧ is_Some (items installed !! (ItemTypeInstallations, "wordpress"))
  ∧ fst (DeleteInstallation "wordpress" installed)
    = Some "Installation does not exist"
  ∧ items (snd (DeleteInstallation "wordpress" installed)) = items installed.
Proof.
  assert (group_records ItemTypeClaims "wordpress" installed = []) as Hnone
    by (vm_compute; reflexivity).
  split; [exact Hnone|]. split.
  { apply (bool_decide_eq_true_1 _). vm_compute. reflexivity. }
  destruct (C9_no_claims_is_not_found "wordpress" installed Hnone)
    as (_ & Hdelete & Hitems).
  split; [exact Hdelete|exact Hitems].
Defined.

End examples.

(** * Further properties *)

(** ** [installation.go]: status, labels and the loaded claims *)

Section installation_queries.
Context `{Env}.

(** X1. [GetStatus] never answers the empty string; applying a claim
    resets the status of the installation to unknown, and applying a result
    makes it the status of the result, or unknown when the result has
    none. *)
Theorem X1_status_after_apply (i : Installation) (c : Claim) (r : Result) :
  GetStatus i ≠ ""
  ∧ GetStatus (ApplyClaim i c) = StatusUnknown
  ∧ GetStatus (ApplyResult i r)
    = (if decide (Result_Status r = "") then StatusUnknown
       else Result_Status r).
Proof.
  split; [|split].
  - unfold GetStatus. case_decide; [done|done].
  - reflexivity.
  - reflexivity.
Qed.

(** X2. [GetApp] and [GetAppVersion] read the two labels and answer the
    empty string when the label is not there; after [ApplyClaim] they answer
    with the label of the bundle of the claim when it has one, and as before
    otherwise; [ApplyResult] leaves both as they are. *)
Theorem X2_app_labels (i : Installation) (c : Claim) (r : Result) :
  (Installation_Labels i !! labels.App = None → GetApp i = "")
  ∧ (Installation_Labels i !! labels.AppVersion = None → GetAppVersion i = "")
  ∧ GetApp (ApplyClaim i c)
    = match bundle.Labels (Claim_Bundle c) !! labels.App with
      | Some app => app
      | None => GetApp i
      end
  ∧ GetAppVersion (ApplyClaim i c)
    = match bundle.Labels (Claim_Bundle c) !! labels.AppVersion with
      | Some version => version
      | None => GetAppVersion i
      end
  ∧ GetApp (ApplyResult i r) = GetApp i
  ∧ GetAppVersion (ApplyResult i r) = GetAppVersion i.
Proof.
  unfold GetApp, GetAppVersion. repeat split.
  - by intros ->.
  - by intros ->.
  - cbn [ApplyClaim Installation_Labels]. rewrite merge_labels_lookup.
    by destruct (bundle.Labels _ !! _).
  - cbn [ApplyClaim Installation_Labels]. rewrite merge_labels_lookup.
    by destruct (bundle.Labels _ !! _).
Qed.

Lemma first_install_app before c after :
  Forall (λ c', Claim_Action c' ≠ ActionInstall) before →
  Claim_Action c = ActionInstall →
  first_install (before ++ c :: after) = Some (Claim_Created c).
Proof.
  intros Hbefore Hc. induction Hbefore as [|c' before Hc' _ IH]; simpl.
  - by rewrite decide_True.
  - by rewrite decide_False.
Qed.

Lemma first_install_None claims :
  Forall (λ c, Claim_Action c ≠ ActionInstall) claims →
  first_install claims = None.
Proof.
  induction 1 as [|c claims Hc _ IH]; simpl; [done|]. by rewrite decide_False.
Qed.

(** X3. [GetInstallationTimestamp] answers with the creation time of the
    first claim, in the order of the loaded claims, whose action is install;
    without claims it fails with "has no claims", and with claims none of
    which is an install it fails with "has never been installed". *)
Theorem X3_installation_timestamp (i : Installation) :
  (Installation_claims i = [] →
   GetInstallationTimestamp i
   = (0%Z, Some ("the installation " +:+ Installation_Name i
                 +:+ " has no claims")))
  ∧ (∀ before c after,
       Installation_claims i = before ++ c :: after →
       Forall (λ c', Claim_Action c' ≠ ActionInstall) before →
       Claim_Action c = ActionInstall →
       GetInstallationTimestamp i = (Claim_Created c, None))
  ∧ (Installation_claims i ≠ [] →
     Forall (λ c, Claim_Action c ≠ ActionInstall) (Installation_claims i) →
     GetInstallationTimestamp i
     = (0%Z, Some ("the installation " +:+ Installation_Name i
                   +:+ " has never been installed"))).
Proof.
  unfold GetInstallationTimestamp. split; [|split].
  - by intros ->.
  - intros before c after Hclaims Hbefore Hc. rewrite Hclaims.
    rewrite decide_False by (rewrite length_app; simpl; lia).
    by rewrite first_install_app.
  - intros Hne Hnone. rewrite decide_False by by destruct (Installation_claims i).
    by rewrite first_install_None.
Qed.

Lemma By_nil_inv {A} (key : A → string) (l : list A) :
  sort.By key l = [] → l = [].
Proof.
  intros Hnil. apply Permutation_nil_r. rewrite <- Hnil.
  symmetry. apply By_Permutation.
Qed.

(** The last element of a slice sorted by a key has the greatest key. *)
Lemma By_last {A} (key : A → string) (l : list A) :
  l ≠ [] →
  ∃ x, last (sort.By key l) = Some x ∧ x ∈ l
       ∧ ∀ y, y ∈ l → String.le (key y) (key x).
Proof.
  intros Hne.
  destruct (last (sort.By key l)) as [x|] eqn:Hlast.
  - exists x. split; [done|].
    assert (x ∈ sort.By key l) as Hx.
    { apply last_Some in Hlast as [l' ->]. set_solver. }
    split.
    + by rewrite By_Permutation in Hx.
    + intros y Hy.
      apply (StronglySorted_last (λ a b, String.le (key a) (key b))
               (Reflexive0 := le_key_refl key) (sort.By key l) y x).
      * apply By_sorted.
      * done.
      * by rewrite By_Permutation.
  - apply last_None in Hlast. by apply By_nil_inv in Hlast.
Qed.

(** X4. After [LoadClaims], [GetLastClaim] fails with "has no claims" when
    no claim was loaded, and otherwise returns one of the claims loaded, with
    its results sorted, whose id is not below the id of any other. *)
Theorem X4_last_claim_of_loaded (i : Installation) (claims : list Claim) :
  (claims = [] →
   GetLastClaim (LoadClaims i claims)
   = (zero_Claim, Some ("the installation " +:+ Installation_Name i
                        +:+ " has no claims")))
  ∧ (claims ≠ [] →
     ∃ c, c ∈ claims
          ∧ (∀ c', c' ∈ claims → String.le (Claim_ID c') (Claim_ID c))
          ∧ GetLastClaim (LoadClaims i claims)
            = (with_results c (sort.By Result_ID <$> Claim_results c), None)).
Proof.
  split.
  - by intros ->.
  - intros Hne. destruct (By_last Claim_ID claims Hne) as (c & Hlast & Hc & Hmax).
    exists c. split; [done|]. split; [done|].
    unfold GetLastClaim, LoadClaims. cbn [with_claims Installation_claims].
    rewrite decide_False.
    + by rewrite fmap_last, Hlast.
    + rewrite length_fmap. intros Hlen. apply nil_length_inv in Hlen.
      by apply By_nil_inv in Hlen.
Qed.

(** X5. After [LoadClaims], [GetLastResult] and [GetLastStatus] follow the
    last claim: when its results are not loaded or it has none,
    [GetLastResult] fails with the error that says so and the status is
    unknown; otherwise [GetLastResult] returns one of its results whose id
    is not below the id of any other, and [GetLastStatus] the status of
    that result. *)
Theorem X5_last_result_of_loaded (i : Installation) (claims : list Claim) :
  claims ≠ [] →
  ∃ c, c ∈ claims
       ∧ (∀ c', c' ∈ claims → String.le (Claim_ID c') (Claim_ID c))
       ∧ match Claim_results c with
         | None =>
             GetLastResult (LoadClaims i claims)
             = (zero_Result,
                Some "the last claim does not have any results loaded")
             ∧ GetLastStatus (LoadClaims i claims) = StatusUnknown
         | Some [] =>
             GetLastResult (LoadClaims i claims)
             = (zero_Result, Some "the last claim has no results")
             ∧ GetLastStatus (LoadClaims i claims) = StatusUnknown
         | Some results =>
             ∃ r, r ∈ results
                  ∧ (∀ r', r' ∈ results →
                           String.le (Result_ID r') (Result_ID r))
                  ∧ GetLastResult (LoadClaims i claims) = (r, None)
                  ∧ GetLastStatus (LoadClaims i claims) = Result_Status r
         end.
Proof.
  intros Hne. destruct (By_last Claim_ID claims Hne) as (c & Hlast & Hc & Hmax).
  exists c. split; [done|]. split; [done|].
  assert (GetLastClaim (LoadClaims i claims)
          = (with_results c (sort.By Result_ID <$> Claim_results c), None))
    as Hclaim.
  { unfold GetLastClaim, LoadClaims. cbn [with_claims Installation_claims].
    rewrite decide_False.
    - by rewrite fmap_last, Hlast.
    - rewrite length_fmap. intros Hlen. apply nil_length_inv in Hlen.
      by apply By_nil_inv in Hlen. }
  unfold GetLastStatus, GetLastResult. rewrite Hclaim.
  cbn [with_results Claim_results].
  destruct (Claim_results c) as [results|]; [|done].
  cbn [fmap option_fmap option_map].
  destruct results as [|r0 results]; [done|].
  destruct (By_last Result_ID (r0 :: results)) as (r & Hr & Hin & Hmaxr); [done|].
  exists r. split; [done|]. split; [done|].
  rewrite decide_False.
  - by rewrite Hr.
  - intros Hlen. apply nil_length_inv in Hlen. by apply By_nil_inv in Hlen.
Qed.

End installation_queries.

Section new_installation_properties.
Context `{Env}.
Variable ValidName : string → bool.
Variable GetDefaultSchemaVersion : string * option error.
Variable now : Z.

(** X6. [NewInstallation] fails on a name that is not valid, on a failure
    of the default schema version, and on a bundle reference that is not
    empty and does not parse; otherwise it returns an installation with the
    name, namespace and digest given, the version of the bundle, the
    repository of the reference (none for the empty reference), one instant
    as the time of creation and of modification, an empty status, and no
    label: the labels of the bundle are not taken. *)
Theorem X6_new_installation (namespace name : string) (b : bundle.Bundle)
    (bundleRef bundleDigest : string) :
  (ValidName name = false →
   NewInstallation ValidName GetDefaultSchemaVersion now
     namespace name b bundleRef bundleDigest
   = (zero_Installation,
      Some ("invalid installation name '" +:+ name
            +:+ "'. Names must be [a-zA-Z0-9-_]+")))
  ∧ (∀ e, ValidName name = true →
          snd GetDefaultSchemaVersion = Some e →
          NewInstallation ValidName GetDefaultSchemaVersion now
            namespace name b bundleRef bundleDigest
          = (zero_Installation, Some e))
  ∧ (∀ e, ValidName name = true →
          snd GetDefaultSchemaVersion = None →
          bundleRef ≠ "" →
          snd (ParseNormalizedNamed bundleRef) = Some e →
          NewInstallation ValidName GetDefaultSchemaVersion now
            namespace name b bundleRef bundleDigest
          = (zero_Installation,
             Some (errors.Wrap e
                     ("invalid bundle reference '" +:+ bundleRef +:+ "'"))))
  ∧ (ValidName name = true →
     snd GetDefaultSchemaVersion = None →
     bundleRef = "" ∨ snd (ParseNormalizedNamed bundleRef) = None →
     ∃ i,
       NewInstallation ValidName GetDefaultSchemaVersion now
         namespace name b bundleRef bundleDigest = (i, None)
       ∧ Installation_SchemaVersion i = fst GetDefaultSchemaVersion
       ∧ Installation_Name i = name
       ∧ Installation_Namespace i = namespace
       ∧ Installation_BundleRepository i
         = (if decide (bundleRef = "") then ""
            else fst (ParseNormalizedNamed bundleRef))
       ∧ Installation_BundleVersion i = bundle.Version b
       ∧ Installation_BundleDigest i = bundleDigest
       ∧ Installation_Created i = now
       ∧ Installation_Modified i = now
       ∧ Installation_Labels i = ∅
       ∧ Installation_Status i = zero_Status
       ∧ Installation_claims i = []
       ∧ GetApp i = ""
       ∧ GetStatus i = StatusUnknown).
Proof.
  unfold NewInstallation.
  destruct GetDefaultSchemaVersion as [schemaVersion [e0|]];
    repeat split.
  - by intros ->.
  - intros e -> [= <-]. done.
  - intros e _ Hnone. done.
  - intros _ Hnone. done.
  - by intros ->.
  - intros e _ Hnone. done.
  - intros e -> _ Href Hparse. simpl. rewrite decide_False by done.
    destruct (ParseNormalizedNamed bundleRef) as [ref [e'|]]; [|done].
    simpl in Hparse. by injection Hparse as ->.
  - intros -> _ Href. simpl.
    destruct (decide (bundleRef = "")) as [->|Hne].
    + eexists. split; [reflexivity|]. done.
    + destruct Href as [Href|Href]; [done|].
      destruct (ParseNormalizedNamed bundleRef) as [ref [e'|]]; [done|].
      eexists. split; [reflexivity|]. done.
Qed.

End new_installation_properties.

(** ** [output.go]: the container and its index *)

Section container_index.

Lemma Swap_lookup o i j a b k :
  Outputs_vals o !! i = Some a →
  Outputs_vals o !! j = Some b →
  Outputs_vals (Outputs_Swap o i j) !! k
  = if decide (k = j) then Some a
    else if decide (k = i) then Some b
    else Outputs_vals o !! k.
Proof.
  intros Hi Hj. unfold Outputs_Swap. rewrite Hi, Hj. simpl.
  apply lookup_lt_Some in Hi as Hli. apply lookup_lt_Some in Hj as Hlj.
  destruct (decide (k = j)) as [->|Hkj].
  { apply list_lookup_insert_eq. by rewrite length_insert. }
  rewrite list_lookup_insert_ne by done.
  destruct (decide (k = i)) as [->|Hki].
  { by apply list_lookup_insert_eq. }
  by rewrite list_lookup_insert_ne.
Qed.

Lemma Swap_keys o i j a b :
  Outputs_vals o !! i = Some a →
  Outputs_vals o !! j = Some b →
  Outputs_keys (Outputs_Swap o i j)
  = <[Output_Name b := i]> (<[Output_Name a := j]> (Outputs_keys o)).
Proof. intros Hi Hj. unfold Outputs_Swap. by rewrite Hi, Hj. Qed.

Lemma indexed_name_inj o i j a b :
  indexed o →
  Outputs_vals o !! i = Some a →
  Outputs_vals o !! j = Some b →
  Output_Name a = Output_Name b → i = j.
Proof.
  intros [Hnd _] Hi Hj Heq.
  eapply NoDup_lookup; [exact Hnd| |].
  - by rewrite list_lookup_fmap, Hi.
  - rewrite list_lookup_fmap, Hj. simpl. by rewrite Heq.
Qed.

Lemma Swap_indexed_any o i j a b :
  Outputs_vals o !! i = Some a →
  Outputs_vals o !! j = Some b →
  indexed o → indexed (Outputs_Swap o i j).
Proof.
  intros Hi Hj Hidx. pose proof Hidx as [Hnd Hkeys]. split.
  - apply NoDup_alt. intros k1 k2 name.
    rewrite !list_lookup_fmap, !(Swap_lookup o i j a b) by done.
    intros H1 H2.
    assert (∀ k out,
              (if decide (k = j) then Some a
               else if decide (k = i) then Some b
               else Outputs_vals o !! k) = Some out →
              ∃ k', Outputs_vals o !! k' = Some out
                    ∧ (k' = i ↔ k = j) ∧ (k' = j ↔ k = i)) as Hback.
    { intros k out Hk. destruct (decide (k = j)) as [->|Hkj].
      - injection Hk as <-. exists i. split; [done|]. split; [done|].
        split; congruence.
      - destruct (decide (k = i)) as [->|Hki].
        + injection Hk as <-. exists j. split; [done|]. split; [|done].
          split; congruence.
        + exists k. split; [done|]. split; split; congruence. }
    destruct (_ : option Output) as [out1|] eqn:Ho1 in H1; [|done].
    destruct (_ : option Output) as [out2|] eqn:Ho2 in H2; [|done].
    simpl in H1, H2. injection H1 as H1. injection H2 as H2.
    destruct (Hback _ _ Ho1) as (k1' & Hk1 & Hi1 & Hj1).
    destruct (Hback _ _ Ho2) as (k2' & Hk2 & Hi2 & Hj2).
    assert (k1' = k2') as Heq.
    { eapply (indexed_name_inj o); [done|exact Hk1|exact Hk2|congruence]. }
    subst k2'.
    destruct (decide (k1 = j)) as [->|Hk1j].
    { symmetry. apply Hi2. by apply Hi1. }
    destruct (decide (k1 = i)) as [->|Hk1i].
    { symmetry. apply Hj2. by apply Hj1. }
    destruct (decide (k2 = j)) as [->|Hk2j].
    { exfalso. apply Hk1j. apply Hi1. by apply Hi2. }
    destruct (decide (k2 = i)) as [->|Hk2i].
    { exfalso. apply Hk1i. apply Hj1. by apply Hj2. }
    eapply (indexed_name_inj o); [done|exact Ho1|exact Ho2|congruence].
  - intros k out. rewrite (Swap_lookup o i j a b), (Swap_keys o i j a b) by done.
    intros Hk. destruct (decide (k = j)) as [->|Hkj].
    { injection Hk as <-.
      destruct (decide (Output_Name a = Output_Name b)) as [Hab|Hab].
      - rewrite Hab, lookup_insert_eq. f_equal.
        by apply (indexed_name_inj o i j a b).
      - rewrite lookup_insert_ne by done. apply lookup_insert_eq. }
    destruct (decide (k = i)) as [->|Hki].
    { injection Hk as <-. apply lookup_insert_eq. }
    assert (Output_Name out ≠ Output_Name b) as Hob.
    { intros Heq. apply Hkj. by apply (indexed_name_inj o k j out b). }
    assert (Output_Name out ≠ Output_Name a) as Hoa.
    { intros Heq. apply Hki. by apply (indexed_name_inj o k i out a). }
    rewrite !lookup_insert_ne by done. by apply Hkeys.
Qed.

Lemma Swap_names o i j name :
  name ∈ Output_Name <$> Outputs_vals (Outputs_Swap o i j)
  ↔ name ∈ Output_Name <$> Outputs_vals o.
Proof.
  unfold Outputs_Swap.
  destruct (Outputs_vals o !! i) as [a|] eqn:Hi; [|done].
  destruct (Outputs_vals o !! j) as [b|] eqn:Hj; [|done].
  pose proof (Swap_lookup o i j a b) as Hlook.
  unfold Outputs_Swap in Hlook. rewrite Hi, Hj in Hlook.
  specialize (λ k, Hlook k eq_refl eq_refl). simpl in *.
  rewrite !list_elem_of_fmap. split.
  - intros (out & -> & Hout). exists out. split; [done|].
    apply list_elem_of_lookup in Hout as [k Hk]. rewrite Hlook in Hk.
    repeat case_decide; simplify_eq; by eapply list_elem_of_lookup_2.
  - intros (out & -> & Hout). exists out. split; [done|].
    apply list_elem_of_lookup in Hout as [k Hk].
    destruct (decide (k = i)) as [->|Hki].
    { apply (list_elem_of_lookup_2 _ j). rewrite Hlook.
      rewrite decide_True by done. congruence. }
    destruct (decide (k = j)) as [->|Hkj].
    { apply (list_elem_of_lookup_2 _ i). rewrite Hlook.
      destruct (decide (i = j)) as [->|?]; [congruence|].
      rewrite decide_True by done. congruence. }
    apply (list_elem_of_lookup_2 _ k). rewrite Hlook.
    by rewrite !decide_False.
Qed.

Lemma Swap_known o i j : known o → known (Outputs_Swap o i j).
Proof.
  intros Hknown name k. rewrite Swap_names. unfold Outputs_Swap.
  destruct (Outputs_vals o !! i) as [a|] eqn:Hi; [|apply Hknown].
  destruct (Outputs_vals o !! j) as [b|] eqn:Hj; [|apply Hknown].
  simpl. intros Hk.
  destruct (decide (name = Output_Name b)) as [->|Hb].
  { apply list_elem_of_fmap. exists b. split; [done|].
    by eapply list_elem_of_lookup_2. }
  rewrite lookup_insert_ne in Hk by done.
  destruct (decide (name = Output_Name a)) as [->|Ha].
  { apply list_elem_of_fmap. exists a. split; [done|].
    by eapply list_elem_of_lookup_2. }
  rewrite lookup_insert_ne in Hk by done. by eapply Hknown.
Qed.

Lemma sink_known o j : known o → known (Outputs_sink o j).
Proof.
  revert o. induction j as [|j IH]; intros o Hknown; simpl; [done|].
  destruct (Outputs_Less o (S j) j); [|done]. by apply IH, Swap_known.
Qed.

Lemma Sort_known o : known o → known (Outputs_Sort o).
Proof.
  unfold Outputs_Sort. generalize (seq 1 (Outputs_Len o - 1)). intros l.
  revert o. induction l as [|j l IH]; intros o Hknown; simpl; [done|].
  by apply IH, sink_known.
Qed.

Lemma index_keys_known outputs i keys name k :
  index_keys outputs i keys !! name = Some k →
  name ∈ Output_Name <$> outputs ∨ keys !! name = Some k.
Proof.
  revert i keys. induction outputs as [|out outputs IH]; intros i keys; simpl.
  { by right. }
  intros Hk. apply IH in Hk as [Hin|Hk].
  - left. by right.
  - destruct (decide (Output_Name out = name)) as [<-|Hne].
    + left. by left.
    + rewrite lookup_insert_ne in Hk by done. by right.
Qed.

Lemma NewOutputs_known outputs : known (NewOutputs outputs).
Proof.
  unfold NewOutputs. apply Sort_known. intros name k Hk. simpl in *.
  apply index_keys_known in Hk as [Hin|Hk]; [done|].
  by rewrite lookup_empty in Hk.
Qed.

(** X7. [NewOutputs] of outputs with distinct names holds the same outputs,
    in ascending order of their names; [GetByName] finds every one of them
    under its name and nothing under another name; [GetByIndex] answers
    exactly on the positions from zero below the number of outputs, and an
    output found at a position is found under its name. *)
Theorem X7_new_outputs (outputs : list Output) :
  NoDup (Output_Name <$> outputs) →
  Outputs_vals (NewOutputs outputs) ≡ₚ outputs
  ∧ Sorted (λ a b, String.le (Output_Name a) (Output_Name b))
           (Outputs_vals (NewOutputs outputs))
  ∧ Outputs_Len (NewOutputs outputs) = length outputs
  ∧ (∀ out, out ∈ outputs →
            GetByName (NewOutputs outputs) (Output_Name out) = (out, true))
  ∧ (∀ name, name ∉ Output_Name <$> outputs →
             GetByName (NewOutputs outputs) name = (zero_Output, false))
  ∧ (∀ i, snd (GetByIndex (NewOutputs outputs) i) = true
          ↔ (0 ≤ i < Z.of_nat (length outputs))%Z)
  ∧ (∀ i out, GetByIndex (NewOutputs outputs) i = (out, true) →
              GetByName (NewOutputs outputs) (Output_Name out) = (out, true)).
Proof.
  intros Hnd. destruct (NewOutputs_spec outputs Hnd) as [Hvals Hidx].
  assert (Outputs_vals (NewOutputs outputs) ≡ₚ outputs) as Hperm.
  { rewrite Hvals. apply sorted_by_name_Permutation. }
  assert (length (Outputs_vals (NewOutputs outputs)) = length outputs) as Hlen.
  { by rewrite Hperm. }
  split; [done|]. split.
  { rewrite Hvals. apply sorted_by_name_Sorted. }
  split; [done|]. split.
  { intros out Hout. apply GetByName_indexed; [done|]. by rewrite Hperm. }
  split.
  { intros name Hname. unfold GetByName.
    destruct (Outputs_keys (NewOutputs outputs) !! name) as [k|] eqn:Hk; [|done].
    exfalso. apply Hname. apply NewOutputs_known in Hk. by rewrite Hperm in Hk. }
  split.
  { intros i. unfold GetByIndex. case_decide as Hneg; simpl.
    - split; [done|lia].
    - destruct (Outputs_vals (NewOutputs outputs) !! Z.to_nat i) as [out|] eqn:Hi;
        simpl.
      + apply lookup_lt_Some in Hi. split; [lia|done].
      + apply lookup_ge_None in Hi. split; [done|lia]. }
  intros i out. unfold GetByIndex. case_decide as Hneg; [done|].
  destruct (Outputs_vals (NewOutputs outputs) !! Z.to_nat i) as [out'|] eqn:Hi;
    [|done].
  intros [= <-]. apply GetByName_indexed; [done|].
  by eapply list_elem_of_lookup_2.
Qed.

(** X8. [Swap] on two positions of a container whose keys give the place of
    every output exchanges the two outputs, leaves the others in place, and
    keeps the keys in step: they still give the place of every output, and
    every key is still the name of an output. *)
Theorem X8_swap_keeps_index (o : Outputs) (i j : nat) :
  indexed o → known o →
  i < Outputs_Len o → j < Outputs_Len o →
  indexed (Outputs_Swap o i j)
  ∧ known (Outputs_Swap o i j)
  ∧ Outputs_Len (Outputs_Swap o i j) = Outputs_Len o
  ∧ Outputs_vals (Outputs_Swap o i j) !! i = Outputs_vals o !! j
  ∧ Outputs_vals (Outputs_Swap o i j) !! j = Outputs_vals o !! i
  ∧ ∀ k, k ≠ i → k ≠ j →
         Outputs_vals (Outputs_Swap o i j) !! k = Outputs_vals o !! k.
Proof.
  intros Hidx Hknown Hi Hj. unfold Outputs_Len in *.
  apply lookup_lt_is_Some in Hi as [a Ha]. apply lookup_lt_is_Some in Hj as [b Hb].
  split; [by eapply Swap_indexed_any|]. split; [by apply Swap_known|].
  split.
  { unfold Outputs_Swap. rewrite Ha, Hb. simpl. by rewrite !length_insert. }
  rewrite !(Swap_lookup o i j a b) by done. split.
  { destruct (decide (i = j)) as [->|?]; [congruence|].
    by rewrite decide_True. }
  split.
  { by rewrite decide_True. }
  intros k Hki Hkj. rewrite (Swap_lookup o i j a b) by done.
  by rewrite !decide_False.
Qed.

End container_index.

(** ** [claimstore.go]: lists and bulk reads, over any backing store *)

Section lists.
Context `{Env} {S : Type} `{!crud.ManagedStore S}.

(** X9. The four list methods return names in ascending order.
    [ListInstallations] returns the names that the store lists, with the
    error of the store, and lists the global namespace for the empty
    namespace; [ListResults] and [ListOutputs] return no name together with
    an error; the names of [ListOutputs] are the keys that the store lists
    without the prefix of the result id. *)
Theorem X9_lists_are_sorted (st : S) :
  ListInstallations "" st = ListInstallations NamespaceGlobal st
  ∧ (∀ namespace names err st',
       ListInstallations namespace st = ((names, err), st') →
       StronglySorted String.le names
       ∧ ∃ listed,
           crud.List ItemTypeInstallations
             (if decide (namespace = "") then NamespaceGlobal else namespace) st
           = ((listed, err), st')
           ∧ names ≡ₚ listed)
  ∧ (∀ installation names err st',
       ListClaims installation st = ((names, err), st') →
       StronglySorted String.le names)
  ∧ (∀ claimID names err st',
       ListResults claimID st = ((names, err), st') →
       StronglySorted String.le names
       ∧ (err ≠ None → names = [])
       ∧ (err = None →
          ∀ listed, crud.List ItemTypeResults claimID st
                    = ((listed, None), st') → names ≡ₚ listed))
  ∧ (∀ resultID names err st',
       ListOutputs resultID st = ((names, err), st') →
       StronglySorted String.le names
       ∧ (err ≠ None → names = [])
       ∧ (err = None →
          ∀ listed, crud.List ItemTypeOutputs resultID st
                    = ((listed, None), st') →
                    names ≡ₚ (λ fullName,
                                strings.TrimPrefix fullName (resultID +:+ "-"))
                               <$> listed)).
Proof.
  split; [|split; [|split; [|split]]].
  - unfold ListInstallations. rewrite decide_True by done.
    by destruct (decide (NamespaceGlobal = "")) as [->|].
  - intros namespace names err st'. unfold ListInstallations.
    cbv zeta. rewrite bind_eq.
    destruct (crud.List ItemTypeInstallations _ st) as [[listed e] st1].
    simpl. intros [= <- <- <-].
    split; [apply Strings_sorted|]. exists listed. split; [done|].
    apply Strings_Permutation.
  - intros installation names err st'. unfold ListClaims. rewrite bind_eq.
    destruct (crud.List ItemTypeClaims installation st) as [[listed e] st1].
    simpl. case_decide; intros [= <- <- <-]; [constructor|apply Strings_sorted].
  - intros claimID names err st'. unfold ListResults. rewrite bind_eq.
    destruct (crud.List ItemTypeResults claimID st) as [[listed [e|]] st1];
      simpl.
    + destruct (strings.Contains e ErrRecordDoesNotExist);
        intros [= <- <- <-]; (split; [constructor|]); split; try done.
    + intros [= <- <- <-]. split; [apply Strings_sorted|]. split; [done|].
      intros _ listed' [= <-]. apply Strings_Permutation.
  - intros resultID names err st'. unfold ListOutputs. rewrite bind_eq.
    destruct (crud.List ItemTypeOutputs resultID st) as [[listed [e|]] st1];
      simpl.
    + destruct (strings.Contains e ErrRecordDoesNotExist);
        intros [= <- <- <-]; (split; [constructor|]); split; try done.
    + intros [= <- <- <-]. split; [apply Strings_sorted|]. split; [done|].
      intros _ listed' [= <-]. apply Strings_Permutation.
Qed.

(** X10. [ListClaims] looks at the names before it looks at the error: when
    the store lists no claim, the answer is [ErrInstallationNotFound],
    whatever the store said; when it lists claims, they are returned, with
    the error of the store passed through [handleNotExistsError].  So an
    answer without an error has at least one name. *)
Theorem X10_list_claims (installation : string) (st st' : S)
    (listed : list string) (e : option error) :
  crud.List ItemTypeClaims installation st = ((listed, e), st') →
  (listed = [] →
   ListClaims installation st = (([], Some "Installation does not exist"), st'))
  ∧ (listed ≠ [] →
     ∃ names,
       ListClaims installation st
       = ((names, handleNotExistsError e ErrInstallationNotFound), st')
       ∧ names ≡ₚ listed ∧ names ≠ [])
  ∧ (∀ names, ListClaims installation st = ((names, None), st') →
              names ≠ [] ∧ e = None).
Proof.
  intros Hlist. unfold ListClaims. rewrite bind_eq, Hlist. simpl.
  split; [|split].
  - by intros ->.
  - intros Hne. rewrite decide_False by by destruct listed.
    exists (sort.Strings listed). split; [done|].
    split; [apply Strings_Permutation|].
    intros Hnil. apply Hne. apply Permutation_nil_r.
    rewrite <- Hnil. symmetry. apply Strings_Permutation.
  - intros names. case_decide as Hlen; [done|]. intros [= <- Herr].
    split.
    + intros Hnil. apply Hlen.
      by rewrite <- (Strings_length listed), Hnil.
    + by apply handleNotExistsError_None in Herr.
Qed.



Lemma By_Sorted_le {A} (key : A → string) (l : list A) :
  Sorted (λ a b, String.le (key a) (key b)) (sort.By key l).
Proof. apply StronglySorted_Sorted, By_sorted. Qed.


End lists.

(** ** [claimstore.go]: what an operation leaves of the store *)

#[global] Instance grows_scoping : Scoping grows.
Proof.
  split; [split|].
  - by intros st.
  - intros st1 st2 st3 [Hd1 Hf1] [Hd2 Hf2]. split; [by etrans|congruence].
  - by intros st st' _ [Hd Hf].
Qed.

Section frames.
Context `{Env}.
Variable s : Store.

Lemma grows_Save kind group key data :
  keeps grows (crud.Save kind group key data).
Proof.
  apply keeps_scoped; [apply _|]. intros st. split; [|done]. simpl.
  rewrite dom_insert. set_solver.
Qed.

Section any_relation.
Context (R : relation BackingStore) `{!Scoping R}.

Lemma reads_keep op st : reads op = true → R st (after s op st).
Proof.
  destruct op; simpl; try done; intros _;
    lazymatch goal with
    | |- R st (snd (?m st)) =>
        let Hm := fresh in
        assert (keeps R m) as Hm by eauto with store typeclass_instances;
        apply Hm
    end.
Qed.

Hypothesis keeps_Delete : ∀ kind key, keeps R (crud.Delete kind key).

Lemma deletes_keep op st : deletes op = true → R st (after s op st).
Proof.
  destruct op; simpl; try done; intros _;
    lazymatch goal with
    | |- R st (snd (?m st)) =>
        let Hm := fresh in
        assert (keeps R m) as Hm by eauto with store typeclass_instances;
        apply Hm
    end.
Qed.

Hypothesis keeps_Save :
  ∀ kind group key data, keeps R (crud.Save kind group key data).

Lemma saves_keep op st :
  reads op = false → deletes op = false → R st (after s op st).
Proof.
  clear keeps_Delete. destruct op; simpl; try done; intros _ _;
    lazymatch goal with
    | |- R st (snd (?m st)) =>
        let Hm := fresh in
        assert (keeps R m) as Hm;
        [ unfold SaveClaim, SaveResult, SaveOutput, SaveInstallation,
            crud.SaveDocument; keeps_tac
        | apply Hm ]
    end.
Qed.

Lemma after_keeps op st : R st (after s op st).
Proof.
  destruct (reads op) eqn:Hr; [by apply reads_keep|].
  destruct (deletes op) eqn:Hd; [by apply deletes_keep|].
  by apply saves_keep.
Qed.

End any_relation.

(** X12. A read leaves every record of the store as it is; a delete only
    takes records away and changes none; a save takes no record away. *)
Theorem X12_frames_by_kind (op : PublicOp) (st : BackingStore) :
  (reads op = true → items (after s op st) = items st)
  ∧ (deletes op = true → items (after s op st) ⊆ items st)
  ∧ (reads op = false → deletes op = false →
     dom (items st) ⊆ dom (items (after s op st))).
Proof.
  split; [|split].
  - intros Hr. by destruct (reads_keep same_data op st Hr) as [-> _].
  - intros Hd.
    by destruct (deletes_keep shrinks (λ kind key, shrinks_Delete kind key)
                   op st Hd) as [? _].
  - intros Hr Hd.
    by destruct (saves_keep grows grows_Save op st Hr Hd) as [? _].
Qed.

(** X13. Called under a connection that the caller holds, no public
    operation opens or closes a connection, and the connection is still
    held when it returns. *)
Theorem X13_no_connection_when_held (op : PublicOp) (st : BackingStore) :
  opened st = true →
  opened (after s op st) = true
  ∧ connects (after s op st) = connects st
  ∧ closes (after s op st) = closes st.
Proof.
  intros Ho.
  by apply (after_keeps nested (λ kind key, nested_Delete kind key)
              (λ kind group key data, nested_Save kind group key data) op st).
Qed.

End frames.

(** ** [claimstore.go]: what a save writes, and when *)

Section saves.
Context `{Env}.
Variable s : Store.

(** The step of [SaveClaim] and [SaveResult] that brings the installation
    up to date. *)
Lemma update_installation_cases (installation : string)
    (apply : Installation → Installation) st :
  let update :=
    (let* (i, err) := ReadInstallation "" installation in
     match err with
     | Some e => ret (Some e)
     | None => SaveInstallation s (apply i)
     end) in
  match fst (ReadInstallation "" installation st) with
  | (i, None) =>
      fst (update st) = None
      ∧ items (snd (update st))
        = <[(ItemTypeInstallations,
             InstallationKey (Installation_Namespace (apply i))
                             (Installation_Name (apply i)))
            := (Installation_Namespace (apply i),
                Marshal_Installation (apply i))]> (items st)
  | (_, Some e) => fst (update st) = Some e ∧ items (snd (update st)) = items st
  end.
Proof.
  cbv zeta. rewrite bind_eq.
  destruct (keeps_ReadInstallation same_data "" installation st) as [Hitems _].
  destruct (ReadInstallation "" installation st) as [[i [e|]] st1]; simpl in *.
  - done.
  - destruct (SaveInstallation_run s (apply i) st1) as (Hfst & Hins & _).
    by rewrite Hfst, Hins, Hitems.
Qed.

Lemma SaveClaim_data c st :
  let body :=
    (let* err := crud.SaveDocument (Claim_Document c) (encrypt s) in
     match err with
     | Some e => ret (Some e)
     | None =>
         if fst (IsModifyingAction c) then
           let* (i, err) := ReadInstallation "" (Claim_Installation c) in
           match err with
           | Some e => ret (Some e)
           | None => SaveInstallation s (ApplyClaim i c)
           end
         else ret None
     end) in
  fst (SaveClaim s c st) = fst (body st)
  ∧ items (snd (SaveClaim s c st)) = items (snd (body st)).
Proof.
  cbv zeta. unfold SaveClaim.
  match goal with |- fst (with_connect _ ?body _) = _ ∧ _ =>
    assert (stable body) as Hstable by stable_tac;
    destruct (with_connect_data Some body st Hstable) as [Hfst [Hitems _]]
  end.
  done.
Qed.

Lemma SaveResult_data r st :
  let body :=
    (let* err := crud.SaveDocument (Result_Document r) (encrypt s) in
     match err with
     | Some e => ret (Some e)
     | None =>
         match Result_claim r with
         | Some c =>
             if fst (IsModifyingAction c) then
               let* (i, err) := ReadInstallation "" (Claim_Installation c) in
               match err with
               | Some e => ret (Some e)
               | None => SaveInstallation s (ApplyResult i r)
               end
             else ret None
         | None => ret None
         end
     end) in
  fst (SaveResult s r st) = fst (body st)
  ∧ items (snd (SaveResult s r st)) = items (snd (body st)).
Proof.
  cbv zeta. unfold SaveResult.
  match goal with |- fst (with_connect _ ?body _) = _ ∧ _ =>
    assert (stable body) as Hstable by stable_tac;
    destruct (with_connect_data Some body st Hstable) as [Hfst [Hitems _]]
  end.
  done.
Qed.

(** X14. [SaveClaim] writes the record of the claim before it looks for
    the installation, and does not take it back: when encryption fails
    nothing is written; otherwise the record of the claim is in the store
    whatever [SaveClaim] returns, and the only other record that may differ
    is one of an installation.  A claim whose action does not modify is
    saved without a look at the installation; a claim whose action modifies,
    for an installation that has no record, leaves the record of the claim
    behind and returns [ErrInstallationNotFound]. *)
Theorem X14_save_claim_writes_first (c : Claim) (st : BackingStore) :
  (∀ data e,
     encrypt s (Marshal_Claim c) = (data, Some e) →
     fst (SaveClaim s c st) = Some e
     ∧ items (snd (SaveClaim s c st)) = items st)
  ∧ (∀ data,
       encrypt s (Marshal_Claim c) = (data, None) →
       items (snd (SaveClaim s c st)) !! (ItemTypeClaims, Claim_ID c)
       = Some (Claim_Installation c, data)
       ∧ (∀ kind key,
            kind ≠ ItemTypeInstallations →
            (kind, key) ≠ (ItemTypeClaims, Claim_ID c) →
            items (snd (SaveClaim s c st)) !! (kind, key)
            = items st !! (kind, key))
       ∧ (fst (IsModifyingAction c) = false →
          fst (SaveClaim s c st) = None
          ∧ items (snd (SaveClaim s c st))
            = <[(ItemTypeClaims, Claim_ID c) := (Claim_Installation c, data)]>
                (items st))
       ∧ (fst (IsModifyingAction c) = true →
          items st !! (ItemTypeInstallations,
                       InstallationKey "" (Claim_Installation c)) = None →
          fst (SaveClaim s c st) = Some "Installation does not exist"
          ∧ items (snd (SaveClaim s c st))
            = <[(ItemTypeClaims, Claim_ID c) := (Claim_Installation c, data)]>
                (items st))).
Proof.
  destruct (SaveClaim_data c st) as [-> ->]. rewrite !bind_eq.
  pose proof (SaveDocument_Claim_run s c st) as Hdoc.
  split.
  { intros data e Henc. rewrite Henc in Hdoc. rewrite Hdoc. simpl.
    unfold crud.SaveDocument. simpl. by rewrite Henc. }
  intros data Henc. rewrite Henc in Hdoc. destruct Hdoc as [Hdoc Hitems1].
  rewrite Hdoc.
  set (st1 := snd (crud.SaveDocument (Claim_Document c) (encrypt s) st)) in *.
  destruct (fst (IsModifyingAction c)) eqn:Hmod.
  - pose proof (update_installation_cases (Claim_Installation c)
                  (λ i, ApplyClaim i c) st1) as Hup. cbv zeta in Hup.
    rewrite ReadInstallation_fst in Hup.
    rewrite Hitems1, lookup_insert_ne in Hup by done.
    destruct (items st !! (ItemTypeInstallations,
                           InstallationKey "" (Claim_Installation c)))
      as [[g raw]|] eqn:Hrec.
    + destruct (Unmarshal_Installation raw) as [i [e|]].
      * destruct Hup as [Hfst Hitems]. rewrite Hitems.
        split; [apply lookup_insert_eq|]. split; [|done].
        intros kind key _ Hne. by rewrite lookup_insert_ne.
      * destruct Hup as [Hfst Hitems]. rewrite Hitems.
        split; [by rewrite lookup_insert_ne, lookup_insert_eq|].
        split; [|done]. intros kind key Hkind Hne.
        rewrite lookup_insert_ne by congruence. by rewrite lookup_insert_ne.
    + destruct Hup as [Hfst Hitems]. rewrite Hfst, Hitems.
      split; [apply lookup_insert_eq|]. split; [|done].
      intros kind key _ Hne. by rewrite lookup_insert_ne.
  - simpl. rewrite Hitems1. split; [apply lookup_insert_eq|].
    split; [|done]. intros kind key _ Hne. by rewrite lookup_insert_ne.
Qed.

(** X15. [SaveResult] writes the record of the result first, as it is, and
    keeps it whatever it returns; the only other record that may differ is
    one of an installation.  A result without a pointer to its claim, or
    with a claim whose action does not modify, is saved without a look at
    the installation; with a claim whose action modifies, for an
    installation that has no record, [SaveResult] leaves the record of the
    result behind and returns [ErrInstallationNotFound]. *)
Theorem X15_save_result_writes_first (r : Result) (st : BackingStore) :
  items (snd (SaveResult s r st)) !! (ItemTypeResults, Result_ID r)
  = Some (Result_ClaimID r, Marshal_Result r)
  ∧ (∀ kind key,
       kind ≠ ItemTypeInstallations →
       (kind, key) ≠ (ItemTypeResults, Result_ID r) →
       items (snd (SaveResult s r st)) !! (kind, key) = items st !! (kind, key))
  ∧ (match Result_claim r with
     | Some c => fst (IsModifyingAction c) = false
     | None => True
     end →
     fst (SaveResult s r st) = None
     ∧ items (snd (SaveResult s r st))
       = <[(ItemTypeResults, Result_ID r)
           := (Result_ClaimID r, Marshal_Result r)]> (items st))
  ∧ (∀ c,
       Result_claim r = Some c →
       fst (IsModifyingAction c) = true →
       items st !! (ItemTypeInstallations,
                    InstallationKey "" (Claim_Installation c)) = None →
       fst (SaveResult s r st) = Some "Installation does not exist"
       ∧ items (snd (SaveResult s r st))
         = <[(ItemTypeResults, Result_ID r)
             := (Result_ClaimID r, Marshal_Result r)]> (items st)).
Proof.
  destruct (SaveResult_data r st) as [-> ->]. rewrite !bind_eq.
  destruct (SaveDocument_Result_run s r st) as [Hdoc Hitems1]. rewrite Hdoc.
  set (st1 := snd (crud.SaveDocument (Result_Document r) (encrypt s) st)) in *.
  destruct (Result_claim r) as [c|] eqn:Hclaim.
  2:{ simpl. rewrite Hitems1. split; [apply lookup_insert_eq|].
      split; [|done]. intros kind key _ Hne. by rewrite lookup_insert_ne. }
  destruct (fst (IsModifyingAction c)) eqn:Hmod.
  - pose proof (update_installation_cases (Claim_Installation c)
                  (λ i, ApplyResult i r) st1) as Hup. cbv zeta in Hup.
    rewrite ReadInstallation_fst in Hup.
    rewrite Hitems1, lookup_insert_ne in Hup by done.
    destruct (items st !! (ItemTypeInstallations,
                           InstallationKey "" (Claim_Installation c)))
      as [[g raw]|] eqn:Hrec.
    + destruct (Unmarshal_Installation raw) as [i [e|]].
      * destruct Hup as [Hfst Hitems]. rewrite Hitems.
        split; [apply lookup_insert_eq|]. split; [|split; [done|]].
        -- intros kind key _ Hne. by rewrite lookup_insert_ne.
        -- intros c' [= <-] _ Hnone. congruence.
      * destruct Hup as [Hfst Hitems]. rewrite Hitems.
        split; [by rewrite lookup_insert_ne, lookup_insert_eq|].
        split; [|split; [done|]].
        -- intros kind key Hkind Hne.
           rewrite lookup_insert_ne by congruence. by rewrite lookup_insert_ne.
        -- intros c' [= <-] _ Hnone. congruence.
    + destruct Hup as [Hfst Hitems]. rewrite Hfst, Hitems.
      split; [apply lookup_insert_eq|]. split; [|split; [done|]].
      * intros kind key _ Hne. by rewrite lookup_insert_ne.
      * by intros c' [= <-] _ _.
  - simpl. rewrite Hitems1. split; [apply lookup_insert_eq|].
    split; [|split; [done|]].
    + intros kind key _ Hne. by rewrite lookup_insert_ne.
    + intros c' [= <-] Hc. congruence.
Qed.

End saves.

(** ** [claimstore.go]: what a delete takes, exactly *)

Section takes_facts.
Context `{Env}.

Lemma takes_nothing st : takes (λ _ _, False) st st.
Proof. split; [done|]. intros k v. tauto. Qed.

Lemma takes_trans P Q st1 st2 st3 :
  takes P st1 st2 → takes Q st2 st3 → takes (λ k v, P k v ∨ Q k v) st1 st3.
Proof.
  intros [Hf1 H1] [Hf2 H2]. split; [congruence|].
  intros k v. rewrite H2, H1. tauto.
Qed.

Lemma takes_proper (P Q : string * string → string * bytes → Prop) st st' :
  (∀ k v, items st !! k = Some v → (P k v ↔ Q k v)) →
  takes P st st' → takes Q st st'.
Proof.
  intros HPQ [Hf Hitems]. split; [done|]. intros k v. rewrite Hitems.
  split; intros [Hk Hn]; (split; [done|]); by rewrite (HPQ k v Hk) in *.
Qed.

Lemma takes_same_data_r P st st' st'' :
  takes P st st' → same_data st' st'' → takes P st st''.
Proof.
  intros [Hf Hitems] [Hi' Hf']. split; [congruence|].
  intros k v. by rewrite <- Hi'.
Qed.

Lemma takes_same_data_l P st st' st'' :
  same_data st st' → takes P st' st'' → takes P st st''.
Proof.
  intros [Hi Hf] [Hf' Hitems]. split; [congruence|].
  intros k v. by rewrite Hi.
Qed.

Lemma takes_shrinks P st st' : takes P st st' → shrinks st st'.
Proof.
  intros [Hf Hitems]. split; [|done].
  apply map_subseteq_spec. intros k v Hk. by apply Hitems in Hk as [? _].
Qed.

Lemma takes_Delete kind key st :
  takes (λ k _, k = (kind, key)) st (snd (crud.Delete kind key st))
  ∧ fst (crud.Delete kind key st)
    = match items st !! (kind, key) with
      | Some _ => None
      | None => Some ErrRecordDoesNotExist
      end.
Proof.
  destruct (Delete_run kind key st) as [Hrun Hf].
  destruct (items st !! (kind, key)) as [v0|] eqn:Hk0.
  - destruct Hrun as [Hfst Hitems]. split; [|done]. split; [done|].
    intros k v. rewrite Hitems. rewrite lookup_delete_Some.
    split; intros [? ?]; split; done || congruence.
  - destruct Hrun as [Hfst Hitems]. split; [|done]. split; [done|].
    intros k v. rewrite Hitems. split; [|tauto].
    intros Hk. split; [done|]. intros ->. congruence.
Qed.

Lemma takes_with_connect {A} P (failed : error → A) (body : M BackingStore A) st :
  stable body →
  takes P st (snd (body st)) →
  takes P st (snd (with_connect failed body st))
  ∧ fst (with_connect failed body st) = fst (body st).
Proof.
  intros Hstable Htakes.
  destruct (with_connect_data failed body st Hstable) as [Hfst Hdata].
  split; [|done]. eapply takes_same_data_r; [exact Htakes|].
  by symmetry.
Qed.

(** A loop over distinct elements, every step of which succeeds and takes
    its own records, takes the records of all. *)
Lemma for_each_takes_from {A}
    (Q : A → string * string → string * bytes → Prop)
    (body : A → M BackingStore (option error)) (l finished : list A) st0 st :
  NoDup (finished ++ l) →
  (∀ (finished' : list A) x st1,
     x ∈ l → x ∉ finished' →
     takes (λ k v, ∃ y, y ∈ finished' ∧ Q y k v) st0 st1 →
     fst (body x st1) = None ∧ takes (Q x) st1 (snd (body x st1))) →
  takes (λ k v, ∃ y, y ∈ finished ∧ Q y k v) st0 st →
  fst (for_each body l st) = None
  ∧ takes (λ k v, ∃ y, y ∈ finished ++ l ∧ Q y k v) st0
          (snd (for_each body l st)).
Proof.
  revert finished st. induction l as [|x l IH]; intros finished st Hnd Hstep Hst.
  { simpl. split; [done|]. by rewrite app_nil_r. }
  assert (x ∉ finished) as Hx.
  { apply NoDup_app in Hnd as (_ & Hdisj & _). intros Hin.
    apply (Hdisj x Hin). by left. }
  destruct (Hstep finished x st) as [Hfst Htakes]; [by left|done|done|].
  simpl. rewrite bind_eq, Hfst.
  destruct (IH (finished ++ [x]) (snd (body x st))) as [Hfst' Htakes'].
  - by rewrite <- app_assoc.
  - intros finished' y st1 Hy. apply Hstep. by right.
  - eapply takes_proper; [|exact (takes_trans _ _ _ _ _ Hst Htakes)].
    intros k v _. simpl. split.
    + intros [(y & Hy & HQ)|HQ].
      * exists y. split; [|done]. apply elem_of_app. by left.
      * exists x. split; [|done]. apply elem_of_app. right. by left.
    + intros (y & Hy & HQ). apply elem_of_app in Hy as [Hy|Hy].
      * left. by exists y.
      * apply list_elem_of_singleton in Hy as ->. by right.
  - split; [done|]. by rewrite <- app_assoc in Htakes'.
Qed.

Lemma for_each_takes {A}
    (Q : A → string * string → string * bytes → Prop)
    (body : A → M BackingStore (option error)) (l : list A) st :
  NoDup l →
  (∀ (finished : list A) x st1,
     x ∈ l → x ∉ finished →
     takes (λ k v, ∃ y, y ∈ finished ∧ Q y k v) st st1 →
     fst (body x st1) = None ∧ takes (Q x) st1 (snd (body x st1))) →
  fst (for_each body l st) = None
  ∧ takes (λ k v, ∃ y, y ∈ l ∧ Q y k v) st (snd (for_each body l st)).
Proof.
  intros Hnd Hstep.
  apply (for_each_takes_from Q body l [] st st); [done|done|].
  eapply takes_proper; [|apply takes_nothing].
  intros k v _. split; [done|]. intros (y & Hy & _). by apply elem_of_nil in Hy.
Qed.

Lemma outputKey_inj resultID a b :
  outputKey resultID a = outputKey resultID b → a = b.
Proof.
  unfold outputKey. rewrite !append_assoc.
  generalize (resultID +:+ "-"). intros p.
  induction p as [|x p IH]; [done|].
  change (String x (p +:+ a) = String x (p +:+ b) → a = b).
  intros [= Heq]. by apply IH.
Qed.

Lemma not_found_signal typedError :
  handleNotExistsError (Some ErrRecordDoesNotExist) typedError
  = Some typedError.
Proof. apply handleNotExistsError_signal, Contains_refl. Qed.

Lemma takes_DeleteOutput resultID outputName st :
  takes (λ k _, k = (ItemTypeOutputs, outputKey resultID outputName)) st
        (snd (DeleteOutput resultID outputName st))
  ∧ fst (DeleteOutput resultID outputName st)
    = match items st !! (ItemTypeOutputs, outputKey resultID outputName) with
      | Some _ => None
      | None => Some ErrOutputNotFound
      end.
Proof.
  unfold DeleteOutput. rewrite bind_eq. unfold ret. cbn [fst snd].
  destruct (takes_Delete ItemTypeOutputs (outputKey resultID outputName) st)
    as [Htakes ->].
  split; [done|]. destruct (items st !! _); [done|]. apply not_found_signal.
Qed.

Lemma output_names_NoDup resultID st :
  outputs_keyed st → NoDup (output_names resultID st).
Proof.
  intros Hkeyed. unfold output_names.
  rewrite Strings_Permutation.
  apply NoDup_fmap_2_strong; [|apply group_keys_NoDup].
  intros k1 k2 Hk1 Hk2 Heq.
  apply elem_of_group_keys in Hk1 as [d1 Hk1].
  apply elem_of_group_keys in Hk2 as [d2 Hk2].
  apply Hkeyed in Hk1 as [n1 ->]. apply Hkeyed in Hk2 as [n2 ->].
  unfold outputKey in Heq. rewrite !append_assoc, !TrimPrefix_app in Heq.
  by subst.
Qed.

(** The loop of [DeleteResult]. *)
Lemma takes_outputs resultID st :
  outputs_keyed st →
  fst (for_each (DeleteOutput resultID) (output_names resultID st) st) = None
  ∧ takes (λ k v, k.1 = ItemTypeOutputs ∧ v.1 = resultID) st
          (snd (for_each (DeleteOutput resultID) (output_names resultID st) st)).
Proof.
  intros Hkeyed.
  destruct (for_each_takes
              (λ name k (_ : string * bytes),
                 k = (ItemTypeOutputs, outputKey resultID name))
              (DeleteOutput resultID) (output_names resultID st) st)
    as [Hfst Htakes].
  - by apply output_names_NoDup.
  - intros finished name st1 Hname Hfresh [_ Hst1].
    destruct (takes_DeleteOutput resultID name st1) as [Htakes Hfst].
    split; [|done]. rewrite Hfst.
    apply elem_of_output_names in Hname as [raw Hraw]; [|done].
    assert (items st1 !! (ItemTypeOutputs, outputKey resultID name)
            = Some (resultID, raw)) as ->; [|done].
    apply Hst1. split; [done|]. intros (y & Hy & [= Heq]).
    apply outputKey_inj in Heq. by subst.
  - split; [done|]. eapply takes_proper; [|exact Htakes].
    intros [kind key] [group data] Hk. simpl. split.
    + intros (name & Hname & [= -> ->]).
      apply elem_of_output_names in Hname as [raw Hraw]; [|done].
      split; [done|]. congruence.
    + intros [-> ->]. destruct (Hkeyed _ _ _ Hk) as [name ->].
      exists name. split; [|done]. apply elem_of_output_names; [done|].
      by exists data.
Qed.

Lemma takes_DeleteResult resultID st :
  outputs_keyed st →
  takes (below_result resultID) st (snd (DeleteResult resultID st))
  ∧ fst (DeleteResult resultID st)
    = match items st !! (ItemTypeResults, resultID) with
      | Some _ => None
      | None => Some ErrResultNotFound
      end.
Proof.
  intros Hkeyed. unfold DeleteResult.
  match goal with |- takes _ _ (snd (with_connect _ ?body _)) ∧ _ =>
    assert (stable body) as Hstable by stable_tac;
    cut (takes (below_result resultID) st (snd (body st))
         ∧ fst (body st)
           = match items st !! (ItemTypeResults, resultID) with
             | Some _ => None
             | None => Some ErrResultNotFound
             end)
  end.
  { intros [Htakes Hfst].
    destruct (takes_with_connect _ Some _ st Hstable Htakes) as [? ->].
    done. }
  clear Hstable. rewrite bind_eq.
  pose proof (ListOutputs_fst resultID st) as Hlist.
  pose proof (keeps_ListOutputs same_data resultID st) as Hdata.
  destruct (ListOutputs resultID st) as [[names err] st1]. cbn [fst snd] in *.
  injection Hlist as -> ->. fold (output_names resultID st).
  assert (output_names resultID st = output_names resultID st1) as Hnames.
  { unfold output_names. by rewrite (group_records_same_data _ _ st st1). }
  assert (outputs_keyed st1) as Hkeyed1.
  { intros key group data. destruct Hdata as [<- _]. apply Hkeyed. }
  rewrite bind_eq. rewrite Hnames.
  destruct (takes_outputs resultID st1 Hkeyed1) as [-> Hloop].
  set (st2 := snd (for_each (DeleteOutput resultID)
                     (output_names resultID st1) st1)) in *.
  rewrite bind_eq. unfold ret. cbn [fst snd].
  destruct (takes_Delete ItemTypeResults resultID st2) as [Hdel ->].
  assert (items st2 !! (ItemTypeResults, resultID)
          = items st !! (ItemTypeResults, resultID)) as ->.
  { destruct Hdata as [-> _]. destruct Hloop as [_ Hloop].
    apply option_eq. intros v. rewrite Hloop. split; [by intros [? _]|].
    intros Hk. split; [done|]. by intros [[=] _]. }
  split.
  - eapply takes_same_data_l; [exact Hdata|].
    eapply takes_proper; [|exact (takes_trans _ _ _ _ _ Hloop Hdel)].
    intros k v _. unfold below_result. simpl. tauto.
  - destruct (items st !! _); [done|]. apply not_found_signal.
Qed.

End takes_facts.

Section exact_deletes.
Context `{Env}.

Lemma outputs_keyed_takes P st st' :
  takes P st st' → outputs_keyed st → outputs_keyed st'.
Proof. intros Htakes. apply outputs_keyed_shrinks. by eapply takes_shrinks. Qed.

Lemma outputs_keyed_same_data st st' :
  same_data st st' → outputs_keyed st → outputs_keyed st'.
Proof. intros [Hi _] Hkeyed key group data. rewrite <- Hi. apply Hkeyed. Qed.

Lemma result_ids_spec claimID st resultID :
  resultID ∈ sort.Strings (group_records ItemTypeResults claimID st).*1
  ↔ ∃ data, items st !! (ItemTypeResults, resultID) = Some (claimID, data).
Proof. by rewrite Strings_elem_of, elem_of_group_keys. Qed.

Lemma claim_ids_spec installation st claimID :
  claimID ∈ sort.Strings (group_records ItemTypeClaims installation st).*1
  ↔ ∃ data, items st !! (ItemTypeClaims, claimID) = Some (installation, data).
Proof. by rewrite Strings_elem_of, elem_of_group_keys. Qed.

Lemma sorted_keys_NoDup kind group st :
  NoDup (sort.Strings (group_records kind group st).*1).
Proof. rewrite Strings_Permutation. apply group_keys_NoDup. Qed.

Lemma takes_DeleteClaim claimID st :
  outputs_keyed st →
  takes (below_claim st claimID) st (snd (DeleteClaim claimID st))
  ∧ fst (DeleteClaim claimID st)
    = match items st !! (ItemTypeClaims, claimID) with
      | Some _ => None
      | None => Some ErrClaimNotFound
      end.
Proof.
  intros Hkeyed. unfold DeleteClaim.
  match goal with |- takes _ _ (snd (with_connect _ ?body _)) ∧ _ =>
    assert (stable body) as Hstable by stable_tac;
    cut (takes (below_claim st claimID) st (snd (body st))
         ∧ fst (body st)
           = match items st !! (ItemTypeClaims, claimID) with
             | Some _ => None
             | None => Some ErrClaimNotFound
             end)
  end.
  { intros [Htakes Hfst].
    destruct (takes_with_connect _ Some _ st Hstable Htakes) as [? ->].
    done. }
  clear Hstable. rewrite bind_eq.
  pose proof (ListResults_fst claimID st) as Hlist.
  pose proof (keeps_ListResults same_data claimID st) as Hdata.
  destruct (ListResults claimID st) as [[ids err] st1]. cbn [fst snd] in *.
  injection Hlist as -> ->.
  pose proof (outputs_keyed_same_data _ _ Hdata Hkeyed) as Hkeyed1.
  pose proof Hdata as [Hitems1 _].
  rewrite bind_eq.
  destruct (for_each_takes (λ resultID, below_result resultID) DeleteResult
              (sort.Strings (group_records ItemTypeResults claimID st).*1) st1)
    as [Hfst Hloop].
  { apply sorted_keys_NoDup. }
  { intros finished resultID stk Hin Hfresh Hstk.
    destruct (takes_DeleteResult resultID stk) as [Htakes Hres].
    { by eapply outputs_keyed_takes. }
    split; [|done]. rewrite Hres.
    apply result_ids_spec in Hin as [data Hrec]. rewrite Hitems1 in Hrec.
    assert (items stk !! (ItemTypeResults, resultID) = Some (claimID, data))
      as ->; [|done].
    apply Hstk. split; [done|].
    intros (y & Hy & [[= ->]|[[=] _]]). done. }
  rewrite Hfst.
  set (st2 := snd (for_each DeleteResult _ st1)) in *.
  rewrite bind_eq. unfold ret. cbn [fst snd].
  destruct (takes_Delete ItemTypeClaims claimID st2) as [Hdel ->].
  assert (items st2 !! (ItemTypeClaims, claimID)
          = items st !! (ItemTypeClaims, claimID)) as ->.
  { rewrite Hitems1. destruct Hloop as [_ Hloop].
    apply option_eq. intros v. rewrite Hloop. split; [by intros [? _]|].
    intros Hk. split; [done|]. intros (y & _ & [[=]|[[=] _]]). }
  split.
  - eapply takes_same_data_l; [exact Hdata|].
    eapply takes_proper; [|exact (takes_trans _ _ _ _ _ Hloop Hdel)].
    intros [kind key] [group data] Hk. rewrite <- Hitems1 in Hk.
    unfold below_claim, below_result. simpl. split.
    + intros [(resultID & Hin & [[= -> ->]|[-> ->]])|[= -> ->]].
      * apply result_ids_spec in Hin as [data' Hrec].
        right. left. split; [done|]. congruence.
      * apply result_ids_spec in Hin as [data' Hrec].
        right. right. split; [done|]. by exists data'.
      * by left.
    + intros [[= -> ->]|[[-> ->]|[-> [data' Hrec]]]].
      * by right.
      * left. exists key. split; [|by left].
        apply result_ids_spec. by exists data.
      * left. exists group. split; [|by right].
        apply result_ids_spec. by exists data'.
  - destruct (items st !! _); [done|]. apply not_found_signal.
Qed.

Lemma takes_DeleteInstallation installation st :
  outputs_keyed st →
  (group_records ItemTypeClaims installation st).*1 ≠ [] →
  takes (below_installation st installation) st
        (snd (DeleteInstallation installation st))
  ∧ fst (DeleteInstallation installation st)
    = match items st !! (ItemTypeInstallations, installation) with
      | Some _ => None
      | None => Some ErrInstallationNotFound
      end.
Proof.
  intros Hkeyed Hclaims. unfold DeleteInstallation.
  match goal with |- takes _ _ (snd (with_connect _ ?body _)) ∧ _ =>
    assert (stable body) as Hstable by stable_tac;
    cut (takes (below_installation st installation) st (snd (body st))
         ∧ fst (body st)
           = match items st !! (ItemTypeInstallations, installation) with
             | Some _ => None
             | None => Some ErrInstallationNotFound
             end)
  end.
  { intros [Htakes Hfst].
    destruct (takes_with_connect _ Some _ st Hstable Htakes) as [? ->].
    done. }
  clear Hstable. rewrite bind_eq.
  pose proof (ListClaims_fst installation st) as Hlist.
  rewrite decide_False in Hlist by done.
  pose proof (keeps_ListClaims same_data installation st) as Hdata.
  destruct (ListClaims installation st) as [[ids err] st1]. cbn [fst snd] in *.
  injection Hlist as -> ->.
  pose proof (outputs_keyed_same_data _ _ Hdata Hkeyed) as Hkeyed1.
  pose proof Hdata as [Hitems1 _].
  rewrite bind_eq.
  destruct (for_each_takes (λ claimID, below_claim st claimID) DeleteClaim
              (sort.Strings (group_records ItemTypeClaims installation st).*1)
              st1)
    as [Hfst Hloop].
  { apply sorted_keys_NoDup. }
  { intros finished claimID stk Hin Hfresh Hstk.
    destruct (takes_DeleteClaim claimID stk) as [Htakes Hres].
    { by eapply outputs_keyed_takes. }
    pose proof Hstk as [_ Hstk'].
    assert (∀ k v, items stk !! k = Some v → items st !! k = Some v) as Hsub.
    { intros k v Hk. rewrite Hitems1. by apply Hstk' in Hk as [? _]. }
    assert (∀ resultID data,
              items st !! (ItemTypeResults, resultID) = Some (claimID, data) →
              items stk !! (ItemTypeResults, resultID) = Some (claimID, data))
      as Hresults.
    { intros resultID data Hrec. apply Hstk'. rewrite <- Hitems1.
      split; [done|].
      intros (y & Hy & [[=]|[[_ Heq]|[[=] _]]]). simpl in Heq. by subst. }
    split.
    - rewrite Hres.
      apply claim_ids_spec in Hin as [data Hrec].
      assert (items stk !! (ItemTypeClaims, claimID)
              = Some (installation, data)) as ->; [|done].
      apply Hstk'. rewrite <- Hitems1. split; [done|].
      intros (y & Hy & [[= ->]|[[[=] _]|[[=] _]]]). done.
    - eapply takes_proper; [|exact Htakes].
      intros k v Hk. unfold below_claim. split.
      + intros [?|[?|[? [data Hrec]]]]; [by left|by right; left|].
        right. right. split; [done|]. exists data. by apply Hsub.
      + intros [?|[?|[? [data Hrec]]]]; [by left|by right; left|].
        right. right. split; [done|]. exists data. by apply Hresults. }
  rewrite Hfst.
  set (st2 := snd (for_each DeleteClaim _ st1)) in *.
  rewrite bind_eq. unfold ret. cbn [fst snd].
  destruct (takes_Delete ItemTypeInstallations installation st2) as [Hdel ->].
  assert (items st2 !! (ItemTypeInstallations, installation)
          = items st !! (ItemTypeInstallations, installation)) as ->.
  { rewrite Hitems1. destruct Hloop as [_ Hloop].
    apply option_eq. intros v. rewrite Hloop. split; [by intros [? _]|].
    intros Hk. split; [done|].
    intros (y & _ & [[=]|[[[=] _]|[[=] _]]]). }
  split.
  - eapply takes_same_data_l; [exact Hdata|].
    eapply takes_proper; [|exact (takes_trans _ _ _ _ _ Hloop Hdel)].
    intros k v _. unfold below_installation. split.
    + intros [(claimID & Hin & Hbelow) | ->]; [|by left].
      apply claim_ids_spec in Hin as [data Hrec]. right. by exists claimID, data.
    + intros [-> | (claimID & data & Hrec & Hbelow)]; [by right|].
      left. exists claimID. split; [|done]. apply claim_ids_spec. by exists data.
  - destruct (items st !! _); [done|]. apply not_found_signal.
Qed.

(** X16. [DeleteOutput] deletes the one record stored under the key of the
    output and returns no error; when there is no such record it returns
    [ErrOutputNotFound] and leaves the store as it is. *)
Theorem X16_delete_output (resultID outputName : string) (st : BackingStore) :
  items (snd (DeleteOutput resultID outputName st))
  = delete (ItemTypeOutputs, outputKey resultID outputName) (items st)
  ∧ (is_Some (items st !! (ItemTypeOutputs, outputKey resultID outputName)) →
     fst (DeleteOutput resultID outputName st) = None)
  ∧ (items st !! (ItemTypeOutputs, outputKey resultID outputName) = None →
     fst (DeleteOutput resultID outputName st) = Some "Output does not exist"
     ∧ items (snd (DeleteOutput resultID outputName st)) = items st).
Proof.
  destruct (takes_DeleteOutput resultID outputName st) as [[_ Htakes] Hfst].
  assert (items (snd (DeleteOutput resultID outputName st))
          = delete (ItemTypeOutputs, outputKey resultID outputName) (items st))
    as Hitems.
  { apply map_eq. intros k. apply option_eq. intros v.
    rewrite Htakes, lookup_delete_Some. split; intros [? ?]; split; congruence. }
  split; [done|]. rewrite Hfst, Hitems. split.
  - by intros [v ->].
  - intros Hnone. rewrite Hnone. split; [done|]. by apply delete_id.
Qed.

(** X17. On a store whose output records are keyed by their result,
    [DeleteResult] takes the record of the result and the outputs stored in
    its group, and leaves every other record as it is.  It returns no error
    when the result has a record, and [ErrResultNotFound] when it has none,
    after the outputs of the group have been deleted all the same. *)
Theorem X17_delete_result_exact (resultID : string) (st : BackingStore) :
  outputs_keyed st →
  (∀ k v, items (snd (DeleteResult resultID st)) !! k = Some v
          ↔ items st !! k = Some v ∧ ¬ below_result resultID k v)
  ∧ fst (DeleteResult resultID st)
    = match items st !! (ItemTypeResults, resultID) with
      | Some _ => None
      | None => Some "Result does not exist"
      end.
Proof.
  intros Hkeyed.
  by destruct (takes_DeleteResult resultID st Hkeyed) as [[_ Htakes] Hfst].
Qed.

(** X18. On a store whose output records are keyed by their result,
    [DeleteClaim] takes the record of the claim, the results stored in its
    group and the outputs stored in the groups of those results, and leaves
    every other record as it is.  Every delete of a result in its loop
    succeeds; it returns no error when the claim has a record, and
    [ErrClaimNotFound] when it has none. *)
Theorem X18_delete_claim_exact (claimID : string) (st : BackingStore) :
  outputs_keyed st →
  (∀ k v, items (snd (DeleteClaim claimID st)) !! k = Some v
          ↔ items st !! k = Some v ∧ ¬ below_claim st claimID k v)
  ∧ fst (DeleteClaim claimID st)
    = match items st !! (ItemTypeClaims, claimID) with
      | Some _ => None
      | None => Some "Claim does not exist"
      end.
Proof.
  intros Hkeyed.
  by destruct (takes_DeleteClaim claimID st Hkeyed) as [[_ Htakes] Hfst].
Qed.

(** X19. On a store whose output records are keyed by their result,
    [DeleteInstallation] of an installation that has a claim takes the
    record stored under the name of the installation, its claims, their
    results and the outputs of those, and leaves every other record as it
    is.  It returns no error exactly when there is a record under the name
    of the installation; otherwise it returns [ErrInstallationNotFound],
    after the claims have been deleted all the same. *)
Theorem X19_delete_installation_exact (installation : string)
    (st : BackingStore) :
  outputs_keyed st →
  (group_records ItemTypeClaims installation st).*1 ≠ [] →
  (∀ k v, items (snd (DeleteInstallation installation st)) !! k = Some v
          ↔ items st !! k = Some v ∧ ¬ below_installation st installation k v)
  ∧ fst (DeleteInstallation installation st)
    = match items st !! (ItemTypeInstallations, installation) with
      | Some _ => None
      | None => Some "Installation does not exist"
      end.
Proof.
  intros Hkeyed Hclaims.
  by destruct (takes_DeleteInstallation installation st Hkeyed Hclaims)
    as [[_ Htakes] Hfst].
Qed.

End exact_deletes.

(** ** [claimstore.go]: the status read through the claims *)

Section status_reads.
Context `{Env}.
Variable s : Store.

Lemma Strings_idem (l : list string) :
  sort.Strings (sort.Strings l) = sort.Strings l.
Proof.
  apply (StronglySorted_unique String.le).
  - apply Strings_sorted.
  - apply Strings_sorted.
  - apply Strings_Permutation.
Qed.

Lemma Strings_nil_inv (l : list string) : sort.Strings l = [] → l = [].
Proof.
  intros Hnil. apply Permutation_nil_r. rewrite <- Hnil.
  symmetry. apply Strings_Permutation.
Qed.

Lemma By_singleton {A} (key : A → string) (x : A) : sort.By key [x] = [x].
Proof. reflexivity. Qed.

Lemma ReadInstallationStatus_fst installation st :
  fst (ReadInstallationStatus s installation st)
  = if decide ((group_records ItemTypeClaims installation st).*1 = [])
    then (zero_Installation, Some ErrInstallationNotFound)
    else
      let lastClaimID :=
        last_string
          (sort.Strings (group_records ItemTypeClaims installation st).*1) in
      match fst (ReadClaim s lastClaimID st) with
      | (_, Some e) => (zero_Installation, Some e)
      | (c, None) =>
          if decide ((group_records ItemTypeResults lastClaimID st).*1 = [])
          then (LoadClaims (named_Installation installation) [c], None)
          else
            match fst (ReadResult
                         (last_string
                            (sort.Strings
                               (group_records ItemTypeResults
                                  lastClaimID st).*1)) st) with
            | (_, Some e) => (zero_Installation, Some e)
            | (r, None) =>
                (LoadClaims (named_Installation installation)
                   [with_results c (Some [r])], None)
            end
      end.
Proof.
  unfold ReadInstallationStatus.
  match goal with |- fst (with_connect _ ?body _) = _ =>
    assert (stable body) as Hstable by stable_tac;
    destruct (with_connect_data (λ e, (zero_Installation, Some e)) body st
                Hstable) as [-> _]
  end.
  clear Hstable. rewrite bind_eq, ListClaims_fst.
  pose proof (keeps_ListClaims same_data installation st) as Hd1.
  set (st1 := snd (ListClaims installation st)) in *.
  destruct (decide ((group_records ItemTypeClaims installation st).*1 = []))
    as [Hnil|Hne]; [done|].
  cbv zeta. rewrite decide_True.
  2:{ rewrite Strings_length. destruct (_.*1); [done|simpl; lia]. }
  rewrite Strings_idem.
  set (lastClaimID := last_string _).
  rewrite bind_eq.
  destruct (stable_ReadClaim s lastClaimID st st1 Hd1) as [Hc _].
  pose proof (keeps_ReadClaim s same_data lastClaimID st1) as Hd2.
  set (st2 := snd (ReadClaim s lastClaimID st1)) in *.
  rewrite <- Hc.
  destruct (fst (ReadClaim s lastClaimID st)) as [c [e|]]; [done|].
  assert (same_data st st2) as Hd02 by (by etrans).
  rewrite bind_eq.
  rewrite ListResults_fst.
  rewrite <- (group_records_same_data _ _ st st2 Hd02).
  pose proof (keeps_ListResults same_data lastClaimID st2) as Hd3.
  set (st3 := snd (ListResults lastClaimID st2)) in *.
  assert (same_data st st3) as Hd03 by (by etrans).
  destruct (decide ((group_records ItemTypeResults lastClaimID st).*1 = []))
    as [Hnil|Hne'].
  { rewrite Hnil. by rewrite decide_False by (simpl; lia). }
  rewrite decide_True.
  2:{ rewrite Strings_length.
      destruct (group_records ItemTypeResults lastClaimID st).*1;
        [done|simpl; lia]. }
  rewrite Strings_idem. rewrite bind_eq.
  destruct (stable_ReadResult
              (last_string
                 (sort.Strings (group_records ItemTypeResults lastClaimID st).*1))
              st st3 Hd03) as [<- _].
  by destruct (fst (ReadResult _ st)) as [r [e|]].
Qed.


Lemma read_statuses_success names installations st0 st l :
  same_data st0 st →
  fst (read_statuses s names installations st) = (l, None) →
  ∃ l',
    l = installations ++ l'
    ∧ Forall2 (λ name i,
                 fst (ReadInstallationStatus s name st0) = (i, None))
              names l'.
Proof.
  revert installations st.
  induction names as [|name names IH]; intros installations st Hsame; simpl.
  { intros [= <-]. exists []. split; [by rewrite app_nil_r|constructor]. }
  rewrite bind_eq.
  assert (stable (ReadInstallationStatus s name)) as Hstable.
  { unfold ReadInstallationStatus. stable_tac. }
  destruct (Hstable st0 st Hsame) as [Hread _].
  pose proof (keeps_ReadInstallationStatus s same_data name st) as Hkeep.
  destruct (ReadInstallationStatus s name st) as [[i [e|]] st1];
    cbn [fst snd] in *; [done|].
  intros Hrest. apply IH in Hrest as (l' & -> & Hall); [|by etrans].
  exists (i :: l'). split; [by rewrite <- app_assoc|]. by constructor.
Qed.

(** X21. [ReadAllInstallationStatus] answers for the installations that the
    store lists in the global namespace, in ascending order of their names,
    with what [ReadInstallationStatus] answers for each; it succeeds only
    when every one of them has a claim. *)
Theorem X21_all_status (st : BackingStore) (l : list Installation) :
  fst (ReadAllInstallationStatus s st) = (l, None) →
  let names :=
    sort.Strings (group_records ItemTypeInstallations NamespaceGlobal st).*1 in
  Installation_Name <$> l = names
  ∧ Forall2 (λ name i, fst (ReadInstallationStatus s name st) = (i, None))
            names l
  ∧ ∀ name, name ∈ names →
            (group_records ItemTypeClaims name st).*1 ≠ [].
Proof.
  unfold ReadAllInstallationStatus.
  match goal with |- fst (with_connect _ ?body _) = _ → _ =>
    assert (stable body) as Hstable;
    [ apply stable_bind; [apply stable_ListInstallations|];
      intros [names [e|]]; [apply stable_ret|];
      generalize (@nil Installation); induction names as [|name names IH];
      intros acc; simpl; [apply stable_ret|];
      apply stable_bind;
      [ unfold ReadInstallationStatus; stable_tac
      | intros [i [e|]]; [apply stable_ret|apply IH] ]
    | destruct (with_connect_data (λ e, ([], Some e)) body st Hstable)
        as [-> _] ]
  end.
  clear Hstable. rewrite bind_eq.
  pose proof (keeps_ListInstallations same_data "" st) as Hd1.
  assert (fst (ListInstallations "" st)
          = (sort.Strings
               (group_records ItemTypeInstallations NamespaceGlobal st).*1,
             if decide ((group_records ItemTypeInstallations NamespaceGlobal
                           st).*1 = []
                        ∧ missing_group_fails st = true)
             then Some ErrRecordDoesNotExist else None)) as Hlist.
  { unfold ListInstallations. cbv zeta. rewrite decide_True by done.
    rewrite bind_eq, List_fst.
    case_decide as Hc; [destruct Hc as [-> _]|]; done. }
  destruct (ListInstallations "" st) as [[names err] st1]. cbn [fst snd] in *.
  injection Hlist as -> ->.
  case_decide; [unfold ret; simpl; done|].
  intros Hall. apply (read_statuses_success _ _ st) in Hall as (l' & -> & Hall);
    [|done].
  cbv zeta. simpl. set (names := sort.Strings _) in *.
  split; [|split; [done|]].
  - clear -Hall. induction Hall as [|name i names l Hone _ IH]; [done|].
    rewrite fmap_cons, IH. f_equal.
    rewrite ReadInstallationStatus_fst in Hone.
    case_decide; [done|]. cbv zeta in Hone.
    destruct (fst (ReadClaim s _ st)) as [c [e|]]; [done|].
    case_decide; [by injection Hone as <-|].
    destruct (fst (ReadResult _ st)) as [r [e|]]; [done|].
    by injection Hone as <-.
  - intros name Hname. apply list_elem_of_lookup in Hname as [k Hk].
    destruct (Forall2_lookup_l _ _ _ _ _ Hall Hk) as (i & _ & Hone).
    rewrite ReadInstallationStatus_fst in Hone. by case_decide.
Qed.

End status_reads.

(** ** [claimstore.go]: the shape of the store is kept *)

#[global] Instance untouched_scoping kind : Scoping (untouched kind).
Proof.
  split; [split|].
  - by intros st.
  - intros st1 st2 st3 [H1 Hf1] [H2 Hf2]. split; [|congruence].
    intros key. by rewrite H2, H1.
  - by intros st st' _ [H Hf].
Qed.

Section shape.
Context `{Env}.
Variable s : Store.

Lemma untouched_Save kind kind' group key data :
  kind' ≠ kind → keeps (untouched kind) (crud.Save kind' group key data).
Proof.
  intros Hne. apply keeps_scoped; [apply _|]. intros st. split; [|done].
  intros key'. simpl. rewrite lookup_insert_ne; [done|congruence].
Qed.

Local Hint Extern 1 (keeps (untouched _) _) =>
  apply untouched_Save; done : store.

Lemma untouched_SaveInstallation kind i :
  kind ≠ ItemTypeInstallations → keeps (untouched kind) (SaveInstallation s i).
Proof.
  intros Hne. unfold SaveInstallation, crud.SaveDocument. simpl.
  by apply untouched_Save.
Qed.

Lemma outputs_untouched_SaveClaim c :
  keeps (untouched ItemTypeOutputs) (SaveClaim s c).
Proof.
  unfold SaveClaim, SaveInstallation, crud.SaveDocument. simpl. keeps_tac.
Qed.

Lemma outputs_untouched_SaveResult r :
  keeps (untouched ItemTypeOutputs) (SaveResult s r).
Proof.
  unfold SaveResult, SaveInstallation, crud.SaveDocument. simpl. keeps_tac.
Qed.



Lemma outputs_keyed_untouched st st' :
  untouched ItemTypeOutputs st st' → outputs_keyed st → outputs_keyed st'.
Proof. intros [Hsame _] Hkeyed key group data. rewrite Hsame. apply Hkeyed. Qed.


Lemma outputs_keyed_SaveOutput o st :
  outputs_keyed st → outputs_keyed (snd (SaveOutput s o st)).
Proof.
  intros Hkeyed. unfold SaveOutput. case_decide; [done|].
  assert (∀ data,
            outputs_keyed
              (snd (crud.Save ItemTypeOutputs (Output_GetGroup o)
                      (outputKey (Result_ID (Output_result o)) (Output_Name o))
                      data st))) as Hsave.
  { intros data key group raw.
    destruct (Save_run ItemTypeOutputs (Output_GetGroup o)
                (outputKey (Result_ID (Output_result o)) (Output_Name o))
                data st) as (_ & -> & _).
    destruct (decide (key = outputKey (Result_ID (Output_result o))
                              (Output_Name o))) as [->|Hne].
    - rewrite lookup_insert_eq. intros [= <- _]. by exists (Output_Name o).
    - rewrite lookup_insert_ne by congruence. apply Hkeyed. }
  destruct (match bundle.IsOutputSensitive _ _ with
            | (_, Some _) => false
            | (sensitive, None) => sensitive
            end); [|apply Hsave].
  destruct (encrypt s (Output_Value o)) as [data [e|]]; [done|apply Hsave].
Qed.

(** X24. That output records are keyed by their result is an invariant of
    the store: it holds of the empty store, and every public operation
    keeps it. *)
Theorem X24_outputs_keyed_is_kept (op : PublicOp) (st : BackingStore)
    (fails : bool) :
  outputs_keyed (backing.empty fails)
  ∧ (outputs_keyed st → outputs_keyed (after s op st)).
Proof.
  split.
  { intros key group data. simpl. by rewrite lookup_empty. }
  intros Hkeyed.
  destruct (reads op) eqn:Hr.
  { eapply outputs_keyed_same_data; [|done].
    exact (reads_keep s same_data op st Hr). }
  destruct (deletes op) eqn:Hd.
  { eapply outputs_keyed_shrinks; [|done].
    exact (deletes_keep s shrinks (λ kind key, shrinks_Delete kind key)
             op st Hd). }
  destruct op; try done; simpl.
  - eapply outputs_keyed_untouched; [|done].
    by apply untouched_SaveInstallation.
  - eapply outputs_keyed_untouched; [|done]. apply outputs_untouched_SaveClaim.
  - eapply outputs_keyed_untouched; [|done]. apply outputs_untouched_SaveResult.
  - by apply outputs_keyed_SaveOutput.
Qed.

(** X25. After [SaveOutput] has succeeded on a store whose output records
    are keyed by their result, [ListOutputs] of the result of the output
    lists the name of the output, without the prefix of the key; and
    [ListOutputs] lists a name exactly when a record is stored under the key
    of that name in the group of the result. *)
Theorem X25_saved_output_is_listed (st : BackingStore) :
  outputs_keyed st →
  (∀ resultID outputName,
     outputName ∈ fst (fst (ListOutputs resultID st))
     ↔ ∃ raw, items st !! (ItemTypeOutputs, outputKey resultID outputName)
              = Some (resultID, raw))
  ∧ (∀ o st',
       SaveOutput s o st = (None, st') →
       Output_Name o
       ∈ fst (fst (ListOutputs (Result_ID (Output_result o)) st'))).
Proof.
  intros Hkeyed. split.
  - intros resultID outputName. rewrite ListOutputs_fst. simpl.
    by apply elem_of_output_names.
  - intros o st' Hsave. rewrite ListOutputs_fst. simpl.
    apply elem_of_output_names.
    + pose proof (outputs_keyed_SaveOutput o st Hkeyed) as Hkeyed'.
      by rewrite Hsave in Hkeyed'.
    + apply SaveOutput_record in Hsave as (raw & Hraw & _). by exists raw.
Qed.



(** X22. A store made without handlers encrypts nothing: its handlers are
    inverse to each other, the record of a claim holds the document of the
    claim as it is, a claim is read from its record as it is, and the
    record of an output holds its value even when the bundle marks the
    output as sensitive. *)
Theorem X22_no_handlers_no_encryption :
  inverse_handlers (NewClaimStore None None)
  ∧ (∀ c st st',
       SaveClaim (NewClaimStore None None) c st = (None, st') →
       items st' !! (ItemTypeClaims, Claim_ID c)
       = Some (Claim_Installation c, Marshal_Claim c))
  ∧ (∀ claimID st group data,
       items st !! (ItemTypeClaims, claimID) = Some (group, data) →
       fst (ReadClaim (NewClaimStore None None) claimID st)
       = Unmarshal_Claim data)
  ∧ (∀ o st st',
       SaveOutput (NewClaimStore None None) o st = (None, st') →
       items st' !! (ItemTypeOutputs,
                     outputKey (Result_ID (Output_result o)) (Output_Name o))
       = Some (Result_ID (Output_result o), Output_Value o)).
Proof.
  split; [|split; [|split]].
  - intros data. by exists data.
  - intros c st st' Hsave.
    apply SaveClaim_record in Hsave as (data & Henc & Hrec).
    simpl in Henc. by injection Henc as <-.
  - intros claimID st group data Hrec. rewrite ReadClaim_fst, Hrec. done.
  - intros o st st' Hsave.
    apply SaveOutput_record in Hsave as (raw & Hraw & Hmarked & Hplain).
    rewrite Hraw. f_equal. f_equal.
    destruct (decide (marked (Claim_Bundle (Output_claim o)) (Output_Name o)))
      as [Hm|Hm].
    + specialize (Hmarked Hm). simpl in Hmarked. by injection Hmarked as <-.
    + by apply Hplain.
Qed.

End shape.

(** ** [claimstore.go]: the last value of one output *)

Section last_output.
Context `{Env}.
Variable s : Store.

Lemma scan_outputs_fst_filter filterOutput results lastOutputs st0 st :
  same_data st0 st →
  fst (scan_outputs filterOutput results lastOutputs st)
  = (foldl (λ m r,
              note_outputs filterOutput r (output_names (Result_ID r) st0) m)
           lastOutputs results, None).
Proof.
  revert lastOutputs st.
  induction results as [|r results IH]; intros lastOutputs st Hsame; simpl;
    [done|].
  rewrite bind_eq, ListOutputs_fst.
  rewrite IH.
  - unfold output_names. by rewrite (group_records_same_data _ _ st0 st).
  - etrans; [exact Hsame|]. apply (keeps_ListOutputs same_data).
Qed.

Lemma readLastOutputs_fst installation filterOutput st :
  fst (readLastOutputs s installation filterOutput st)
  = match fst (ReadAllClaims s installation st) with
    | (_, Some e) => (zero_Outputs, Some e)
    | (claims, None) =>
        match fst (read_outputs s
                     (map_to_list (last_results filterOutput claims st))
                     [] st) with
        | (_, Some e) => (zero_Outputs, Some e)
        | (outputs, None) => (NewOutputs outputs, None)
        end
    end.
Proof.
  unfold readLastOutputs. rewrite bind_eq.
  pose proof (keeps_ReadAllClaims s same_data installation st) as Hsame1.
  destruct (ReadAllClaims s installation st) as [[claims [e|]] st1];
    cbn [fst snd] in *; [done|].
  rewrite bind_eq.
  pose proof (collect_results_fst claims [] st st1 Hsame1) as Hcollect.
  pose proof (keeps_collect_results same_data claims [] st1) as Hsame2.
  destruct (collect_results claims [] st1) as [[results err] st2].
  cbn [fst snd] in *. injection Hcollect as -> ->.
  assert (same_data st st2) as Hsame02 by (by etrans).
  rewrite bind_eq.
  pose proof (scan_outputs_fst_filter filterOutput
                (sort.By Result_ID
                   ([] ++ concat
                            ((λ c, result_of c
                                     <$> sort.Strings
                                           (group_records ItemTypeResults
                                              (Claim_ID c) st).*1)
                               <$> claims)))
                ∅ st st2 Hsame02) as Hscan.
  pose proof (keeps_scan_outputs same_data filterOutput
                (sort.By Result_ID
                   ([] ++ concat
                            ((λ c, result_of c
                                     <$> sort.Strings
                                           (group_records ItemTypeResults
                                              (Claim_ID c) st).*1)
                               <$> claims)))
                ∅ st2) as Hsame3.
  destruct (scan_outputs filterOutput _ ∅ st2) as [[lastOutputs err] st3].
  cbn [fst snd] in *. injection Hscan as -> ->.
  assert (same_data st st3) as Hsame03 by (by etrans).
  rewrite bind_eq. fold (last_results filterOutput claims st).
  destruct (stable_read_outputs s
              (map_to_list (last_results filterOutput claims st)) [] st st3
              Hsame03) as [<- _].
  by destruct (fst (read_outputs s _ [] st)) as [outputs [e|]].
Qed.

Lemma note_outputs_filter filterOutput r names mF mAll :
  filterOutput ≠ "" →
  (∀ k, mF !! k = if decide (k = filterOutput) then mAll !! k else None) →
  ∀ k, note_outputs filterOutput r names mF !! k
       = if decide (k = filterOutput)
         then note_outputs "" r names mAll !! k else None.
Proof.
  intros Hf. unfold note_outputs. revert mF mAll.
  induction names as [|n names IH]; intros mF mAll Hrel; simpl; [done|].
  apply IH. intros k.
  destruct (decide (n = filterOutput)) as [->|Hn].
  - rewrite decide_True by (by right).
    destruct (decide (k = filterOutput)) as [->|Hk].
    + by rewrite !lookup_insert_eq.
    + rewrite lookup_insert_ne by done. rewrite Hrel. by rewrite decide_False.
  - rewrite decide_False by (intros [?|?]; congruence).
    rewrite Hrel. destruct (decide (k = filterOutput)) as [->|Hk]; [|done].
    by rewrite lookup_insert_ne.
Qed.

Lemma scan_filter filterOutput (names : Result → list string) results mF mAll :
  filterOutput ≠ "" →
  (∀ k, mF !! k = if decide (k = filterOutput) then mAll !! k else None) →
  ∀ k, foldl (λ m r, note_outputs filterOutput r (names r) m) mF results !! k
       = if decide (k = filterOutput)
         then foldl (λ m r, note_outputs "" r (names r) m) mAll results !! k
         else None.
Proof.
  intros Hf. revert mF mAll.
  induction results as [|r results IH]; intros mF mAll Hrel; simpl; [done|].
  apply IH. by apply note_outputs_filter.
Qed.

Lemma last_results_filter filterOutput claims st k :
  filterOutput ≠ "" →
  last_results filterOutput claims st !! k
  = if decide (k = filterOutput) then last_results "" claims st !! k
    else None.
Proof.
  intros Hf. unfold last_results. apply scan_filter; [done|].
  intros k'. rewrite lookup_empty. by case_decide.
Qed.

Lemma read_outputs_names entries outputs st :
  Forall2 (λ entry out,
             ∃ c, Result_claim entry.2 = Some c
                  ∧ fst (ReadOutput s c entry.2 entry.1 st) = (out, None))
          entries outputs →
  Output_Name <$> outputs = entries.*1.
Proof.
  induction 1 as [|[name r] out entries outs Hone _ IH]; [done|].
  rewrite !fmap_cons, IH. simpl. f_equal. destruct Hone as (c & _ & Hone).
  by apply ReadOutput_success_name in Hone.
Qed.

(** X23. When [ReadLastOutputs] succeeds for an installation,
    [ReadLastOutput] answers, for every name, with the output that the
    container returned has under that name, and with [ErrOutputNotFound]
    when the container has none. *)
Theorem X23_last_output_agrees (installation name : string)
    (st st' : BackingStore) (outs : Outputs) :
  ReadLastOutputs s installation st = ((outs, None), st') →
  fst (ReadLastOutput s installation name st)
  = match GetByName outs name with
    | (o, true) => (o, None)
    | (_, false) => (zero_Output, Some "Output does not exist")
    end.
Proof.
  intros Hall. unfold ReadLastOutputs in Hall.
  destruct (with_connect_data (λ e, (zero_Outputs, Some e))
              (readLastOutputs s installation "") st
              (stable_readLastOutputs s installation "")) as [Hfst _].
  rewrite Hall in Hfst. cbn [fst] in Hfst. symmetry in Hfst. clear Hall st'.
  unfold ReadLastOutput.
  match goal with |- fst (with_connect _ ?body _) = _ =>
    assert (stable body) as Hstable by stable_tac;
    destruct (with_connect_data (λ e, (zero_Output, Some e)) body st Hstable)
      as [-> _]
  end.
  clear Hstable. rewrite bind_eq.
  destruct (decide (name = "")) as [->|Hname].
  { rewrite Hfst. cbn [fst snd]. unfold ret.
    by destruct (GetByName outs "") as [o [|]]. }
  rewrite readLastOutputs_fst in Hfst |- *.
  destruct (fst (ReadAllClaims s installation st)) as [claims [e|]]; [done|].
  destruct (fst (read_outputs s (map_to_list (last_results "" claims st)) [] st))
    as [outputs [e|]] eqn:Hreads; [done|].
  injection Hfst as <-.
  apply (read_outputs_success s _ _ st) in Hreads as (outs' & Houts & Hentries);
    [|done].
  simpl in Houts. subst outs'.
  pose proof (read_outputs_names _ _ _ Hentries) as Hnames.
  assert (NoDup (Output_Name <$> outputs)) as Hnd.
  { rewrite Hnames. apply NoDup_fst_map_to_list. }
  destruct (NewOutputs_spec outputs Hnd) as [Hvals Hidx].
  assert (Outputs_vals (NewOutputs outputs) ≡ₚ outputs) as Hperm.
  { rewrite Hvals. apply sorted_by_name_Permutation. }
  pose proof (last_results_filter name claims st) as Hfilter.
  destruct (last_results "" claims st !! name) as [r|] eqn:Hlast.
  - assert (last_results name claims st = {[name := r]}) as ->.
    { apply map_eq. intros k. rewrite Hfilter by done.
      destruct (decide (k = name)) as [->|Hk].
      - by rewrite lookup_singleton_eq.
      - by rewrite lookup_singleton_ne. }
    rewrite map_to_list_singleton.
    apply elem_of_map_to_list in Hlast.
    apply list_elem_of_lookup in Hlast as [k Hk].
    destruct (Forall2_lookup_l _ _ _ _ _ Hentries Hk) as (o & Ho & c & Hc & Hread).
    simpl in Hc, Hread. simpl. rewrite Hc, bind_eq, Hread. cbn [fst snd].
    unfold ret. cbn [fst snd].
    assert (Output_Name o = name) as Hon
      by (by apply ReadOutput_success_name in Hread).
    assert (GetByName (NewOutputs outputs) name = (o, true)) as ->.
    { rewrite <- Hon. apply GetByName_indexed; [done|]. rewrite Hperm.
      by eapply list_elem_of_lookup_2. }
    unfold NewOutputs, Outputs_Sort, GetByName. simpl.
    by rewrite Hon, lookup_insert_eq.
  - assert (last_results name claims st = ∅) as ->.
    { apply map_eq. intros k. rewrite Hfilter by done. rewrite lookup_empty.
      by case_decide; subst. }
    rewrite map_to_list_empty. simpl.
    assert (GetByName (NewOutputs outputs) name = (zero_Output, false)) as ->.
    { unfold GetByName.
      destruct (Outputs_keys (NewOutputs outputs) !! name) as [k|] eqn:Hk;
        [|done].
      exfalso. apply NewOutputs_known in Hk. rewrite Hperm, Hnames in Hk.
      apply list_elem_of_fmap in Hk as ([name' r] & -> & Hin).
      apply elem_of_map_to_list in Hin. simpl in Hlast. congruence. }
    done.
Qed.

End last_output.

(** ** [claimstore.go]: reads through the claims *)

Section through_claims.
Context `{Env}.
Variable s : Store.

Lemma ReadAllClaims_fst installation st :
  fst (ReadAllClaims s installation st)
  = if decide ((group_records ItemTypeClaims installation st).*2 = [])
    then ([], Some ErrInstallationNotFound)
    else
      match decode_claims s (group_records ItemTypeClaims installation st).*2
      with
      | (_, Some e) => ([], Some e)
      | (claims, None) => (sort.By Claim_ID claims, None)
      end.
Proof.
  unfold ReadAllClaims. rewrite bind_eq, ReadAll_fst.
  destruct (decide ((group_records ItemTypeClaims installation st).*2 = []))
    as [Hnil|Hne].
  - rewrite Hnil. case_decide; cbn [fst snd]; unfold ret; cbn [fst].
    + by rewrite not_found_signal.
    + done.
  - rewrite decide_False by tauto. cbn [fst snd].
    rewrite decide_False by (by destruct (_.*2)).
    by destruct (decode_claims s _) as [cs [e|]].
Qed.

Lemma StronglySorted_keys {A} (key : A → string) (l : list A) :
  StronglySorted (λ a b, String.le (key a) (key b)) l →
  StronglySorted String.le (key <$> l).
Proof.
  induction 1 as [|x l _ IH Hall]; [constructor|].
  rewrite fmap_cons. constructor; [done|]. by apply Forall_fmap.
Qed.

Lemma decoded_ids installation st (records : list (string * bytes)) cs :
  claims_keyed s installation st →
  (∀ key data, (key, data) ∈ records →
               items st !! (ItemTypeClaims, key) = Some (installation, data)) →
  Forall2 (decodes s) records.*2 cs →
  Claim_ID <$> cs = records.*1.
Proof.
  intros Hkeyed. revert cs.
  induction records as [|[key data] records IH]; intros cs Hrecords Hall.
  { apply Forall2_nil_inv_l in Hall. by subst. }
  rewrite fmap_cons in Hall. apply Forall2_cons_inv_l in Hall
    as (c & cs' & Hdec & Hall & ->).
  rewrite !fmap_cons. simpl. f_equal.
  - eapply Hkeyed; [|exact Hdec]. apply Hrecords. by left.
  - apply IH; [|done]. intros key' data' Hin. apply Hrecords. by right.
Qed.

(** X27. On a store whose claim documents carry the id they are stored
    under, the claims that [ReadAllClaims] returns have, in their order, the
    ids that [ListClaims] returns. *)
Theorem X27_claims_read_as_listed (installation : string) (st : BackingStore)
    (claims : list Claim) :
  claims_keyed s installation st →
  fst (ReadAllClaims s installation st) = (claims, None) →
  fst (ListClaims installation st) = (Claim_ID <$> claims, None).
Proof.
  intros Hkeyed Hread.
  pose proof Hread as Hread'. rewrite ReadAllClaims_fst in Hread'.
  case_decide as Hdatas; [done|].
  destruct (decode_claims s _) as [cs' [e|]] eqn:Hdec; [done|].
  injection Hread' as <-.
  apply ReadAllClaims_success in Hread as Hall.
  destruct Hall as (cs & Hdecoded & Hperm).
  assert (Claim_ID <$> cs = (group_records ItemTypeClaims installation st).*1)
    as Hids.
  { eapply decoded_ids; [done| |done].
    intros key data. apply elem_of_group_records. }
  assert (StronglySorted String.le (Claim_ID <$> sort.By Claim_ID cs'))
    as Hsorted.
  { apply StronglySorted_keys, By_sorted. }
  rewrite ListClaims_fst. rewrite decide_False.
  - f_equal. apply (StronglySorted_unique String.le).
    + apply Strings_sorted.
    + done.
    + by rewrite Strings_Permutation, <- Hids, Hperm.
  - intros Hnil. apply Hdatas. apply fmap_nil_inv in Hnil. by rewrite Hnil.
Qed.

Lemma ReadAllClaims_none installation st :
  (group_records ItemTypeClaims installation st).*1 = [] →
  fst (ReadAllClaims s installation st) = ([], Some ErrInstallationNotFound).
Proof.
  intros Hnil. apply fmap_nil_inv in Hnil.
  rewrite ReadAllClaims_fst, Hnil. done.
Qed.

(** X28. For an installation without a claim, [ReadAllClaims],
    [ReadLastOutputs] and [ReadLastOutput] fail with
    [ErrInstallationNotFound], whether the store answers an empty list or
    signals that there is no record. *)
Theorem X28_no_claims_no_outputs (installation : string) (st : BackingStore) :
  (group_records ItemTypeClaims installation st).*1 = [] →
  fst (ReadAllClaims s installation st)
  = ([], Some "Installation does not exist")
  ∧ fst (ReadLastOutputs s installation st)
    = (zero_Outputs, Some "Installation does not exist")
  ∧ ∀ name, fst (ReadLastOutput s installation name st)
            = (zero_Output, Some "Installation does not exist").
Proof.
  intros Hnil. pose proof (ReadAllClaims_none installation st Hnil) as Hread.
  split; [done|]. split.
  - unfold ReadLastOutputs.
    destruct (with_connect_data (λ e, (zero_Outputs, Some e))
                (readLastOutputs s installation "") st
                (stable_readLastOutputs s installation "")) as [-> _].
    by rewrite readLastOutputs_fst, Hread.
  - intros name. unfold ReadLastOutput.
    match goal with |- fst (with_connect _ ?body _) = _ =>
      assert (stable body) as Hstable by stable_tac;
      destruct (with_connect_data (λ e, (zero_Output, Some e)) body st Hstable)
        as [-> _]
    end.
    by rewrite bind_eq, readLastOutputs_fst, Hread.
Qed.

End through_claims.

(** ** The further properties at the test data *)

Section more_examples.
Import testdata.

Lemma fst_eq2 {A} (m : M BackingStore (A * option error)) (st : BackingStore) :
  snd (fst (m st)) = None → fst (m st) = (fst (fst (m st)), None).
Proof. destruct (m st) as [[a e] st']. simpl. by intros ->. Defined.

Lemma X2_witness :
  Installation_Labels exampleInstallation !! labels.App = None
  ∧ GetApp exampleInstallation = "".
Proof.
  assert (Installation_Labels exampleInstallation !! labels.App = None)
    as Hnone by reflexivity.
  split; [exact Hnone|].
  destruct (X2_app_labels exampleInstallation claim1 result1) as (Happ & _).
  exact (Happ Hnone).
Defined.

Lemma X3_witness :
  Forall (λ c, Claim_Action c ≠ ActionInstall) [claim2]
  ∧ Claim_Action claim1 = ActionInstall
  ∧ GetInstallationTimestamp (with_claims exampleInstallation [claim2; claim1])
    = (1001%Z, None).
Proof.
  assert (Forall (λ c, Claim_Action c ≠ ActionInstall) [claim2]) as Hbefore.
  { constructor; [discriminate|constructor]. }
  assert (Claim_Action claim1 = ActionInstall) as Hinstall by reflexivity.
  split; [exact Hbefore|]. split; [exact Hinstall|].
  destruct (X3_installation_timestamp
              (with_claims exampleInstallation [claim2; claim1]))
    as (_ & Hfirst & _).
  exact (Hfirst [claim2] claim1 [] eq_refl Hbefore Hinstall).
Defined.

Lemma X4_witness :
  [claim2; claim1] ≠ []
  ∧ ∃ c, c ∈ [claim2; claim1]
         ∧ String.le (Claim_ID claim2) (Claim_ID c)
         ∧ fst (GetLastClaim (LoadClaims exampleInstallation [claim2; claim1]))
           = with_results c (sort.By Result_ID <$> Claim_results c).
Proof.
  assert ([claim2; claim1] ≠ []) as Hne by discriminate.
  split; [exact Hne|].
  destruct (X4_last_claim_of_loaded exampleInstallation [claim2; claim1])
    as (_ & Hlast).
  destruct (Hlast Hne) as (c & Hin & Hmax & Hget).
  exists c. split; [exact Hin|]. split.
  - apply Hmax. left.
  - by rewrite Hget.
Defined.

Lemma X5_witness :
  [with_results claim2 (Some [result2]); claim1] ≠ []
  ∧ ∃ c, c ∈ [with_results claim2 (Some [result2]); claim1]
         ∧ String.le (Claim_ID claim1) (Claim_ID c).
Proof.
  assert ([with_results claim2 (Some [result2]); claim1] ≠ []) as Hne
    by discriminate.
  split; [exact Hne|].
  destruct (X5_last_result_of_loaded exampleInstallation
              [with_results claim2 (Some [result2]); claim1] Hne)
    as (c & Hin & Hmax & _).
  exists c. split; [exact Hin|]. apply Hmax. right. left.
Defined.

Lemma X6_witness :
  ∃ i, NewInstallation (λ _, true) ("1.0.0", None) 1000%Z
         "myns" "myapp" exampleBundle "" "sha256:abc123" = (i, None)
       ∧ Installation_Labels i = ∅
       ∧ Installation_Created i = Installation_Modified i.
Proof.
  destruct (X6_new_installation (λ _, true) ("1.0.0", None) 1000%Z
              "myns" "myapp" exampleBundle "" "sha256:abc123")
    as (_ & _ & _ & Hok).
  destruct (Hok eq_refl eq_refl (or_introl eq_refl))
    as (i & Hnew & _ & _ & _ & _ & _ & _ & Hc & Hm & Hl & _).
  exists i. split; [exact Hnew|]. split; [exact Hl|]. by rewrite Hc, Hm.
Defined.

Lemma X7_witness :
  NoDup (Output_Name <$> [password1; NewOutput claim1 result1 "port" (text "8080")])
  ∧ Outputs_Len
      (NewOutputs [password1; NewOutput claim1 result1 "port" (text "8080")])
    = 2
  ∧ GetByName
      (NewOutputs [password1; NewOutput claim1 result1 "port" (text "8080")])
      "password" = (password1, true).
Proof.
  assert (NoDup (Output_Name
                   <$> [password1;
                        NewOutput claim1 result1 "port" (text "8080")]))
    as Hnd.
  { apply NoDup_cons. split; [|apply NoDup_singleton].
    intros Hin. apply list_elem_of_singleton in Hin. discriminate. }
  split; [exact Hnd|].
  destruct (X7_new_outputs _ Hnd) as (_ & _ & Hlen & Hname & _).
  split; [exact Hlen|]. apply (Hname password1). left.
Defined.

Lemma X8_witness :
  indexed (NewOutputs [password1; NewOutput claim1 result1 "port" (text "8080")])
  ∧ known (NewOutputs [password1; NewOutput claim1 result1 "port" (text "8080")])
  ∧ Outputs_vals
      (Outputs_Swap
         (NewOutputs [password1; NewOutput claim1 result1 "port" (text "8080")])
         0 1) !! 0
    = Outputs_vals
        (NewOutputs [password1; NewOutput claim1 result1 "port" (text "8080")])
      !! 1.
Proof.
  assert (NoDup (Output_Name
                   <$> [password1;
                        NewOutput claim1 result1 "port" (text "8080")]))
    as Hnd.
  { apply NoDup_cons. split; [|apply NoDup_singleton].
    intros Hin. apply list_elem_of_singleton in Hin. discriminate. }
  destruct (NewOutputs_spec _ Hnd) as [_ Hidx].
  pose proof (NewOutputs_known
                [password1; NewOutput claim1 result1 "port" (text "8080")])
    as Hknown.
  split; [exact Hidx|]. split; [exact Hknown|].
  assert (0 < Outputs_Len
                (NewOutputs [password1;
                             NewOutput claim1 result1 "port" (text "8080")]))
    as H0 by (vm_compute; lia).
  assert (1 < Outputs_Len
                (NewOutputs [password1;
                             NewOutput claim1 result1 "port" (text "8080")]))
    as H1 by (vm_compute; lia).
  destruct (X8_swap_keeps_index _ 0 1 Hidx Hknown H0 H1)
    as (_ & _ & _ & Hswap & _).
  exact Hswap.
Defined.

Lemma X9_witness :
  ListResults "01C1" (populated sealed false)
  = ((fst (fst (ListResults "01C1" (populated sealed false))),
      snd (fst (ListResults "01C1" (populated sealed false)))),
     snd (ListResults "01C1" (populated sealed false)))
  ∧ StronglySorted String.le
      (fst (fst (ListResults "01C1" (populated sealed false)))).
Proof.
  assert (ListResults "01C1" (populated sealed false)
          = ((fst (fst (ListResults "01C1" (populated sealed false))),
              snd (fst (ListResults "01C1" (populated sealed false)))),
             snd (ListResults "01C1" (populated sealed false)))) as Hrun.
  { by destruct (ListResults "01C1" (populated sealed false)) as [[? ?] ?]. }
  split; [exact Hrun|].
  destruct (X9_lists_are_sorted (populated sealed false))
    as (_ & _ & _ & Hresults & _).
  destruct (Hresults "01C1" _ _ _ Hrun) as [Hsorted _]. exact Hsorted.
Defined.

Lemma X10_witness :
  crud.List ItemTypeClaims "wordpress" (backing.empty false)
  = (([], None), Close (Connect (backing.empty false)))
  ∧ ListClaims "wordpress" (backing.empty false)
    = (([], Some "Installation does not exist"),
       Close (Connect (backing.empty false))).
Proof.
  assert (crud.List ItemTypeClaims "wordpress" (backing.empty false)
          = (([], None), Close (Connect (backing.empty false)))) as Hlist
    by reflexivity.
  split; [exact Hlist|].
  destruct (X10_list_claims "wordpress" _ _ _ _ Hlist) as (Hnone & _).
  exact (Hnone eq_refl).
Defined.


Lemma X12_witness :
  reads (OpReadLastOutputs "wordpress") = true
  ∧ items (after sealed (OpReadLastOutputs "wordpress") (populated sealed false))
    = items (populated sealed false).
Proof.
  assert (reads (OpReadLastOutputs "wordpress") = true) as Hr by reflexivity.
  split; [exact Hr|].
  destruct (X12_frames_by_kind sealed (OpReadLastOutputs "wordpress")
              (populated sealed false)) as (Hread & _).
  exact (Hread Hr).
Defined.

Lemma X13_witness :
  opened (Connect (backing.empty false)) = true
  ∧ connects (after sealed (OpDeleteInstallation "wordpress")
                (Connect (backing.empty false)))
    = connects (Connect (backing.empty false)).
Proof.
  assert (opened (Connect (backing.empty false)) = true) as Ho by reflexivity.
  split; [exact Ho|].
  destruct (X13_no_connection_when_held sealed
              (OpDeleteInstallation "wordpress") _ Ho) as (_ & Hc & _).
  exact Hc.
Defined.

Lemma X14_witness :
  encrypt sealed (Marshal_Claim claim1) = (x23 :: Marshal_Claim claim1, None)
  ∧ fst (IsModifyingAction claim1) = true
  ∧ items (backing.empty false)
      !! (ItemTypeInstallations, InstallationKey "" (Claim_Installation claim1))
    = None
  ∧ fst (SaveClaim sealed claim1 (backing.empty false))
    = Some "Installation does not exist"
  ∧ items (snd (SaveClaim sealed claim1 (backing.empty false)))
      !! (ItemTypeClaims, "01C1")
    = Some ("wordpress", x23 :: Marshal_Claim claim1).
Proof.
  assert (encrypt sealed (Marshal_Claim claim1)
          = (x23 :: Marshal_Claim claim1, None)) as Henc by reflexivity.
  assert (fst (IsModifyingAction claim1) = true) as Hmod by reflexivity.
  assert (items (backing.empty false)
            !! (ItemTypeInstallations,
                InstallationKey "" (Claim_Installation claim1)) = None)
    as Hnone by reflexivity.
  split; [exact Henc|]. split; [exact Hmod|]. split; [exact Hnone|].
  destruct (X14_save_claim_writes_first sealed claim1 (backing.empty false))
    as (_ & Hok).
  destruct (Hok _ Henc) as (Hrec & _ & _ & Hmissing).
  destruct (Hmissing Hmod Hnone) as [Hfst _].
  split; [exact Hfst|exact Hrec].
Defined.

Lemma X15_witness :
  Result_claim result1 = Some claim1
  ∧ fst (IsModifyingAction claim1) = true
  ∧ fst (SaveResult sealed result1 (backing.empty false))
    = Some "Installation does not exist"
  ∧ items (snd (SaveResult sealed result1 (backing.empty false)))
      !! (ItemTypeResults, "01R1")
    = Some ("01C1", Marshal_Result result1).
Proof.
  assert (Result_claim result1 = Some claim1) as Hclaim by reflexivity.
  assert (fst (IsModifyingAction claim1) = true) as Hmod by reflexivity.
  split; [exact Hclaim|]. split; [exact Hmod|].
  destruct (X15_save_result_writes_first sealed result1 (backing.empty false))
    as (Hrec & _ & _ & Hmissing).
  destruct (Hmissing claim1 Hclaim Hmod eq_refl) as [Hfst _].
  split; [exact Hfst|exact Hrec].
Defined.

Lemma X16_witness :
  items (backing.empty false) !! (ItemTypeOutputs, outputKey "01R1" "port")
  = None
  ∧ fst (DeleteOutput "01R1" "port" (backing.empty false))
    = Some "Output does not exist".
Proof.
  assert (items (backing.empty false)
            !! (ItemTypeOutputs, outputKey "01R1" "port") = None) as Hnone
    by reflexivity.
  split; [exact Hnone|].
  destruct (X16_delete_output "01R1" "port" (backing.empty false))
    as (_ & _ & Hmissing).
  destruct (Hmissing Hnone) as [Hfst _]. exact Hfst.
Defined.

Lemma X17_witness :
  outputs_keyed (populated sealed false)
  ∧ fst (DeleteResult "01R1" (populated sealed false))
    = match items (populated sealed false) !! (ItemTypeResults, "01R1") with
      | Some _ => None
      | None => Some "Result does not exist"
      end.
Proof.
  assert (outputs_keyed (populated sealed false)) as Hkeyed.
  { apply outputs_keyed_b_sound. vm_compute. reflexivity. }
  split; [exact Hkeyed|].
  destruct (X17_delete_result_exact "01R1" _ Hkeyed) as [_ Hfst]. exact Hfst.
Defined.

Lemma X18_witness :
  outputs_keyed (populated sealed false)
  ∧ fst (DeleteClaim "01C1" (populated sealed false))
    = match items (populated sealed false) !! (ItemTypeClaims, "01C1") with
      | Some _ => None
      | None => Some "Claim does not exist"
      end.
Proof.
  assert (outputs_keyed (populated sealed false)) as Hkeyed.
  { apply outputs_keyed_b_sound. vm_compute. reflexivity. }
  split; [exact Hkeyed|].
  destruct (X18_delete_claim_exact "01C1" _ Hkeyed) as [_ Hfst]. exact Hfst.
Defined.

Lemma X19_witness :
  outputs_keyed (populated sealed false)
  ∧ (group_records ItemTypeClaims "wordpress" (populated sealed false)).*1 ≠ []
  ∧ fst (DeleteInstallation "wordpress" (populated sealed false))
    = match items (populated sealed false)
              !! (ItemTypeInstallations, "wordpress") with
      | Some _ => None
      | None => Some "Installation does not exist"
      end.
Proof.
  assert (outputs_keyed (populated sealed false)) as Hkeyed.
  { apply outputs_keyed_b_sound. vm_compute. reflexivity. }
  assert ((group_records ItemTypeClaims "wordpress"
             (populated sealed false)).*1 ≠ []) as Hne.
  { intros Hnil. vm_compute in Hnil. discriminate Hnil. }
  split; [exact Hkeyed|]. split; [exact Hne|].
  destruct (X19_delete_installation_exact "wordpress" _ Hkeyed Hne)
    as [_ Hfst].
  exact Hfst.
Defined.


Lemma X21_witness :
  snd (fst (ReadAllInstallationStatus sealed (populated sealed false))) = None
  ∧ Installation_Name
      <$> fst (fst (ReadAllInstallationStatus sealed (populated sealed false)))
    = sort.Strings
        (group_records ItemTypeInstallations NamespaceGlobal
           (populated sealed false)).*1.
Proof.
  assert (snd (fst (ReadAllInstallationStatus sealed (populated sealed false)))
          = None) as Herr by (vm_compute; reflexivity).
  split; [exact Herr|].
  destruct (X21_all_status sealed _ _
              (fst_eq2 (ReadAllInstallationStatus sealed) _ Herr))
    as (Hnames & _).
  exact Hnames.
Defined.

Lemma X22_witness :
  fst (SaveClaim (NewClaimStore None None) claim1 installed) = None
  ∧ items (snd (SaveClaim (NewClaimStore None None) claim1 installed))
      !! (ItemTypeClaims, Claim_ID claim1)
    = Some (Claim_Installation claim1, Marshal_Claim claim1).
Proof.
  assert (fst (SaveClaim (NewClaimStore None None) claim1 installed) = None)
    as Hfst by (vm_compute; reflexivity).
  split; [exact Hfst|].
  destruct (@X22_no_handlers_no_encryption env) as (_ & Hclaim & _).
  exact (Hclaim claim1 installed _
           (run_eq (SaveClaim (NewClaimStore None None) claim1) _ Hfst)).
Defined.

Lemma X23_witness :
  snd (fst (ReadLastOutputs sealed "wordpress" (populated sealed false))) = None
  ∧ fst (ReadLastOutput sealed "wordpress" "port" (populated sealed false))
    = match GetByName
              (fst (fst (ReadLastOutputs sealed "wordpress"
                           (populated sealed false))))
              "port" with
      | (o, true) => (o, None)
      | (_, false) => (zero_Output, Some "Output does not exist")
      end.
Proof.
  assert (snd (fst (ReadLastOutputs sealed "wordpress" (populated sealed false)))
          = None) as Herr by (vm_compute; reflexivity).
  split; [exact Herr|].
  exact (X23_last_output_agrees sealed "wordpress" "port" _ _ _
           (run_eq2 (ReadLastOutputs sealed "wordpress") _ Herr)).
Defined.

Lemma X24_witness :
  outputs_keyed (populated sealed false)
  ∧ outputs_keyed (after sealed (OpSaveOutput password1) (populated sealed false)).
Proof.
  assert (outputs_keyed (populated sealed false)) as Hkeyed.
  { apply outputs_keyed_b_sound. vm_compute. reflexivity. }
  split; [exact Hkeyed|].
  destruct (X24_outputs_keyed_is_kept sealed (OpSaveOutput password1)
              (populated sealed false) false) as [_ Hkept].
  exact (Hkept Hkeyed).
Defined.

Lemma X25_witness :
  outputs_keyed (populated sealed false)
  ∧ fst (SaveOutput sealed password1 (populated sealed false)) = None
  ∧ "password"
    ∈ fst (fst (ListOutputs "01R1"
                  (snd (SaveOutput sealed password1 (populated sealed false))))).
Proof.
  assert (outputs_keyed (populated sealed false)) as Hkeyed.
  { apply outputs_keyed_b_sound. vm_compute. reflexivity. }
  assert (fst (SaveOutput sealed password1 (populated sealed false)) = None)
    as Hfst by (vm_compute; reflexivity).
  split; [exact Hkeyed|]. split; [exact Hfst|].
  destruct (X25_saved_output_is_listed sealed _ Hkeyed) as [_ Hlisted].
  exact (Hlisted password1 _ (run_eq (SaveOutput sealed password1) _ Hfst)).
Defined.


Lemma X27_witness :
  claims_keyed sealed "wordpress" (populated sealed false)
  ∧ snd (fst (ReadAllClaims sealed "wordpress" (populated sealed false))) = None
  ∧ fst (ListClaims "wordpress" (populated sealed false))
    = (Claim_ID
         <$> fst (fst (ReadAllClaims sealed "wordpress"
                         (populated sealed false))), None).
Proof.
  assert (claims_keyed sealed "wordpress" (populated sealed false)) as Hclaims.
  { apply claims_keyed_b_sound. vm_compute. reflexivity. }
  assert (snd (fst (ReadAllClaims sealed "wordpress" (populated sealed false)))
          = None) as Herr by (vm_compute; reflexivity).
  split; [exact Hclaims|]. split; [exact Herr|].
  exact (X27_claims_read_as_listed sealed "wordpress" _ _ Hclaims
           (fst_eq2 (ReadAllClaims sealed "wordpress") _ Herr)).
Defined.

Lemma X28_witness :
  (group_records ItemTypeClaims "wordpress" installed).*1 = []
  ∧ fst (ReadLastOutputs sealed "wordpress" installed)
    = (zero_Outputs, Some "Installation does not exist").
Proof.
  assert ((group_records ItemTypeClaims "wordpress" installed).*1 = [])
    as Hnil by (vm_compute; reflexivity).
  split; [exact Hnil|].
  destruct (X28_no_claims_no_outputs sealed "wordpress" installed Hnil)
    as (_ & Houts & _).
  exact Houts.
Defined.

End more_examples.
